(** * lttng-ctl: the client side of the session-daemon protocol

    A shallow embedding of [src/lib/lttng-ctl/lttng-ctl.c]: the string
    helper, the two request paths ([lttng_ctl_ask_sessiond_fds_varlen] and
    [lttng_ctl_ask_sessiond_payload]), a representative set of the public
    operations built on them, the listing operations and the two-pass
    flattening of [lttng_list_events].

    Conventions.
    - A C [int] is a [Z]; conversions that can wrap are written with
      [to_int] and [to_uint32].  [size_t] quantities are sizes of objects
      that exist in memory and are kept as unbounded [Z].
    - A pointer that may be [NULL] is an [option]; an out-parameter
      [T **p] is an [option T'] holding the current value of [*p], and
      the function returns the updated cell.
    - The process-wide statics [sessiond_socket] and [connected], the
      heap and the log of every call into the outside world form the
      [state]; the outside world answers through an oracle indexed by the
      number of calls made so far. *)

From Stdlib Require Import ZArith Lia List Bool String.
From Stdlib Require Import Strings.Byte DecimalString.
From stdpp Require Import base tactics option list gmap.

Local Open Scope Z_scope.

(* ================================================================== *)
(** * C integers *)

Definition INT_MAX : Z := 2 ^ 31 - 1.

(** Conversion of an arbitrary integer to a 32-bit [unsigned int]. *)
Definition to_uint32 (z : Z) : Z := z mod 2 ^ 32.

(** Conversion to a 32-bit [int] (two's complement wrap-around). *)
Definition to_int (z : Z) : Z :=
  let m := z mod 2 ^ 32 in if m <? 2 ^ 31 then m else m - 2 ^ 32.

Arguments to_uint32 : simpl never.
Arguments to_int : simpl never.

(** [ALIGN_TO(value, alignment)], a macro of a header that is not part
    of the file: [((value) + (alignment) - 1) & ~((alignment) - 1)]. *)
Definition ALIGN_TO (value alignment : Z) : Z :=
  Z.land (value + alignment - 1) (Z.lnot (alignment - 1)).

Arguments ALIGN_TO : simpl never.

(* ================================================================== *)
(** * Bytes and C strings *)

Abbreviation byte := Byte.byte.

(** The characters of the C string stored at the start of [mem]: every
    byte before the first NUL.  The end of the list stands for the
    terminator of a string that fills its storage. *)
Fixpoint c_str (mem : list byte) : list byte :=
  match mem with
  | [] => []
  | b :: rest => if Byte.eqb b x00 then [] else b :: c_str rest
  end.

Definition strlen (mem : list byte) : Z := Z.of_nat (length (c_str mem)).

(** [strncpy(dst, src, n)]: the first [n] characters of [src], padded
    with NUL bytes up to [n] when [src] is shorter; the rest of [dst] is
    left as it was. *)
Definition strncpy (dst src : list byte) (n : nat) : list byte :=
  take n (c_str src ++ replicate n x00) ++ drop n dst.

(** [lttng_ctl_copy_string], lines 82-92.  [None] is undefined
    behaviour: a write outside of [dst] ([len] is 0, or larger than the
    destination array). *)
Definition lttng_ctl_copy_string (dst src : option (list byte)) (len : Z)
  : option (option (list byte)) :=
  match src, dst with
  | Some s, Some d =>
      if (1 <=? len) && (len <=? Z.of_nat (length d)) then
        (* strncpy(dst, src, len); dst[len - 1] = '\0'; *)
        Some (Some (<[Z.to_nat (len - 1) := x00]> (strncpy d s (Z.to_nat len))))
      else None
  | None, Some d =>
      (* dst[0] = '\0'; *)
      match d with
      | [] => None
      | _ :: _ => Some (Some (<[0%nat := x00]> d))
      end
  | _, None => Some None
  end.

(* ================================================================== *)
(** * Data model *)

(** The fixed reply header, [struct lttcomm_lttng_msg]; only the fields
    the client reads. *)
Record lttcomm_lttng_msg := {
  ret_code : Z;
  cmd_header_size : Z;
  data_size : Z;
  fd_count : Z;
}.

(** [enum lttcomm_sessiond_command], the commands issued by the
    operations modelled below. *)
Inductive lttcomm_sessiond_command :=
| LTTNG_ADD_CONTEXT
| LTTNG_DISABLE_CHANNEL
| LTTNG_DISABLE_EVENT
| LTTNG_LIST_CHANNELS
| LTTNG_LIST_DOMAINS
| LTTNG_LIST_EVENTS
| LTTNG_LIST_SESSIONS
| LTTNG_LIST_TRACEPOINTS
| LTTNG_LIST_SYSCALLS
| LTTNG_REGISTER_CONSUMER
| LTTNG_START_TRACE
| LTTNG_STOP_TRACE
| LTTNG_DATA_PENDING
| LTTNG_SET_SESSION_SHM_PATH
| LTTNG_REGENERATE_METADATA
| LTTNG_REGENERATE_STATEDUMP.

(** [enum lttng_domain_type]; [LTTNG_DOMAIN_NONE] is the value 0 that
    [memset] leaves, [LTTNG_DOMAIN_invalid] any value outside the enum. *)
Inductive lttng_domain_type :=
| LTTNG_DOMAIN_NONE
| LTTNG_DOMAIN_KERNEL
| LTTNG_DOMAIN_UST
| LTTNG_DOMAIN_JUL
| LTTNG_DOMAIN_LOG4J
| LTTNG_DOMAIN_PYTHON
| LTTNG_DOMAIN_invalid (v : Z).

(** [struct lttng_domain]: the type, and the other members as one
    opaque value ([None] once zeroed). *)
Record lttng_domain := {
  dom_type : lttng_domain_type;
  dom_attr : option (list byte);
}.

Definition lttng_domain_zero : lttng_domain :=
  {| dom_type := LTTNG_DOMAIN_NONE; dom_attr := None |}.

(** [struct lttng_handle]. *)
Record lttng_handle := {
  h_session_name : list byte;   (* char session_name[LTTNG_NAME_MAX] *)
  h_domain : lttng_domain;
}.

Inductive lttng_loglevel_type :=
| LTTNG_EVENT_LOGLEVEL_ALL
| LTTNG_EVENT_LOGLEVEL_RANGE
| LTTNG_EVENT_LOGLEVEL_SINGLE.

(** [struct lttng_event]: the members this file reads, the others as an
    opaque value. *)
Record lttng_event := {
  ev_name : list byte;          (* char name[LTTNG_SYMBOL_NAME_LEN] *)
  ev_loglevel_type : lttng_loglevel_type;
  ev_loglevel : Z;
  ev_other : list byte;
}.

Inductive lttng_event_context_type :=
| LTTNG_EVENT_CONTEXT_APP_CONTEXT
| LTTNG_EVENT_CONTEXT_other (v : Z).

(** The union [u] of [struct lttng_event_context]: the two pointers of
    [app_ctx], or the bytes of another member. *)
Inductive lttng_event_context_u :=
| app_ctx (provider_name ctx_name : option (list byte))
| ctx_raw (bytes : list byte).

Record lttng_event_context := {
  ctx : lttng_event_context_type;
  ctx_u : lttng_event_context_u;
}.

(** The command-specific union [u] of [struct lttcomm_session_msg],
    restricted to the members written by the operations below.
    [u_zero] is the union as [memset] leaves it. *)
Inductive lsm_union :=
| u_zero
| u_reg (path : list byte)
| u_context (channel_name : list byte) (c : lttng_event_context)
    (provider_name_len context_name_len : Z)
| u_disable (channel_name : list byte) (event : lttng_event)
    (bytecode_len expression_len : Z)
| u_list (channel_name : list byte)
| u_set_shm_path (shm_path : list byte).

(** The command record, [struct lttcomm_session_msg]. *)
Record lttcomm_session_msg := {
  cmd_type : lttcomm_sessiond_command;
  session_name : list byte;     (* session.name, char[LTTNG_NAME_MAX] *)
  domain : lttng_domain;
  u : lsm_union;
}.

(** What the headers that are not part of the file declare: error
    codes, array sizes, structure sizes and layouts, and the codec of
    the nested userspace-probe object.  Error codes and sizes are
    positive numbers. *)
Class Externals := {
  (* lttng/lttng-error.h *)
  LTTNG_OK : positive;
  LTTNG_ERR_UNK : positive;
  LTTNG_ERR_NO_SESSIOND : positive;
  LTTNG_ERR_FATAL : positive;
  LTTNG_ERR_NOMEM : positive;
  LTTNG_ERR_INVALID : positive;
  LTTNG_ERR_TRACE_ALREADY_STOPPED : positive;
  LTTNG_ERR_EXCLUSION_NOMEM : positive;
  LTTNG_ERR_OVERFLOW : positive;
  LTTNG_ERR_PROBE_LOCATION_INVAL : positive;
  LTTNG_ERR_INVALID_PROTOCOL : positive;
  ENOMEM : positive;
  (* array sizes *)
  LTTNG_NAME_MAX : positive;
  LTTNG_SYMBOL_NAME_LEN : positive;
  PATH_MAX : positive;
  (* common/defaults.h *)
  DEFAULT_DATA_AVAILABILITY_WAIT_TIME_US : Z;
  (* sizeof and object representations *)
  sizeof_lttcomm_lttng_msg : positive;
  decode_lttcomm_lttng_msg : list byte -> lttcomm_lttng_msg;
  sizeof_lttcomm_session_msg : positive;
  encode_lttcomm_session_msg : lttcomm_session_msg -> list byte;
  sizeof_lttcomm_event_command_header : positive;
  decode_nb_events : list byte -> Z;
  sizeof_lttcomm_event_extended_header : positive;
  decode_filter_len : list byte -> Z;
  decode_nb_exclusions : list byte -> Z;
  decode_userspace_probe_location_len : list byte -> Z;
  sizeof_lttng_event : positive;
  sizeof_lttng_event_extended : positive;
  sizeof_lttng_domain : positive;
  sizeof_lttng_session : positive;
  sizeof_lttng_session_extended : positive;
  sizeof_lttng_channel : positive;
  sizeof_lttng_channel_extended : positive;
  (* the filter compiler: result code and the bytecode object *)
  filter_parser_ctx_create_from_filter_expression :
    list byte -> Z * list byte;
  (* the userspace-probe codec: the flattened form of a serialized
     probe location, [None] when the bytes are not a probe location *)
  userspace_probe_location_flat : list byte -> option (list byte);
}.

(* ================================================================== *)
(** * The outside world, the state and the monad *)

Local Coercion Z.pos : positive >-> Z.

(** The answer of the world to one call: a result code and, for the
    calls that deliver something, the bytes or descriptors. *)
Record answer := {
  a_ret : Z;
  a_bytes : list byte;
  a_fds : list Z;
}.

(** What is written to the socket with credentials: the command record
    itself on the fixed-header path, a byte buffer on the payload path. *)
Inductive wire :=
| WLsm (lsm : lttcomm_session_msg)
| WBytes (bytes : list byte).

(** One entry of the log per call into the world. *)
Inductive event :=
| EvResolvePath (ret : Z)
| EvConnect (ret : Z)
| EvSendCreds (sock : Z) (msg : wire) (ret : Z)
| EvSend (sock : Z) (bytes : list byte) (ret : Z)
| EvSendFds (sock : Z) (fds : list Z) (ret : Z)
| EvRecv (sock : Z) (len : Z) (ret : Z) (bytes : list byte)
| EvRecvFds (sock : Z) (nb_fd : Z) (ret : Z) (fds : list Z)
| EvClose (sock : Z) (ret : Z)
| EvAlloc (len : Z) (ok : bool)
| EvSleep (usec : Z).

(** The statics of lines 61 and 66, the heap of [zmalloc]ed blocks, the
    log, and the oracle with the number of calls it has answered. *)
Record state := {
  sessiond_socket : Z;
  connected : bool;
  heap : gmap nat (list byte);
  next_block : nat;
  trace : list event;
  clock : nat;
  world : nat -> answer;
}.

Inductive fault :=
| Undefined        (* undefined behaviour *)
| Abort            (* abort() *)
| AssertionFailed  (* assert() *)
| OutOfFuel.       (* the bound on loop iterations was reached *)

Inductive outcome (A : Type) :=
| Done (a : A) (s : state)
| Fault (f : fault).
Arguments Done {A} a s.
Arguments Fault {A} f.

Definition M (A : Type) : Type := state -> outcome A.

Definition Return {A} (a : A) : M A := fun s => Done a s.

Definition bind {A B} (m : M A) (k : A -> M B) : M B :=
  fun s => match m s with
           | Done a s' => k a s'
           | Fault f => Fault f
           end.

Definition fail {A} (f : fault) : M A := fun _ => Fault f.

Notation "'let*' x ':=' m 'in' k" := (bind m (fun x => k))
  (at level 10, x name, m at level 100, k at level 200).
Notation "'let*' ' pat ':=' m 'in' k" :=
  (bind m (fun x => match x with pat => k end))
  (at level 10, pat pattern, m at level 100, k at level 200).

Definition get : M state := fun s => Done s s.

Definition set_connection (sock : Z) (c : bool) : M unit := fun s =>
  Done tt {| sessiond_socket := sock; connected := c; heap := heap s;
             next_block := next_block s; trace := trace s;
             clock := clock s; world := world s |}.

Definition set_heap (h : gmap nat (list byte)) (next : nat) : M unit :=
  fun s =>
  Done tt {| sessiond_socket := sessiond_socket s; connected := connected s;
             heap := h; next_block := next; trace := trace s;
             clock := clock s; world := world s |}.

(** A call into the world: the oracle gives its next answer, and the
    call is logged. *)
Definition ask_world (mk : answer -> event) : M answer := fun s =>
  let a := world s (clock s) in
  Done a {| sessiond_socket := sessiond_socket s; connected := connected s;
            heap := heap s; next_block := next_block s;
            trace := trace s ++ [mk a]; clock := S (clock s);
            world := world s |}.

(** The events logged between two states. *)
Definition new_events (s s' : state) : list event :=
  drop (length (trace s)) (trace s').

(** ** Memory *)

(** [zmalloc(len)]: a fresh zeroed block, or [NULL]. *)
Definition zmalloc (len : Z) : M (option nat) :=
  let* a := ask_world (fun a => EvAlloc len (negb (a_ret a =? 0))) in
  if a_ret a =? 0 then Return None
  else
    let* s := get in
    let b := next_block s in
    let* _ := set_heap (<[b := replicate (Z.to_nat len) x00]> (heap s)) (S b) in
    Return (Some b).

(** [free(p)]; releasing a block that is not live is undefined. *)
Definition free (p : option nat) : M unit :=
  match p with
  | None => Return tt
  | Some b =>
      let* s := get in
      match heap s !! b with
      | Some _ => set_heap (delete b (heap s)) (next_block s)
      | None => fail Undefined
      end
  end.

(** Writing [bytes] at the start of a buffer that holds [old]. *)
Definition overlay (old bytes : list byte) : list byte :=
  take (length old) (bytes ++ drop (length bytes) old).

Definition store (b : nat) (bytes : list byte) : M unit :=
  let* s := get in
  match heap s !! b with
  | Some old => set_heap (<[b := overlay old bytes]> (heap s)) (next_block s)
  | None => fail Undefined
  end.

(** ** The socket library ([common/unix.h]) and [usleep] *)

Definition lttcomm_connect_unix_sock : M Z :=
  let* a := ask_world (fun a => EvConnect (a_ret a)) in Return (a_ret a).

Definition lttcomm_close_unix_sock (sock : Z) : M Z :=
  let* a := ask_world (fun a => EvClose sock (a_ret a)) in Return (a_ret a).

Definition lttcomm_send_creds_unix_sock (sock : Z) (msg : wire) : M Z :=
  let* a := ask_world (fun a => EvSendCreds sock msg (a_ret a)) in
  Return (a_ret a).

Definition lttcomm_send_unix_sock (sock : Z) (bytes : list byte) : M Z :=
  let* a := ask_world (fun a => EvSend sock bytes (a_ret a)) in
  Return (a_ret a).

Definition lttcomm_send_fds_unix_sock (sock : Z) (fds : list Z) : M Z :=
  let* a := ask_world (fun a => EvSendFds sock fds (a_ret a)) in
  Return (a_ret a).

(** The bytes the call leaves in the receiving buffer are returned with
    the result code. *)
Definition lttcomm_recv_unix_sock (sock : Z) (len : Z) : M (Z * list byte) :=
  let* a := ask_world (fun a => EvRecv sock len (a_ret a) (a_bytes a)) in
  Return (a_ret a, a_bytes a).

Definition lttcomm_recv_fds (sock : Z) (nb_fd : Z) : M (Z * list Z) :=
  let* a := ask_world (fun a => EvRecvFds sock nb_fd (a_ret a) (a_fds a)) in
  Return (a_ret a, a_fds a).

Definition usleep (usec : Z) : M unit :=
  let* _ := ask_world (fun _ => EvSleep usec) in Return tt.

(* ================================================================== *)
(** * The request paths *)

Section Transport.
Context `{Externals}.

(** The reply header as the client reads it from the bytes received;
    its members are 32-bit unsigned. *)
Definition read_llm (bytes : list byte) : lttcomm_lttng_msg :=
  let llm := decode_lttcomm_lttng_msg bytes in
  {| ret_code := to_uint32 (ret_code llm);
     cmd_header_size := to_uint32 (cmd_header_size llm);
     data_size := to_uint32 (data_size llm);
     fd_count := to_uint32 (fd_count llm) |}.

(** [set_session_daemon_path], lines 388-435, resolves the socket path
    from the user id, the tracing group and the home directory; it is
    one call into the world here, with the result 0 or -1. *)
Definition set_session_daemon_path : M Z :=
  let* a := ask_world (fun a => EvResolvePath (a_ret a)) in
  Return (if a_ret a <? 0 then -1 else 0).

(** Lines 442-461. *)
Definition connect_sessiond : M Z :=
  let* ret := set_session_daemon_path in
  if ret <? 0 then Return (-1) else
  let* ret := lttcomm_connect_unix_sock in
  if ret <? 0 then Return (-1) else
  Return ret.

(** Lines 463-467. *)
Definition reset_global_sessiond_connection_state : M unit :=
  set_connection (-1) false.

(** Lines 474-484. *)
Definition disconnect_sessiond : M Z :=
  let* s := get in
  if connected s then
    let* ret := lttcomm_close_unix_sock (sessiond_socket s) in
    let* _ := reset_global_sessiond_connection_state in
    Return ret
  else Return 0.

(** Lines 125-144. *)
Definition send_session_msg (lsm : lttcomm_session_msg) : M Z :=
  let* s := get in
  if negb (connected s) then Return (- LTTNG_ERR_NO_SESSIOND) else
  let* ret := lttcomm_send_creds_unix_sock (sessiond_socket s) (WLsm lsm) in
  if ret <? 0 then Return (- LTTNG_ERR_FATAL) else
  Return ret.

(** Lines 152-173. *)
Definition send_session_varlen (data : option (list byte)) (len : Z) : M Z :=
  let* s := get in
  if negb (connected s) then Return (- LTTNG_ERR_NO_SESSIOND) else
  match data with
  | None => Return 0
  | Some bytes =>
      if len =? 0 then Return 0 else
      let* ret := lttcomm_send_unix_sock (sessiond_socket s)
                    (take (Z.to_nat len) bytes) in
      if ret <? 0 then Return (- LTTNG_ERR_FATAL) else
      Return ret
  end.

(** Lines 181-202. *)
Definition send_session_fds (fds : option (list Z)) (nb_fd : Z) : M Z :=
  let* s := get in
  if negb (connected s) then Return (- LTTNG_ERR_NO_SESSIOND) else
  match fds with
  | None => Return 0
  | Some l =>
      if nb_fd =? 0 then Return 0 else
      let* ret := lttcomm_send_fds_unix_sock (sessiond_socket s)
                    (take (Z.to_nat nb_fd) l) in
      if ret <? 0 then Return (- LTTNG_ERR_FATAL) else
      Return ret
  end.

(** Lines 210-226; the second component is what was written to [buf]
    (nothing when the socket is not connected). *)
Definition recv_data_sessiond (len : Z) : M (Z * list byte) :=
  let* s := get in
  if negb (connected s) then Return (- LTTNG_ERR_NO_SESSIOND, []) else
  let* '(ret, bytes) := lttcomm_recv_unix_sock (sessiond_socket s) len in
  if ret <? 0 then Return (- LTTNG_ERR_FATAL, bytes) else
  Return (ret, bytes).

(** Lines 486-532.  [user_buf] and [user_len] are out-parameters: [None]
    is a [NULL] out-parameter, [Some v] one whose cell holds [v]; the
    updated cells are returned with [ret].  The [free(buf)] at [end]
    releases the block on every path that did not hand it over. *)
Definition recv_sessiond_optional_data (len : Z)
    (user_buf : option (option nat)) (user_len : option Z)
  : M (Z * option (option nat) * option Z) :=
  if negb (len =? 0) then
    match user_len with
    | None => Return (- LTTNG_ERR_INVALID, user_buf, user_len)
    | Some _ =>
        let* buf := zmalloc len in
        match buf with
        | None => Return (- ENOMEM, user_buf, user_len)
        | Some b =>
            let* '(ret, bytes) := recv_data_sessiond len in
            let* _ := store b bytes in
            if ret <? 0 then
              let* _ := free (Some b) in
              Return (ret, user_buf, user_len)
            else
              match user_buf with
              | None =>
                  let* _ := free (Some b) in
                  Return (- LTTNG_ERR_INVALID, user_buf, user_len)
              | Some _ =>
                  (* Move ownership of command header buffer to user. *)
                  Return (ret, Some (Some b), Some len)
              end
        end
    end
  else
    (* No command header. *)
    Return (0,
            match user_buf with Some _ => Some None | None => None end,
            match user_len with Some _ => Some 0 | None => None end).

(** The three out-parameters of the fixed-header path. *)
Record ask_outputs := {
  user_payload_buf : option (option nat);
  user_cmd_header_buf : option (option nat);
  user_cmd_header_len : option Z;
}.

(** The label [end] of both request paths: disconnect, then return. *)
Definition end_ {A} (ret : Z) (out : A) : M (Z * A) :=
  let* _ := disconnect_sessiond in Return (ret, out).

(** Lines 542-611. *)
Definition lttng_ctl_ask_sessiond_fds_varlen (lsm : lttcomm_session_msg)
    (fds : option (list Z)) (nb_fd : Z)
    (vardata : option (list byte)) (vardata_len : Z)
    (out : ask_outputs) : M (Z * ask_outputs) :=
  let* ret := connect_sessiond in
  if ret <? 0 then end_ (- LTTNG_ERR_NO_SESSIOND) out else
  let* _ := set_connection ret true in
  let* ret := send_session_msg lsm in
  if ret <? 0 then end_ ret out else
  (* Send var len data *)
  let* ret := send_session_varlen vardata vardata_len in
  if ret <? 0 then end_ ret out else
  (* Send fds *)
  let* ret := send_session_fds fds nb_fd in
  if ret <? 0 then end_ ret out else
  (* Get header from data transmission *)
  let* '(ret, bytes) := recv_data_sessiond sizeof_lttcomm_lttng_msg in
  if ret <? 0 then end_ ret out else
  let llm := read_llm bytes in
  (* Check error code if OK *)
  if negb (ret_code llm =? LTTNG_OK) then
    end_ (to_int (to_uint32 (- ret_code llm))) out
  else
  (* Get command header from data transmission *)
  let* '(ret, hdr_buf, hdr_len) :=
    recv_sessiond_optional_data (cmd_header_size llm)
      (user_cmd_header_buf out) (user_cmd_header_len out) in
  let out := {| user_payload_buf := user_payload_buf out;
                user_cmd_header_buf := hdr_buf;
                user_cmd_header_len := hdr_len |} in
  if ret <? 0 then end_ ret out else
  (* Get payload from data transmission *)
  let* '(ret, payload_buf, _) :=
    recv_sessiond_optional_data (data_size llm)
      (user_payload_buf out) (Some 0) in
  let out := {| user_payload_buf := payload_buf;
                user_cmd_header_buf := user_cmd_header_buf out;
                user_cmd_header_len := user_cmd_header_len out |} in
  if ret <? 0 then end_ ret out else
  end_ (to_int (data_size llm)) out.

(** The two wrappers of [lttng-ctl-helper.h]: no descriptors and no
    command header, and then no variable data either. *)
Definition lttng_ctl_ask_sessiond_varlen_no_cmd_header
    (lsm : lttcomm_session_msg) (vardata : option (list byte))
    (vardata_len : Z) (buf : option (option nat))
  : M (Z * option (option nat)) :=
  let* '(ret, out) :=
    lttng_ctl_ask_sessiond_fds_varlen lsm None 0 vardata vardata_len
      {| user_payload_buf := buf;
         user_cmd_header_buf := None; user_cmd_header_len := None |} in
  Return (ret, user_payload_buf out).

Definition lttng_ctl_ask_sessiond (lsm : lttcomm_session_msg)
    (buf : option (option nat)) : M (Z * option (option nat)) :=
  lttng_ctl_ask_sessiond_varlen_no_cmd_header lsm None 0 buf.

(** ** The payload buffer *)

(** Modelled from the spec: [struct lttng_dynamic_buffer] and its
    operations ([common/dynamic-buffer.c] is not part of the file), "a
    growable byte buffer" whose "capacity may be pre-reserved to avoid
    reallocation".  [size] is the length of [data]; a change of capacity
    is a reallocation, which the world may refuse; growth reserves
    exactly the size asked for. *)
Record lttng_dynamic_buffer := {
  data : list byte;
  _capacity : Z;
}.

Definition buffer_size (b : lttng_dynamic_buffer) : Z :=
  Z.of_nat (length (data b)).

Definition lttng_dynamic_buffer_init : lttng_dynamic_buffer :=
  {| data := []; _capacity := 0 |}.

Definition lttng_dynamic_buffer_set_capacity (b : lttng_dynamic_buffer)
    (demanded : Z) : M (Z * lttng_dynamic_buffer) :=
  if demanded =? _capacity b then Return (0, b) else
  if demanded <? buffer_size b then Return (-1, b) else
  let* a := ask_world (fun a => EvAlloc demanded (negb (a_ret a =? 0))) in
  if a_ret a =? 0 then Return (-1, b) else
  Return (0, {| data := data b; _capacity := demanded |}).

Definition resize (l : list byte) (n : nat) : list byte :=
  take n l ++ replicate (n - length l) x00.

Definition lttng_dynamic_buffer_set_size (b : lttng_dynamic_buffer)
    (new_size : Z) : M (Z * lttng_dynamic_buffer) :=
  if new_size =? buffer_size b then Return (0, b) else
  if _capacity b <? new_size then
    let* '(ret, b) := lttng_dynamic_buffer_set_capacity b new_size in
    if negb (ret =? 0) then Return (ret, b) else
    Return (0, {| data := resize (data b) (Z.to_nat new_size);
                  _capacity := _capacity b |})
  else
    Return (0, {| data := resize (data b) (Z.to_nat new_size);
                  _capacity := _capacity b |}).

Definition lttng_dynamic_buffer_append (b : lttng_dynamic_buffer)
    (bytes : list byte) : M (Z * lttng_dynamic_buffer) :=
  match bytes with
  | [] => Return (0, b)
  | _ :: _ =>
      let old := data b in
      let* '(ret, b) :=
        lttng_dynamic_buffer_set_size b
          (buffer_size b + Z.of_nat (length bytes)) in
      if negb (ret =? 0) then Return (ret, b) else
      Return (0, {| data := old ++ bytes; _capacity := _capacity b |})
  end.

(** Modelled from the spec: [struct lttng_payload], "growable byte
    region plus co-owned descriptor handles" ([common/payload.c] is not
    part of the file). *)
Record lttng_payload := {
  buffer : lttng_dynamic_buffer;
  _fd_handles : list Z;
}.

Definition lttng_payload_init : lttng_payload :=
  {| buffer := lttng_dynamic_buffer_init; _fd_handles := [] |}.

(** A view of a payload: the bytes it covers and the descriptors. *)
Record lttng_payload_view := {
  pv_buffer : list byte;
  pv_fd_handles : list Z;
}.

(** Lines 234-250. *)
Definition recv_payload_sessiond (payload : lttng_payload) (len : Z)
  : M (Z * lttng_payload) :=
  let original_payload_size := buffer_size (buffer payload) in
  let* '(ret, b) :=
    lttng_dynamic_buffer_set_size (buffer payload)
      (buffer_size (buffer payload) + len) in
  let payload := {| buffer := b; _fd_handles := _fd_handles payload |} in
  if negb (ret =? 0) then Return (- LTTNG_ERR_NOMEM, payload) else
  let* '(ret, bytes) := recv_data_sessiond len in
  let n := Z.to_nat original_payload_size in
  let received := overlay (drop n (data b)) bytes in
  Return (ret, {| buffer := {| data := take n (data b) ++ received;
                               _capacity := _capacity b |};
                  _fd_handles := _fd_handles payload |}).

(** Lines 614-703. *)
Definition lttng_ctl_ask_sessiond_payload (message : lttng_payload_view)
    (reply : lttng_payload) : M (Z * lttng_payload) :=
  let fd_count_sent := Z.of_nat (length (pv_fd_handles message)) in
  if negb (buffer_size (buffer reply) =? 0) then fail AssertionFailed else
  if negb (Z.of_nat (length (_fd_handles reply)) =? 0)
  then fail AssertionFailed else
  let* ret := connect_sessiond in
  if ret <? 0 then end_ (- LTTNG_ERR_NO_SESSIOND) reply else
  let* _ := set_connection ret true in
  let* s := get in
  (* Send command to session daemon *)
  let* ret := lttcomm_send_creds_unix_sock (sessiond_socket s)
                (WBytes (pv_buffer message)) in
  if ret <? 0 then end_ (- LTTNG_ERR_FATAL) reply else
  let* ret :=
    if 0 <? fd_count_sent
    then lttcomm_send_fds_unix_sock (sessiond_socket s)
           (pv_fd_handles message)
    else Return ret in
  if ret <? 0 then end_ (- LTTNG_ERR_FATAL) reply else
  (* Get header from data transmission *)
  let* '(ret, reply) := recv_payload_sessiond reply sizeof_lttcomm_lttng_msg in
  if ret <? 0 then end_ ret reply else
  let llm := read_llm (take (Z.to_nat sizeof_lttcomm_lttng_msg)
                         (data (buffer reply))) in
  (* Check error code if OK *)
  if negb (ret_code llm =? LTTNG_OK) then
    end_ (to_int (to_uint32 (- ret_code llm))) reply
  else
  let* '(ret, reply) :=
    if 0 <? cmd_header_size llm
    then recv_payload_sessiond reply (cmd_header_size llm)
    else Return (ret, reply) in
  if ret <? 0 then end_ ret reply else
  let* '(ret, reply) :=
    if 0 <? data_size llm
    then recv_payload_sessiond reply (data_size llm)
    else Return (ret, reply) in
  if ret <? 0 then end_ ret reply else
  let* '(ret, reply) :=
    if 0 <? fd_count llm
    then
      let* '(ret, fds) := lttcomm_recv_fds (sessiond_socket s) (fd_count llm) in
      Return (ret, {| buffer := buffer reply;
                      _fd_handles := _fd_handles reply ++ fds |})
    else Return (ret, reply) in
  if ret <? 0 then end_ ret reply else
  (* Don't return the llm header to the caller. *)
  let moved := drop (Z.to_nat sizeof_lttcomm_lttng_msg) (data (buffer reply)) in
  let* '(ret, b) :=
    lttng_dynamic_buffer_set_size
      {| data := overlay (data (buffer reply)) moved;
         _capacity := _capacity (buffer reply) |}
      (buffer_size (buffer reply) - sizeof_lttcomm_lttng_msg) in
  if negb (ret =? 0) then fail Abort else
  let reply := {| buffer := b; _fd_handles := _fd_handles reply |} in
  end_ (to_int (buffer_size (buffer reply))) reply.

(** A request through either path, with what the caller supplies. *)
Inductive request :=
| FixedHeader (lsm : lttcomm_session_msg) (fds : option (list Z)) (nb_fd : Z)
    (vardata : option (list byte)) (vardata_len : Z) (out : ask_outputs)
| PayloadBased (message : lttng_payload_view) (reply : lttng_payload).

Definition run_request (r : request) : M (Z * (ask_outputs + lttng_payload)) :=
  match r with
  | FixedHeader lsm fds nb_fd vardata vardata_len out =>
      let* '(ret, out) :=
        lttng_ctl_ask_sessiond_fds_varlen lsm fds nb_fd vardata vardata_len
          out in
      Return (ret, inl out)
  | PayloadBased message reply =>
      let* '(ret, reply) := lttng_ctl_ask_sessiond_payload message reply in
      Return (ret, inr reply)
  end.

End Transport.

(* ================================================================== *)
(** * Observations on the log *)

(** The descriptor returned by the first successful connect. *)
Fixpoint opened (l : list event) : option Z :=
  match l with
  | [] => None
  | EvConnect fd :: l => if 0 <=? fd then Some fd else opened l
  | _ :: l => opened l
  end.

(** The reads from the socket. *)
Fixpoint reads (l : list event) : list event :=
  match l with
  | [] => []
  | EvRecv sock len ret bytes :: l => EvRecv sock len ret bytes :: reads l
  | EvRecvFds sock nb ret fds :: l => EvRecvFds sock nb ret fds :: reads l
  | _ :: l => reads l
  end.

(** The number of [usleep] calls. *)
Fixpoint sleeps (l : list event) : nat :=
  match l with
  | [] => 0%nat
  | EvSleep _ :: l => S (sleeps l)
  | _ :: l => sleeps l
  end.

(** The number of exchanges started: each starts by resolving the
    socket path. *)
Fixpoint exchanges (l : list event) : nat :=
  match l with
  | [] => 0%nat
  | EvResolvePath _ :: l => S (exchanges l)
  | _ :: l => exchanges l
  end.

(** The commands sent on the fixed-header path. *)
Fixpoint commands (l : list event) : list lttcomm_sessiond_command :=
  match l with
  | [] => []
  | EvSendCreds _ (WLsm lsm) _ :: l => cmd_type lsm :: commands l
  | _ :: l => commands l
  end.

(** The calls that reach outside of the process: everything but the
    allocator. *)
Fixpoint io_calls (l : list event) : list event :=
  match l with
  | [] => []
  | EvAlloc _ _ :: l => io_calls l
  | e :: l => e :: io_calls l
  end.

(* ================================================================== *)
(** * Public operations *)

Section Operations.
Context `{Externals}.

(** [lttng_ctl_copy_string(field, src, sizeof(field))] on a member of a
    record that [memset] has zeroed. *)
Definition copy_field (size : Z) (src : option (list byte)) : M (list byte) :=
  match lttng_ctl_copy_string (Some (replicate (Z.to_nat size) x00)) src size
  with
  | Some (Some d) => Return d
  | _ => fail Undefined
  end.

(** Lines 100-117. *)
Definition lttng_ctl_copy_lttng_domain (dst src : option lttng_domain)
  : option lttng_domain :=
  match src, dst with
  | Some s, Some _ =>
      match dom_type s with
      | LTTNG_DOMAIN_KERNEL | LTTNG_DOMAIN_UST | LTTNG_DOMAIN_JUL
      | LTTNG_DOMAIN_LOG4J | LTTNG_DOMAIN_PYTHON => Some s
      | _ => Some lttng_domain_zero
      end
  | _, _ => dst
  end.

(** The macro of lines 52-58; the temporary is always overwritten. *)
Definition COPY_DOMAIN_PACKED (src : lttng_domain) : lttng_domain :=
  match lttng_ctl_copy_lttng_domain (Some lttng_domain_zero) (Some src) with
  | Some d => d
  | None => lttng_domain_zero
  end.

(** The command record after [memset(&lsm, 0, sizeof(lsm))] and the
    assignment of [cmd_type]. *)
Definition lsm_init (cmd : lttcomm_sessiond_command) : lttcomm_session_msg :=
  {| cmd_type := cmd;
     session_name := replicate (Z.to_nat LTTNG_NAME_MAX) x00;
     domain := lttng_domain_zero;
     u := u_zero |}.

Definition with_session_name (lsm : lttcomm_session_msg) (name : list byte) :=
  {| cmd_type := cmd_type lsm; session_name := name;
     domain := domain lsm; u := u lsm |}.

Definition with_domain (lsm : lttcomm_session_msg) (d : lttng_domain) :=
  {| cmd_type := cmd_type lsm; session_name := session_name lsm;
     domain := d; u := u lsm |}.

Definition with_u (lsm : lttcomm_session_msg) (v : lsm_union) :=
  {| cmd_type := cmd_type lsm; session_name := session_name lsm;
     domain := domain lsm; u := v |}.

(** A zeroed [struct lttng_event]. *)
Definition lttng_event_zero : lttng_event :=
  {| ev_name := replicate (Z.to_nat LTTNG_SYMBOL_NAME_LEN) x00;
     ev_loglevel_type := LTTNG_EVENT_LOGLEVEL_ALL;
     ev_loglevel := 0;
     ev_other := [] |}.

(** The value of a pointer cell passed as an out-parameter. *)
Definition cell {A} (c : option (option A)) : option A :=
  match c with Some v => v | None => None end.

(** Lines 747-766. *)
Definition lttng_register_consumer (handle : option lttng_handle)
    (socket_path : option (list byte)) : M Z :=
  match handle, socket_path with
  | Some h, Some path =>
      let lsm := lsm_init LTTNG_REGISTER_CONSUMER in
      let* name := copy_field LTTNG_NAME_MAX (Some (h_session_name h)) in
      let lsm := with_session_name lsm name in
      let lsm := with_domain lsm (COPY_DOMAIN_PACKED (h_domain h)) in
      let* p := copy_field PATH_MAX (Some path) in
      let lsm := with_u lsm (u_reg p) in
      let* '(ret, _) := lttng_ctl_ask_sessiond lsm None in
      Return ret
  | _, _ => Return (- LTTNG_ERR_INVALID)
  end.

(** Lines 773-788. *)
Definition lttng_start_tracing (session_name : option (list byte)) : M Z :=
  match session_name with
  | None => Return (- LTTNG_ERR_INVALID)
  | Some _ =>
      let lsm := lsm_init LTTNG_START_TRACE in
      let* name := copy_field LTTNG_NAME_MAX session_name in
      let lsm := with_session_name lsm name in
      let* '(ret, _) := lttng_ctl_ask_sessiond lsm None in
      Return ret
  end.

(** Lines 2857-2890. *)
Definition lttng_data_pending (session_name : option (list byte)) : M Z :=
  match session_name with
  | None => Return (- LTTNG_ERR_INVALID)
  | Some _ =>
      let lsm := lsm_init LTTNG_DATA_PENDING in
      let* name := copy_field LTTNG_NAME_MAX session_name in
      let lsm := with_session_name lsm name in
      (* uint8_t *pending = NULL; *)
      let* '(ret, pending) := lttng_ctl_ask_sessiond lsm (Some None) in
      let pending := cell pending in
      if ret <? 0 then
        let* _ := free pending in Return ret
      else if negb (ret =? 1) then
        (* Unexpected payload size *)
        let* _ := free pending in Return (- LTTNG_ERR_INVALID)
      else
        match pending with
        | None => Return (- LTTNG_ERR_UNK)
        | Some b =>
            let* s := get in
            match heap s !! b with
            | Some (v :: _) =>
                let* _ := free pending in
                Return (Z.of_N (Byte.to_N v))
            | _ => fail Undefined
            end
        end
  end.

(** The [do ... while (data_ret != 0)] of lines 818-833; [fuel] bounds
    the number of iterations. *)
Fixpoint wait_data_pending (fuel : nat) (session_name : option (list byte))
    (ret : Z) : M Z :=
  match fuel with
  | O => fail OutOfFuel
  | S fuel =>
      let* data_ret := lttng_data_pending session_name in
      if data_ret <? 0 then
        (* Return the data available call error. *)
        Return data_ret
      else
        let* _ := if negb (data_ret =? 0)
                  then usleep DEFAULT_DATA_AVAILABILITY_WAIT_TIME_US
                  else Return tt in
        if negb (data_ret =? 0)
        then wait_data_pending fuel session_name ret
        else Return ret
  end.

(** Lines 793-838. *)
Definition _lttng_stop_tracing (fuel : nat) (session_name : option (list byte))
    (wait : Z) : M Z :=
  match session_name with
  | None => Return (- LTTNG_ERR_INVALID)
  | Some _ =>
      let lsm := lsm_init LTTNG_STOP_TRACE in
      let* name := copy_field LTTNG_NAME_MAX session_name in
      let lsm := with_session_name lsm name in
      let* '(ret, _) := lttng_ctl_ask_sessiond lsm None in
      if (ret <? 0) && negb (ret =? - LTTNG_ERR_TRACE_ALREADY_STOPPED)
      then Return ret
      else if wait =? 0 then Return ret
      else
        (* Check for data availability *)
        wait_data_pending fuel session_name ret
  end.

(** Lines 843-846. *)
Definition lttng_stop_tracing (fuel : nat) (session_name : option (list byte))
  : M Z := _lttng_stop_tracing fuel session_name 1.

(** Lines 851-854. *)
Definition lttng_stop_tracing_no_wait (fuel : nat)
    (session_name : option (list byte)) : M Z :=
  _lttng_stop_tracing fuel session_name 0.

(** Lines 864-945. *)
Definition lttng_add_context (handle : option lttng_handle)
    (c : option lttng_event_context) (event_name : option (list byte))
    (channel_name : option (list byte)) : M Z :=
  (* Safety check. Both are mandatory. *)
  match handle, c with
  | Some h, Some c =>
      let lsm := lsm_init LTTNG_ADD_CONTEXT in
      (* If no channel name, send empty string. *)
      let* chan :=
        copy_field LTTNG_SYMBOL_NAME_LEN
          (match channel_name with None => Some [] | Some n => Some n end) in
      let lsm := with_domain lsm (COPY_DOMAIN_PACKED (h_domain h)) in
      let* name := copy_field LTTNG_NAME_MAX (Some (h_session_name h)) in
      let lsm := with_session_name lsm name in
      match ctx c with
      | LTTNG_EVENT_CONTEXT_APP_CONTEXT =>
          match ctx_u c with
          | app_ctx (Some provider_name) (Some ctx_name) =>
              let provider_len := strlen provider_name in
              if provider_len =? 0 then Return (- LTTNG_ERR_INVALID) else
              let ctx_len := strlen ctx_name in
              if ctx_len =? 0 then Return (- LTTNG_ERR_INVALID) else
              let len := provider_len + ctx_len in
              let* buf := zmalloc len in
              match buf with
              | None => Return (- LTTNG_ERR_NOMEM)
              | Some b =>
                  let bytes := c_str provider_name ++ c_str ctx_name in
                  let* _ := store b bytes in
                  (* Don't leak application addresses to the sessiond. *)
                  let sent := {| ctx := ctx c; ctx_u := app_ctx None None |} in
                  let lsm := with_u lsm (u_context chan sent provider_len ctx_len) in
                  let* '(ret, _) :=
                    lttng_ctl_ask_sessiond_varlen_no_cmd_header lsm
                      (Some bytes) len None in
                  let* _ := free (Some b) in
                  Return ret
              end
          | app_ctx _ _ => Return (- LTTNG_ERR_INVALID)
          | ctx_raw _ => fail Undefined
          end
      | LTTNG_EVENT_CONTEXT_other _ =>
          let lsm := with_u lsm (u_context chan c 0 0) in
          let* '(ret, _) :=
            lttng_ctl_ask_sessiond_varlen_no_cmd_header lsm None 0 None in
          Return ret
      end
  | _, _ => Return (- LTTNG_ERR_INVALID)
  end.

(** [asprintf]: the formatted string, or a failure of the allocation. *)
Definition asprintf (formatted : list byte) : M (option (list byte)) :=
  let* a := ask_world (fun a =>
              EvAlloc (Z.of_nat (length formatted) + 1) (negb (a_ret a =? 0))) in
  if a_ret a =? 0 then Return None else Return (Some formatted).

Definition str (s : string) : list byte := list_byte_of_string s.

(** [printf]'s [%d]. *)
Definition decimal (z : Z) : list byte :=
  str (NilEmpty.string_of_int (Z.to_int z)).

(** Lines 982-1037.  A failed [asprintf] leads to [error], which
    returns [NULL]. *)
Definition set_agent_filter (filter : option (list byte)) (ev : lttng_event)
  : M (option (list byte)) :=
  let name := c_str (ev_name ev) in
  let is_star := match name with
                 | [b] => Byte.eqb b "*"%byte
                 | _ => false
                 end in
  (* Don't add filter for the '*' event. *)
  let* '(err, agent_filter) :=
    if negb is_star then
      let* r := asprintf
                  match filter with
                  | Some f => str "(" ++ c_str f ++ str ") && (logger_name == "
                              ++ [x22] ++ name ++ [x22] ++ str ")"
                  | None => str "logger_name == " ++ [x22] ++ name ++ [x22]
                  end in
      Return (match r with Some _ => 0 | None => -1 end, r)
    else Return (0, None) in
  if err <? 0 then Return None else
  (* Add loglevel filtering if any for the JUL domain. *)
  match ev_loglevel_type ev with
  | LTTNG_EVENT_LOGLEVEL_ALL => Return agent_filter
  | t =>
      let op := match t with
                | LTTNG_EVENT_LOGLEVEL_RANGE => str ">="
                | _ => str "=="
                end in
      let tail := str "int_loglevel " ++ op ++ str " "
                  ++ decimal (ev_loglevel ev) in
      match agent_filter, filter with
      | Some f, _ => asprintf (str "(" ++ f ++ str ") && (" ++ tail ++ str ")")
      | None, Some f =>
          asprintf (str "(" ++ c_str f ++ str ") && (" ++ tail ++ str ")")
      | None, None => asprintf tail
      end
  end.

Definition is_agent_domain (t : lttng_domain_type) : bool :=
  match t with
  | LTTNG_DOMAIN_JUL | LTTNG_DOMAIN_LOG4J | LTTNG_DOMAIN_PYTHON => true
  | _ => false
  end.

(** Lines 1277-1435.  [lsm.u.enable] and [lsm.u.disable] start with the
    same members, so the lengths written through the former are those
    read through the latter. *)
Definition lttng_disable_event_ext (handle : option lttng_handle)
    (ev : option lttng_event) (channel_name : option (list byte))
    (original_filter_expression : option (list byte)) : M Z :=
  match handle, ev with
  | Some h, Some ev =>
      let empty_filter :=
        match original_filter_expression with
        | Some f => match c_str f with [] => true | _ => false end
        | None => false
        end in
      if empty_filter then Return (- LTTNG_ERR_INVALID) else
      let lsm := lsm_init LTTNG_DISABLE_EVENT in
      (* If no channel name, send empty string. *)
      let* chan :=
        copy_field LTTNG_SYMBOL_NAME_LEN
          (match channel_name with None => Some [] | Some n => Some n end) in
      let lsm := with_domain lsm (COPY_DOMAIN_PACKED (h_domain h)) in
      (* memcpy(&lsm.u.disable.event, ev, sizeof(lsm.u.disable.event)); *)
      let lsm := with_u lsm (u_disable chan ev 0 0) in
      let* name := copy_field LTTNG_NAME_MAX (Some (h_session_name h)) in
      let lsm := with_session_name lsm name in
      let agent := is_agent_domain (dom_type (h_domain h)) in
      let ask_sessiond :=
        let* '(ret, _) := lttng_ctl_ask_sessiond lsm None in Return ret in
      match original_filter_expression, agent with
      | None, false => ask_sessiond
      | _, _ =>
          (* Setup JUL filter if needed. *)
          let* agent_filter :=
            if agent then set_agent_filter original_filter_expression ev
            else Return None in
          match agent_filter, original_filter_expression with
          | None, None => ask_sessiond
          | _, _ =>
              let filter_expression :=
                match agent_filter, original_filter_expression with
                | Some f, _ => f
                | None, Some f => f
                | None, None => []
                end in
              let '(ret, bytecode) :=
                filter_parser_ctx_create_from_filter_expression
                  filter_expression in
              if negb (ret =? 0) then Return ret else
              let bytecode_len := Z.of_nat (length bytecode) in
              let expression_len := strlen filter_expression + 1 in
              let lsm := with_u lsm (u_disable chan ev bytecode_len
                                       expression_len) in
              let* varlen_data := zmalloc (bytecode_len + expression_len) in
              match varlen_data with
              | None => Return (- LTTNG_ERR_EXCLUSION_NOMEM)
              | Some b =>
                  let bytes := c_str filter_expression ++ [x00] ++ bytecode in
                  let* _ := store b bytes in
                  let* '(ret, _) :=
                    lttng_ctl_ask_sessiond_varlen_no_cmd_header lsm
                      (Some bytes) (bytecode_len + expression_len) None in
                  let* _ := free (Some b) in
                  Return ret
              end
          end
      end
  | _, _ => Return (- LTTNG_ERR_INVALID)
  end.

(** Lines 1583-1605. *)
Definition lttng_disable_channel (handle : option lttng_handle)
    (name : option (list byte)) : M Z :=
  (* Safety check. Both are mandatory. *)
  match handle, name with
  | Some h, Some _ =>
      let lsm := lsm_init LTTNG_DISABLE_CHANNEL in
      let* chan := copy_field LTTNG_SYMBOL_NAME_LEN name in
      let lsm := with_u lsm (u_disable chan lttng_event_zero 0 0) in
      let lsm := with_domain lsm (COPY_DOMAIN_PACKED (h_domain h)) in
      let* sname := copy_field LTTNG_NAME_MAX (Some (h_session_name h)) in
      let lsm := with_session_name lsm sname in
      let* '(ret, _) := lttng_ctl_ask_sessiond lsm None in
      Return ret
  | _, _ => Return (- LTTNG_ERR_INVALID)
  end.

(** Lines 1613-1633. *)
Definition lttng_list_tracepoints (handle : option lttng_handle)
    (events : option (option nat)) : M (Z * option (option nat)) :=
  match handle with
  | None => Return (- LTTNG_ERR_INVALID, events)
  | Some h =>
      let lsm := lsm_init LTTNG_LIST_TRACEPOINTS in
      let lsm := with_domain lsm (COPY_DOMAIN_PACKED (h_domain h)) in
      let* '(ret, events) := lttng_ctl_ask_sessiond lsm events in
      if ret <? 0 then Return (ret, events) else
      Return (to_int (ret / sizeof_lttng_event), events)
  end.

(** Lines 1670-1690. *)
Definition lttng_list_syscalls (events : option (option nat))
  : M (Z * option (option nat)) :=
  match events with
  | None => Return (- LTTNG_ERR_INVALID, events)
  | Some _ =>
      let lsm := lsm_init LTTNG_LIST_SYSCALLS in
      (* Force kernel domain for system calls. *)
      let lsm := with_domain lsm {| dom_type := LTTNG_DOMAIN_KERNEL;
                                    dom_attr := None |} in
      let* '(ret, events) := lttng_ctl_ask_sessiond lsm events in
      if ret <? 0 then Return (ret, events) else
      Return (to_int (ret / sizeof_lttng_event), events)
  end.

(** Lines 2079-2097. *)
Definition lttng_set_session_shm_path (session_name shm_path : option (list byte))
  : M Z :=
  match session_name with
  | None => Return (- LTTNG_ERR_INVALID)
  | Some _ =>
      let lsm := lsm_init LTTNG_SET_SESSION_SHM_PATH in
      let* name := copy_field LTTNG_NAME_MAX session_name in
      let lsm := with_session_name lsm name in
      let* path := copy_field PATH_MAX shm_path in
      let lsm := with_u lsm (u_set_shm_path path) in
      let* '(ret, _) := lttng_ctl_ask_sessiond lsm None in
      Return ret
  end.

(** Lines 2896-2920. *)
Definition lttng_regenerate_metadata (session_name : option (list byte)) : M Z :=
  match session_name with
  | None => Return (- LTTNG_ERR_INVALID)
  | Some _ =>
      let lsm := lsm_init LTTNG_REGENERATE_METADATA in
      let* name := copy_field LTTNG_NAME_MAX session_name in
      let lsm := with_session_name lsm name in
      let* '(ret, _) := lttng_ctl_ask_sessiond lsm None in
      if ret <? 0 then Return ret else Return 0
  end.

(** Lines 2934-2958. *)
Definition lttng_regenerate_statedump (session_name : option (list byte)) : M Z :=
  match session_name with
  | None => Return (- LTTNG_ERR_INVALID)
  | Some _ =>
      let lsm := lsm_init LTTNG_REGENERATE_STATEDUMP in
      let* name := copy_field LTTNG_NAME_MAX session_name in
      let lsm := with_session_name lsm name in
      let* '(ret, _) := lttng_ctl_ask_sessiond lsm None in
      if ret <? 0 then Return ret else Return 0
  end.

(* ================================================================== *)
(** * Listing operations *)

(** Lines 2011-2055.  The loop of lines 2043-2049 stores, in every
    record, the address of its extended record inside the same block;
    these stores do not move or release the block and are left out.
    Dereferencing a [NULL] [out_sessions] is undefined. *)
Definition lttng_list_sessions (out_sessions : option (option nat))
  : M (Z * option (option nat)) :=
  let session_size := sizeof_lttng_session + sizeof_lttng_session_extended in
  (* struct lttng_session *sessions = NULL; *)
  let lsm := lsm_init LTTNG_LIST_SESSIONS in
  let* '(ret, sessions) := lttng_ctl_ask_sessiond lsm (Some None) in
  let sessions := cell sessions in
  if ret <=? 0 then Return (ret, out_sessions) else
  match sessions with
  | None => Return (- LTTNG_ERR_FATAL, out_sessions)
  | Some _ =>
      if negb (ret mod session_size =? 0) then
        let* _ := free sessions in
        match out_sessions with
        | None => fail Undefined
        | Some _ => Return (- LTTNG_ERR_UNK, Some None)
        end
      else
        let session_count := ret / session_size in
        match out_sessions with
        | None => fail Undefined
        | Some _ => Return (to_int session_count, Some sessions)
        end
  end.

(** Lines 2105-2127. *)
Definition lttng_list_domains (session_name : option (list byte))
    (domains : option (option nat)) : M (Z * option (option nat)) :=
  match session_name with
  | None => Return (- LTTNG_ERR_INVALID, domains)
  | Some _ =>
      let lsm := lsm_init LTTNG_LIST_DOMAINS in
      let* name := copy_field LTTNG_NAME_MAX session_name in
      let lsm := with_session_name lsm name in
      let* '(ret, domains) := lttng_ctl_ask_sessiond lsm domains in
      if ret <? 0 then Return (ret, domains) else
      Return (to_int (ret / sizeof_lttng_domain), domains)
  end.

(** Lines 2135-2183; the loop of lines 2173-2178 is left out as in
    [lttng_list_sessions].  Reading [*channels] through a [NULL]
    [channels] is undefined. *)
Definition lttng_list_channels (handle : option lttng_handle)
    (channels : option (option nat)) : M (Z * option (option nat)) :=
  let channel_size := sizeof_lttng_channel + sizeof_lttng_channel_extended in
  match handle with
  | None => Return (- LTTNG_ERR_INVALID, channels)
  | Some h =>
      let lsm := lsm_init LTTNG_LIST_CHANNELS in
      let* name := copy_field LTTNG_NAME_MAX (Some (h_session_name h)) in
      let lsm := with_session_name lsm name in
      let lsm := with_domain lsm (COPY_DOMAIN_PACKED (h_domain h)) in
      let* '(ret, channels) := lttng_ctl_ask_sessiond lsm channels in
      if ret <? 0 then Return (ret, channels) else
      match channels with
      | None => fail Undefined
      | Some p =>
          if negb (ret mod channel_size =? 0) then
            let* _ := free p in
            Return (- LTTNG_ERR_UNK, Some None)
          else
            let channel_count := ret / channel_size in
            Return (to_int channel_count, channels)
      end
  end.

End Operations.

(* ================================================================== *)
(** * The flattening of [lttng_list_events] *)

(** The outcome of a pass over the records: a value, [goto end] with a
    result code, or undefined behaviour. *)
Inductive walk (A : Type) :=
| Walked (a : A)
| Failed (ret : Z)
| Wild.
Arguments Walked {A} a.
Arguments Failed {A} ret.
Arguments Wild {A}.

Section Flattening.
Context `{Externals}.

(** Modelled from the spec: buffer views ([common/buffer-view.c] and
    [common/payload-view.c] are not part of the file), "views into the
    received buffer ... without copying".  [bv_data] is the offset of the
    first byte of the view inside the backing buffer, [None] the [NULL]
    of an invalid view.  A view is created only when its offset and
    length fit its source, and is valid when it is not empty. *)
Record lttng_buffer_view := {
  bv_data : option Z;
  bv_size : Z;
}.

Definition invalid_view : lttng_buffer_view :=
  {| bv_data := None; bv_size := 0 |}.

Definition lttng_buffer_view_from_view (src : lttng_buffer_view)
    (offset len : Z) : lttng_buffer_view :=
  match bv_data src with
  | None => invalid_view
  | Some base =>
      if (bv_size src <? offset)
         || (negb (len =? -1) && (bv_size src - offset <? len))
      then invalid_view
      else {| bv_data := Some (base + offset);
              bv_size := if len =? -1 then bv_size src - offset else len |}
  end.

(** The buffer of a dynamic buffer that was never allocated is [NULL]. *)
Definition lttng_buffer_view_from_dynamic_buffer (src : lttng_dynamic_buffer)
    (offset len : Z) : lttng_buffer_view :=
  lttng_buffer_view_from_view
    {| bv_data := if _capacity src =? 0 then None else Some 0;
       bv_size := buffer_size src |} offset len.

Definition lttng_buffer_view_is_valid (v : lttng_buffer_view) : bool :=
  match bv_data v with
  | Some _ => 0 <? bv_size v
  | None => false
  end.

(** The bytes of [buf] from [off], [len] of them; [None] when they are
    not all inside [buf]. *)
Definition slice (buf : list byte) (off len : Z) : option (list byte) :=
  if (0 <=? off) && (0 <=? len) && (off + len <=? Z.of_nat (length buf))
  then Some (take (Z.to_nat len) (drop (Z.to_nat off) buf))
  else None.

(** [struct lttcomm_event_extended_header] read through [comm_ext_at],
    with its 32-bit unsigned members; a read through [NULL] or outside
    of the payload is undefined. *)
Record lttcomm_event_extended_header := {
  filter_len : Z;
  nb_exclusions : Z;
  userspace_probe_location_len : Z;
}.

Definition read_ext_comm (buf : list byte) (comm_ext_at : option Z)
  : option lttcomm_event_extended_header :=
  match comm_ext_at with
  | None => None
  | Some off =>
      match slice buf off sizeof_lttcomm_event_extended_header with
      | None => None
      | Some bytes =>
          Some {| filter_len := to_uint32 (decode_filter_len bytes);
                  nb_exclusions := to_uint32 (decode_nb_exclusions bytes);
                  userspace_probe_location_len :=
                    to_uint32 (decode_userspace_probe_location_len bytes) |}
      end
  end.

(** [ext_comm->nb_exclusions * LTTNG_SYMBOL_NAME_LEN], a product of
    32-bit unsigned operands. *)
Definition exclusions_len (ext_comm : lttcomm_event_extended_header) : Z :=
  to_uint32 (nb_exclusions ext_comm * LTTNG_SYMBOL_NAME_LEN).

Definition advance (p : option Z) (n : Z) : option Z :=
  match p with Some off => Some (off + n) | None => None end.

(** Modelled from the spec: the nested object is "synthesized
    transiently just to ask it how large its flattened form would be"
    in the first pass, and "serializes its flattened form directly into
    the buffer" in the second ([lttng/userspace-probe.c] is not part of
    the file).  Both go through [userspace_probe_location_flat] on the
    bytes of the view; [None] is a failure of
    [lttng_userspace_probe_location_create_from_payload] or of
    [lttng_userspace_probe_location_flatten]. *)
Definition probe_location_view (whole : lttng_buffer_view) (buf : list byte)
    (comm_ext_at : option Z) (len : Z) : option (list byte) :=
  match comm_ext_at, bv_data whole with
  | Some off, Some base =>
      let v := lttng_buffer_view_from_view whole (off - base) len in
      if lttng_buffer_view_is_valid v
      then match bv_data v with
           | Some start => slice buf start (bv_size v)
           | None => None
           end
      else None
  | _, _ => None
  end.

(** The first pass, lines 2293-2351: [n] records remain, [comm_ext_at]
    is the cursor and [storage_req] the size accumulated so far. *)
Fixpoint measure_pass (whole : lttng_buffer_view) (buf : list byte) (n : nat)
    (comm_ext_at : option Z) (storage_req : Z) : walk Z :=
  match n with
  | O => Walked storage_req
  | S n =>
      match read_ext_comm buf comm_ext_at with
      | None => Wild
      | Some ext_comm =>
          let comm_ext_at :=
            advance comm_ext_at sizeof_lttcomm_event_extended_header in
          let comm_ext_at := advance comm_ext_at (filter_len ext_comm) in
          let comm_ext_at := advance comm_ext_at (exclusions_len ext_comm) in
          let next probe_storage_req comm_ext_at :=
            let storage_req := storage_req + sizeof_lttng_event_extended in
            let storage_req := storage_req + filter_len ext_comm in
            let storage_req := storage_req + exclusions_len ext_comm in
            (* Padding to ensure the flat probe is aligned. *)
            let storage_req := ALIGN_TO storage_req 8 in
            let storage_req := storage_req + probe_storage_req in
            measure_pass whole buf n comm_ext_at storage_req in
          if negb (userspace_probe_location_len ext_comm =? 0) then
            match probe_location_view whole buf comm_ext_at
                    (userspace_probe_location_len ext_comm) with
            | None => Failed (- LTTNG_ERR_PROBE_LOCATION_INVAL)
            | Some bytes =>
                match userspace_probe_location_flat bytes with
                | None => Failed (- LTTNG_ERR_PROBE_LOCATION_INVAL)
                | Some flat =>
                    next (Z.of_nat (length flat))
                      (advance comm_ext_at
                         (userspace_probe_location_len ext_comm))
                end
            end
          else next 0 comm_ext_at
      end
  end.

(** The references stored in one flattened record and in its extended
    block, as offsets into the listing: [extended.ptr],
    [filter_expression], [exclusions.count] with [exclusions.strings],
    and [probe_location]. *)
Record event_refs := {
  r_extended : Z;
  r_filter_expression : option Z;
  r_exclusions : option (Z * Z);
  r_probe_location : option Z;
}.

(** A step that either goes on with a value or leaves for the label
    [free_dynamic_buffer] with a result code. *)
Definition E (A : Type) : Type := M (Z + A).
Definition ok {A} (a : A) : E A := Return (inr a).
Definition throw {A} (ret : Z) : E A := Return (inl ret).
Definition bindE {A B} (m : E A) (k : A -> E B) : E B :=
  let* r := m in
  match r with
  | inl ret => throw ret
  | inr a => k a
  end.

Notation "'let+' x ':=' m 'in' k" := (bindE m (fun x => k))
  (at level 10, x name, m at level 100, k at level 200).
Notation "'let+' ' pat ':=' m 'in' k" :=
  (bindE m (fun x => match x with pat => k end))
  (at level 10, pat pattern, m at level 100, k at level 200).

(** [ret = op(&listing, ...); if (ret) { ret = -LTTNG_ERR_NOMEM; goto
    free_dynamic_buffer; }] *)
Definition or_nomem (m : M (Z * lttng_dynamic_buffer)) : E lttng_dynamic_buffer :=
  let* '(ret, b) := m in
  if negb (ret =? 0) then throw (- LTTNG_ERR_NOMEM) else ok b.

(** The [len] bytes that an append copies from the cursor; nothing is
    read when [len] is 0. *)
Definition read_bytes (buf : list byte) (p : option Z) (len : Z)
  : E (list byte) :=
  if len =? 0 then ok [] else
  match p with
  | None => fail Undefined
  | Some off =>
      match slice buf off len with
      | Some bytes => ok bytes
      | None => fail Undefined
      end
  end.

(** The second pass, lines 2384-2484. *)
Fixpoint flatten_pass (whole : lttng_buffer_view) (buf : list byte) (n : nat)
    (comm_ext_at : option Z) (listing : lttng_dynamic_buffer)
    (refs : list event_refs) : E (lttng_dynamic_buffer * list event_refs) :=
  match n with
  | O => ok (listing, refs)
  | S n =>
      match read_ext_comm buf comm_ext_at with
      | None => fail Undefined
      | Some ext_comm =>
          let event_extended := buffer_size listing in
          (* Insert struct lttng_event_extended. *)
          let+ listing :=
            or_nomem (lttng_dynamic_buffer_set_size listing
                        (buffer_size listing + sizeof_lttng_event_extended)) in
          let comm_ext_at :=
            advance comm_ext_at sizeof_lttcomm_event_extended_header in
          (* Insert filter expression. *)
          let+ '(filter_expression, listing, comm_ext_at) :=
            if negb (filter_len ext_comm =? 0) then
              let at_ := buffer_size listing in
              let+ bytes := read_bytes buf comm_ext_at (filter_len ext_comm) in
              let+ listing := or_nomem (lttng_dynamic_buffer_append listing bytes) in
              ok (Some at_, listing, advance comm_ext_at (filter_len ext_comm))
            else ok (None, listing, comm_ext_at) in
          (* Insert exclusions. *)
          let+ '(exclusions, listing, comm_ext_at) :=
            if negb (nb_exclusions ext_comm =? 0) then
              let at_ := buffer_size listing in
              let+ bytes := read_bytes buf comm_ext_at (exclusions_len ext_comm) in
              let+ listing := or_nomem (lttng_dynamic_buffer_append listing bytes) in
              ok (Some (nb_exclusions ext_comm, at_), listing,
                  advance comm_ext_at (exclusions_len ext_comm))
            else ok (None, listing, comm_ext_at) in
          (* Insert padding to align to 64-bits. *)
          let+ listing :=
            or_nomem (lttng_dynamic_buffer_set_size listing
                        (ALIGN_TO (buffer_size listing) 8)) in
          (* Insert flattened userspace probe location. *)
          let+ '(probe_location, listing, comm_ext_at) :=
            if negb (userspace_probe_location_len ext_comm =? 0) then
              match probe_location_view whole buf comm_ext_at
                      (userspace_probe_location_len ext_comm) with
              | None => throw (- LTTNG_ERR_PROBE_LOCATION_INVAL)
              | Some bytes =>
                  match userspace_probe_location_flat bytes with
                  | None => throw (- LTTNG_ERR_PROBE_LOCATION_INVAL)
                  | Some flat =>
                      let at_ := buffer_size listing in
                      let* '(ret, listing) :=
                        lttng_dynamic_buffer_append listing flat in
                      if negb (ret =? 0)
                      then throw (- LTTNG_ERR_PROBE_LOCATION_INVAL)
                      else ok (Some at_, listing,
                               advance comm_ext_at
                                 (userspace_probe_location_len ext_comm))
                  end
              end
            else ok (None, listing, comm_ext_at) in
          flatten_pass whole buf n comm_ext_at listing
            (refs ++ [{| r_extended := event_extended;
                         r_filter_expression := filter_expression;
                         r_exclusions := exclusions;
                         r_probe_location := probe_location |}])
      end
  end.

(** Modelled from the spec: [lttng_payload_copy] duplicates the bytes
    and the descriptor handles into an empty payload, and
    [lttng_payload_reset] releases a payload ([common/payload.c] is not
    part of the file).  An automatic variable that was never
    initialized is [None]; releasing it is undefined. *)
Definition lttng_payload_copy (src dst : lttng_payload)
  : M (Z * lttng_payload) :=
  let* '(ret, b) := lttng_dynamic_buffer_append (buffer dst) (data (buffer src)) in
  if negb (ret =? 0) then Return (ret, dst) else
  Return (0, {| buffer := b; _fd_handles := _fd_handles src |}).

Definition lttng_payload_reset (payload : option lttng_payload) : M unit :=
  match payload with
  | Some _ => Return tt
  | None => fail Undefined
  end.

(** What [*events] points to on success: the listing, whose backing
    block is never allocated ([NULL]) when its capacity is 0, and the
    references stored in it. *)
Record flat_events := {
  fe_listing : lttng_dynamic_buffer;
  fe_refs : list event_refs;
}.

(** Line 2254: the number of records that the command header
    announces, a 32-bit unsigned member. *)
Definition header_nb_events (payload : lttng_payload) : Z :=
  to_uint32
    (decode_nb_events
       (take (Z.to_nat sizeof_lttcomm_event_command_header)
          (data (buffer payload)))).

(** Lines 2259-2351: the first pass, over the payload received. *)
Definition measure_events (payload : lttng_payload) : walk Z :=
  let nb_events := header_nb_events payload in
  let cmd_payload_view :=
    lttng_buffer_view_from_dynamic_buffer (buffer payload)
      sizeof_lttcomm_event_command_header (-1) in
  let ext_view :=
    lttng_buffer_view_from_view cmd_payload_view
      (nb_events * sizeof_lttng_event) (-1) in
  let comm_ext_at := bv_data ext_view in
  let storage_req := nb_events * sizeof_lttng_event in
  let payload_view :=
    lttng_buffer_view_from_dynamic_buffer (buffer payload) 0 (-1) in
  measure_pass payload_view (data (buffer payload))
    (Z.to_nat nb_events) comm_ext_at storage_req.

(** Lines 2244-2490: from the command header to the label
    [free_dynamic_buffer]. *)
Definition flatten_events (payload payload_copy : lttng_payload)
  : E (Z * flat_events) :=
  let cmd_header_view :=
    lttng_buffer_view_from_dynamic_buffer (buffer payload) 0
      sizeof_lttcomm_event_command_header in
  if negb (lttng_buffer_view_is_valid cmd_header_view)
  then throw (- LTTNG_ERR_INVALID_PROTOCOL) else
  (* Set number of events and free command header *)
  let nb_events := header_nb_events payload in
  if INT_MAX <? nb_events then throw (- LTTNG_ERR_OVERFLOW) else
  match measure_events payload with
  | Wild => fail Undefined
  | Failed ret => throw ret
  | Walked storage_req =>
      let listing := lttng_dynamic_buffer_init in
      (* We must ensure that "listing" is never resized so as to
         preserve the validity of the flattened objects. *)
      let+ listing :=
        or_nomem (lttng_dynamic_buffer_set_capacity listing storage_req) in
      let cmd_payload_view :=
        lttng_buffer_view_from_dynamic_buffer (buffer payload_copy)
          sizeof_lttcomm_event_command_header (-1) in
      let flat_events_view :=
        lttng_buffer_view_from_view cmd_payload_view 0
          (nb_events * sizeof_lttng_event) in
      let+ records :=
        match bv_data flat_events_view with
        | None => ok []
        | Some off =>
            read_bytes (data (buffer payload_copy)) (Some off)
              (bv_size flat_events_view)
        end in
      let+ listing := or_nomem (lttng_dynamic_buffer_append listing records) in
      let ext_view :=
        lttng_buffer_view_from_view cmd_payload_view
          (nb_events * sizeof_lttng_event) (-1) in
      let comm_ext_at := bv_data ext_view in
      let payload_copy_view :=
        lttng_buffer_view_from_dynamic_buffer (buffer payload_copy) 0 (-1) in
      let+ '(listing, refs) :=
        flatten_pass payload_copy_view (data (buffer payload_copy))
          (Z.to_nat nb_events) comm_ext_at listing [] in
      (* Don't reset listing buffer as we return its content. *)
      ok (to_int nb_events, {| fe_listing := listing; fe_refs := refs |})
  end.

(** Lines 2191-2497.  The two payloads are declared at lines 2201-2202
    and initialized at lines 2217-2218, after the safety check whose
    [goto end] reaches the two [lttng_payload_reset] of lines
    2494-2495. *)
Definition lttng_list_events (handle : option lttng_handle)
    (channel_name : option (list byte))
    (events : option (option flat_events))
  : M (Z * option (option flat_events)) :=
  let end_label (payload payload_copy : option lttng_payload) (ret : Z)
      (events : option (option flat_events)) :=
    let* _ := lttng_payload_reset payload in
    let* _ := lttng_payload_reset payload_copy in
    Return (ret, events) in
  (* Safety check. An handle and channel name are mandatory *)
  match handle, channel_name with
  | Some h, Some _ =>
      let payload := lttng_payload_init in
      let payload_copy := lttng_payload_init in
      let lsm := lsm_init LTTNG_LIST_EVENTS in
      let* name := copy_field LTTNG_NAME_MAX (Some (h_session_name h)) in
      let lsm := with_session_name lsm name in
      let* chan := copy_field LTTNG_SYMBOL_NAME_LEN channel_name in
      let lsm := with_u lsm (u_list chan) in
      let lsm := with_domain lsm (COPY_DOMAIN_PACKED (h_domain h)) in
      let lsm_view := {| pv_buffer := encode_lttcomm_session_msg lsm;
                         pv_fd_handles := [] |} in
      let* '(ret, payload) := lttng_ctl_ask_sessiond_payload lsm_view payload in
      if ret <? 0 then end_label (Some payload) (Some payload_copy) ret events
      else
      (* A copy of the payload is performed since it will be consumed
         twice. *)
      let* '(ret, payload_copy) := lttng_payload_copy payload payload_copy in
      if negb (ret =? 0) then
        end_label (Some payload) (Some payload_copy) (- LTTNG_ERR_NOMEM) events
      else
      let* r := flatten_events payload payload_copy in
      match r with
      | inl ret => end_label (Some payload) (Some payload_copy) ret events
      | inr (ret, flat) =>
          match events with
          | None => fail Undefined
          | Some _ =>
              end_label (Some payload) (Some payload_copy) ret
                (Some (Some flat))
          end
      end
  | _, _ => end_label None None (- LTTNG_ERR_INVALID) events
  end.

End Flattening.

(* ================================================================== *)
(** * Running the model *)

(** The library starts unconnected (the initializers of lines 61 and
    66) with an empty heap and an empty log. *)
Definition initial_state (w : nat -> answer) : state :=
  {| sessiond_socket := -1; connected := false; heap := ∅;
     next_block := 0; trace := []; clock := 0; world := w |}.

Definition ans (ret : Z) : answer :=
  {| a_ret := ret; a_bytes := []; a_fds := [] |}.

Definition ans_bytes (ret : Z) (bytes : list byte) : answer :=
  {| a_ret := ret; a_bytes := bytes; a_fds := [] |}.

(** A world that answers from a script and refuses every later call. *)
Definition scripted (script : list answer) : nat -> answer :=
  fun t => default (ans (-1)) (script !! t).

Definition byte_of_Z (z : Z) : byte :=
  default x00 (Byte.of_N (Z.to_N (z mod 256))).

Definition Z_of_byte (b : byte) : Z := Z.of_N (Byte.to_N b).

(** Little-endian 32-bit fields. *)
Definition le32 (bytes : list byte) (off : nat) : Z :=
  let b (i : nat) := Z_of_byte (default x00 (bytes !! (off + i)%nat)) in
  b 0%nat + 2 ^ 8 * b 1%nat + 2 ^ 16 * b 2%nat + 2 ^ 24 * b 3%nat.

Definition enc32 (z : Z) : list byte :=
  [byte_of_Z z; byte_of_Z (z / 2 ^ 8); byte_of_Z (z / 2 ^ 16);
   byte_of_Z (z / 2 ^ 24)].

(** A reply header on the wire: [cmd_type], [ret_code], [pid],
    [cmd_header_size], [data_size], [fd_count]. *)
Definition llm_bytes (ret_code cmd_header_size data_size fd_count : Z)
  : list byte :=
  enc32 0 ++ enc32 ret_code ++ enc32 0 ++ enc32 cmd_header_size
  ++ enc32 data_size ++ enc32 fd_count.

(** An instance of the externals for running the model: packed
    little-endian structures of 32-bit fields, the usual array sizes,
    small record sizes, a probe codec that pads the serialized form to a
    multiple of 8 bytes and rejects an empty one, and a filter compiler
    that rejects expressions starting with [!]. *)
Definition sample_externals : Externals :=
  {| LTTNG_OK := 10%positive;
     LTTNG_ERR_UNK := 11%positive;
     LTTNG_ERR_NO_SESSIOND := 19%positive;
     LTTNG_ERR_FATAL := 25%positive;
     LTTNG_ERR_NOMEM := 26%positive;
     LTTNG_ERR_INVALID := 97%positive;
     LTTNG_ERR_TRACE_ALREADY_STOPPED := 81%positive;
     LTTNG_ERR_EXCLUSION_NOMEM := 104%positive;
     LTTNG_ERR_OVERFLOW := 138%positive;
     LTTNG_ERR_PROBE_LOCATION_INVAL := 146%positive;
     LTTNG_ERR_INVALID_PROTOCOL := 150%positive;
     ENOMEM := 12%positive;
     LTTNG_NAME_MAX := 255%positive;
     LTTNG_SYMBOL_NAME_LEN := 256%positive;
     PATH_MAX := 4096%positive;
     DEFAULT_DATA_AVAILABILITY_WAIT_TIME_US := 200000;
     sizeof_lttcomm_lttng_msg := 24%positive;
     decode_lttcomm_lttng_msg := fun b =>
       {| ret_code := le32 b 4; cmd_header_size := le32 b 12;
          data_size := le32 b 16; fd_count := le32 b 20 |};
     sizeof_lttcomm_session_msg := 255%positive;
     encode_lttcomm_session_msg := fun lsm => session_name lsm;
     sizeof_lttcomm_event_command_header := 4%positive;
     decode_nb_events := fun b => le32 b 0;
     sizeof_lttcomm_event_extended_header := 12%positive;
     decode_filter_len := fun b => le32 b 0;
     decode_nb_exclusions := fun b => le32 b 4;
     decode_userspace_probe_location_len := fun b => le32 b 8;
     sizeof_lttng_event := 16%positive;
     sizeof_lttng_event_extended := 24%positive;
     sizeof_lttng_domain := 8%positive;
     sizeof_lttng_session := 32%positive;
     sizeof_lttng_session_extended := 16%positive;
     sizeof_lttng_channel := 32%positive;
     sizeof_lttng_channel_extended := 16%positive;
     filter_parser_ctx_create_from_filter_expression := fun e =>
       match e with
       | "!"%byte :: _ => (-1, [])
       | _ => (0, c_str e)
       end;
     userspace_probe_location_flat := fun b =>
       match b with
       | [] => None
       | _ => Some (resize b (Z.to_nat (ALIGN_TO (Z.of_nat (length b)) 8)))
       end |}.

(* ================================================================== *)
(** * The other operations of the file *)

(** What other headers declare, for the operations of this part: the
    members of [struct lttng_event] that [lttng_event] keeps as one
    opaque value, in a zeroed event whose [type] is [LTTNG_EVENT_ALL];
    the size of a handle; and the path of the socket of the global
    session daemon. *)
Class Headers := {
  lttng_event_all : list byte;
  sizeof_lttng_handle : positive;
  DEFAULT_GLOBAL_CLIENT_UNIX_SOCK : list byte;
}.

Section Interface.
Context `{Externals}.

(** Line 2925: the deprecated name of [lttng_regenerate_metadata]. *)
Definition lttng_metadata_regenerate (session_name : option (list byte))
  : M Z := lttng_regenerate_metadata session_name.

(** Lines 710-732.  The handle returned is the structure that the
    pointer designates, [None] for [NULL]. *)
Definition lttng_create_handle `{Headers} (session_name : option (list byte))
    (domain : option lttng_domain) : M (option lttng_handle) :=
  let* a := ask_world (fun a =>
              EvAlloc sizeof_lttng_handle (negb (a_ret a =? 0))) in
  if a_ret a =? 0 then Return None else
  (* Copy session name *)
  let* name := copy_field LTTNG_NAME_MAX session_name in
  (* Copy lttng domain or leave initialized to 0. *)
  let d := match domain with
           | Some _ =>
               match lttng_ctl_copy_lttng_domain (Some lttng_domain_zero)
                       domain with
               | Some d => d
               | None => lttng_domain_zero
               end
           | None => lttng_domain_zero
           end in
  Return (Some {| h_session_name := name; h_domain := d |}).

(** Lines 1443-1453. *)
Definition lttng_disable_event `{Headers} (handle : option lttng_handle)
    (name channel_name : option (list byte)) : M Z :=
  (* memset(&ev, 0, sizeof(ev)); ev.loglevel = -1;
     ev.type = LTTNG_EVENT_ALL; *)
  let* ev_name := copy_field LTTNG_SYMBOL_NAME_LEN name in
  let ev := {| ev_name := ev_name;
               ev_loglevel_type := LTTNG_EVENT_LOGLEVEL_ALL;
               ev_loglevel := -1;
               ev_other := lttng_event_all |} in
  lttng_disable_event_ext handle (Some ev) channel_name None.

(** The three listings that return the payload as an array of records
    without a trailing part: tracepoints, system calls and domains. *)
Inductive plain_listing :=
| Tracepoints (handle : option lttng_handle)
| Syscalls
| Domains (session_name : option (list byte)).

Definition list_plain (l : plain_listing) (out : option (option nat))
  : M (Z * option (option nat)) :=
  match l with
  | Tracepoints handle => lttng_list_tracepoints handle out
  | Syscalls => lttng_list_syscalls out
  | Domains session_name => lttng_list_domains session_name out
  end.

Definition record_size (l : plain_listing) : Z :=
  match l with
  | Tracepoints _ | Syscalls => sizeof_lttng_event
  | Domains _ => sizeof_lttng_domain
  end.

(** The two listings whose records come with an extended part:
    sessions, and the channels of a handle. *)
Inductive extended_listing :=
| Sessions
| Channels (handle : lttng_handle).

Definition list_extended (l : extended_listing) (out : option (option nat))
  : M (Z * option (option nat)) :=
  match l with
  | Sessions => lttng_list_sessions out
  | Channels handle => lttng_list_channels (Some handle) out
  end.

(** [session_size] of line 2015 and [channel_size] of line 2140. *)
Definition extended_record_size (l : extended_listing) : Z :=
  match l with
  | Sessions => sizeof_lttng_session + sizeof_lttng_session_extended
  | Channels _ => sizeof_lttng_channel + sizeof_lttng_channel_extended
  end.

(** A call of one of the operations above, with its arguments. *)
Inductive api_call :=
| Register_consumer (handle : option lttng_handle)
    (socket_path : option (list byte))
| Start_tracing (session_name : option (list byte))
| Stop_tracing (fuel : nat) (session_name : option (list byte))
| Stop_tracing_no_wait (fuel : nat) (session_name : option (list byte))
| Data_pending (session_name : option (list byte))
| Add_context (handle : option lttng_handle) (c : option lttng_event_context)
    (event_name channel_name : option (list byte))
| Disable_event_ext (handle : option lttng_handle) (ev : option lttng_event)
    (channel_name original_filter_expression : option (list byte))
| Disable_channel (handle : option lttng_handle) (name : option (list byte))
| Set_session_shm_path (session_name shm_path : option (list byte))
| Regenerate_metadata (session_name : option (list byte))
| Metadata_regenerate (session_name : option (list byte))
| Regenerate_statedump (session_name : option (list byte))
| List_tracepoints (handle : option lttng_handle)
    (events : option (option nat))
| List_syscalls (events : option (option nat))
| List_sessions (out_sessions : option (option nat))
| List_domains (session_name : option (list byte))
    (domains : option (option nat))
| List_channels (handle : option lttng_handle)
    (channels : option (option nat))
| List_events (handle : option lttng_handle)
    (channel_name : option (list byte))
    (events : option (option flat_events)).

(** The [int] that a call returns. *)
Definition perform (c : api_call) : M Z :=
  match c with
  | Register_consumer handle socket_path =>
      lttng_register_consumer handle socket_path
  | Start_tracing session_name => lttng_start_tracing session_name
  | Stop_tracing fuel session_name => lttng_stop_tracing fuel session_name
  | Stop_tracing_no_wait fuel session_name =>
      lttng_stop_tracing_no_wait fuel session_name
  | Data_pending session_name => lttng_data_pending session_name
  | Add_context handle c event_name channel_name =>
      lttng_add_context handle c event_name channel_name
  | Disable_event_ext handle ev channel_name filter =>
      lttng_disable_event_ext handle ev channel_name filter
  | Disable_channel handle name => lttng_disable_channel handle name
  | Set_session_shm_path session_name shm_path =>
      lttng_set_session_shm_path session_name shm_path
  | Regenerate_metadata session_name =>
      lttng_regenerate_metadata session_name
  | Metadata_regenerate session_name =>
      lttng_metadata_regenerate session_name
  | Regenerate_statedump session_name =>
      lttng_regenerate_statedump session_name
  | List_tracepoints handle events =>
      let* '(ret, _) := lttng_list_tracepoints handle events in Return ret
  | List_syscalls events =>
      let* '(ret, _) := lttng_list_syscalls events in Return ret
  | List_sessions out_sessions =>
      let* '(ret, _) := lttng_list_sessions out_sessions in Return ret
  | List_domains session_name domains =>
      let* '(ret, _) := lttng_list_domains session_name domains in Return ret
  | List_channels handle channels =>
      let* '(ret, _) := lttng_list_channels handle channels in Return ret
  | List_events handle channel_name events =>
      let* '(ret, _) := lttng_list_events handle channel_name events in
      Return ret
  end.

(** A program of the client: calls made one after the other. *)
Fixpoint perform_all (calls : list api_call) : M (list Z) :=
  match calls with
  | [] => Return []
  | c :: calls =>
      let* ret := perform c in
      let* rets := perform_all calls in
      Return (ret :: rets)
  end.

(** The calls that hand no buffer to their caller. *)
Definition is_control (c : api_call) : bool :=
  match c with
  | List_tracepoints _ _ | List_syscalls _ | List_sessions _
  | List_domains _ _ | List_channels _ _ | List_events _ _ _ => false
  | _ => true
  end.

(** The command of each call of the fixed-header path. *)
Definition command_of (c : api_call) : option lttcomm_sessiond_command :=
  match c with
  | Register_consumer _ _ => Some LTTNG_REGISTER_CONSUMER
  | Start_tracing _ => Some LTTNG_START_TRACE
  | Stop_tracing _ _ => None
  | Stop_tracing_no_wait _ _ => Some LTTNG_STOP_TRACE
  | Data_pending _ => Some LTTNG_DATA_PENDING
  | Add_context _ _ _ _ => Some LTTNG_ADD_CONTEXT
  | Disable_event_ext _ _ _ _ => Some LTTNG_DISABLE_EVENT
  | Disable_channel _ _ => Some LTTNG_DISABLE_CHANNEL
  | Set_session_shm_path _ _ => Some LTTNG_SET_SESSION_SHM_PATH
  | Regenerate_metadata _ | Metadata_regenerate _ =>
      Some LTTNG_REGENERATE_METADATA
  | Regenerate_statedump _ => Some LTTNG_REGENERATE_STATEDUMP
  | List_tracepoints _ _ => Some LTTNG_LIST_TRACEPOINTS
  | List_syscalls _ => Some LTTNG_LIST_SYSCALLS
  | List_sessions _ => Some LTTNG_LIST_SESSIONS
  | List_domains _ _ => Some LTTNG_LIST_DOMAINS
  | List_channels _ _ => Some LTTNG_LIST_CHANNELS
  | List_events _ _ _ => None
  end.

(** The calls that have a mandatory argument, with that argument
    [NULL]: the safety checks of lines 752, 777, 798, 874, 1293, 1588,
    1619, 1675, 2084, 2111, 2145, 2863, 2901 and 2939. *)
Definition lacks_argument (c : api_call) : bool :=
  match c with
  | Register_consumer None _ | Register_consumer _ None
  | Start_tracing None
  | Stop_tracing _ None | Stop_tracing_no_wait _ None
  | Data_pending None
  | Add_context None _ _ _ | Add_context _ None _ _
  | Disable_event_ext None _ _ _ | Disable_event_ext _ None _ _
  | Disable_channel None _ | Disable_channel _ None
  | Set_session_shm_path None _
  | Regenerate_metadata None | Metadata_regenerate None
  | Regenerate_statedump None
  | List_tracepoints None _
  | List_syscalls None
  | List_domains None _
  | List_channels None _ => true
  | _ => false
  end.

(** The calls that send their command as a record, through
    [lttng_ctl_ask_sessiond] and its variants; [lttng_list_events] sends
    the bytes of the record through the payload path. *)
Definition on_fixed_header_path (c : api_call) : bool :=
  match c with
  | List_events _ _ _ => false
  | _ => true
  end.

(** The calls that copy the session name of a handle into their
    record. *)
Definition names_session (c : api_call) : option lttng_handle :=
  match c with
  | Register_consumer (Some h) (Some _)
  | Add_context (Some h) (Some _) _ _
  | Disable_event_ext (Some h) (Some _) _ _
  | Disable_channel (Some h) (Some _)
  | List_channels (Some h) _ => Some h
  | _ => None
  end.

(** The library between two requests: no socket. *)
Definition idle (s : state) : Prop :=
  connected s = false /\ sessiond_socket s = -1.

End Interface.

(* ================================================================== *)
(** * The attributes of a channel *)

Section Channels.
Context `{Externals}.

(** [struct lttng_channel_extended]: two 64-bit unsigned counters, a
    64-bit unsigned interval and a 64-bit signed timeout. *)
Record lttng_channel_extended := {
  discarded_events : Z;
  lost_packets : Z;
  monitor_timer_interval : Z;
  blocking_timeout : Z;
}.

(** [struct lttng_channel]: the object that [attr.extended.ptr]
    designates, [None] for [NULL], and the other members as one opaque
    value. *)
Record lttng_channel := {
  chan_other : list byte;
  attr_extended : option lttng_channel_extended;
}.

Definition with_extended (chan : lttng_channel)
    (e : lttng_channel_extended) : lttng_channel :=
  {| chan_other := chan_other chan; attr_extended := Some e |}.

(** Lines 2605-2629.  The cell of the out-parameter is returned with
    the result. *)
Definition lttng_channel_get_discarded_event_count
    (channel : option lttng_channel) (discarded : option Z)
  : Z * option Z :=
  match channel, discarded with
  | Some c, Some _ =>
      match attr_extended c with
      | None =>
          (* This can happen since the lttng_channel structure is used
             for other tasks where this pointer is never set. *)
          (0, Some 0)
      | Some chan_ext => (0, Some (discarded_events chan_ext))
      end
  | _, _ => (- LTTNG_ERR_INVALID, discarded)
  end.

(** Lines 2631-2655. *)
Definition lttng_channel_get_lost_packet_count
    (channel : option lttng_channel) (lost : option Z) : Z * option Z :=
  match channel, lost with
  | Some c, Some _ =>
      match attr_extended c with
      | None => (0, Some 0)
      | Some chan_ext => (0, Some (lost_packets chan_ext))
      end
  | _, _ => (- LTTNG_ERR_INVALID, lost)
  end.

(** Lines 2657-2676. *)
Definition lttng_channel_get_monitor_timer_interval
    (chan : option lttng_channel) (interval : option Z) : Z * option Z :=
  match chan, interval with
  | Some c, Some _ =>
      match attr_extended c with
      | None => (- LTTNG_ERR_INVALID, interval)
      | Some e => (0, Some (monitor_timer_interval e))
      end
  | _, _ => (- LTTNG_ERR_INVALID, interval)
  end.

(** Lines 2678-2693.  The channel is returned as the call leaves it. *)
Definition lttng_channel_set_monitor_timer_interval
    (chan : option lttng_channel) (interval : Z)
  : Z * option lttng_channel :=
  match chan with
  | Some c =>
      match attr_extended c with
      | None => (- LTTNG_ERR_INVALID, chan)
      | Some e =>
          (0, Some (with_extended c
                      {| discarded_events := discarded_events e;
                         lost_packets := lost_packets e;
                         monitor_timer_interval := interval;
                         blocking_timeout := blocking_timeout e |}))
      end
  | None => (- LTTNG_ERR_INVALID, chan)
  end.

(** Lines 2695-2714. *)
Definition lttng_channel_get_blocking_timeout
    (chan : option lttng_channel) (timeout : option Z) : Z * option Z :=
  match chan, timeout with
  | Some c, Some _ =>
      match attr_extended c with
      | None => (- LTTNG_ERR_INVALID, timeout)
      | Some e => (0, Some (blocking_timeout e))
      end
  | _, _ => (- LTTNG_ERR_INVALID, timeout)
  end.

(** Lines 2716-2748.  The division of two [int64_t] truncates; the
    cast to [int32_t] wraps. *)
Definition lttng_channel_set_blocking_timeout
    (chan : option lttng_channel) (timeout : Z)
  : Z * option lttng_channel :=
  match chan with
  | Some c =>
      match attr_extended c with
      | None => (- LTTNG_ERR_INVALID, chan)
      | Some e =>
          if (timeout <? 0) && negb (timeout =? -1)
          then (- LTTNG_ERR_INVALID, chan) else
          let msec_timeout := Z.quot timeout 1000 in
          if negb (msec_timeout =? to_int msec_timeout)
          then (- LTTNG_ERR_INVALID, chan) else
          (0, Some (with_extended c
                      {| discarded_events := discarded_events e;
                         lost_packets := lost_packets e;
                         monitor_timer_interval := monitor_timer_interval e;
                         blocking_timeout := timeout |}))
      end
  | None => (- LTTNG_ERR_INVALID, chan)
  end.

End Channels.

(* ================================================================== *)
(** * The path of the socket *)

Module SocketPath.
Section Resolution.
Context `{Externals} `{Headers}.

(** The process and the system as lines 258-435 see them: the user id;
    the id of the tracing group, [None] when [utils_get_group_id]
    fails; the results of the two calls of [getgroups]; whether the
    list of groups could be allocated; for a path, whether [access]
    finds it and whether [lttcomm_connect_unix_sock] connects to it;
    and the result of the [snprintf] of the path under the home
    directory, with what it leaves in the array. *)
Record process := {
  getuid : Z;
  tracing_gid : option Z;
  getgroups_size : Z;
  grp_list_allocated : bool;
  getgroups_ret : Z;
  getgroups_list : list Z;
  access_ok : list byte -> bool;
  connect_ok : list byte -> bool;
  snprintf_home : Z * list byte;
}.

(** Lines 258-302.  The list is a zeroed block of [grp_list_size]
    entries, which [getgroups] fills from its start. *)
Definition lttng_check_tracing_group (p : process) : Z :=
  match tracing_gid p with
  | None => -1    (* If grp_tracing is NULL, the group does not exist. *)
  | Some gid =>
      let grp_list_size := getgroups_size p in
      if grp_list_size <? 0 then -1 else
      if negb (grp_list_allocated p) then -1 else
      if getgroups_ret p <? 0 then -1 else
      let n := Z.to_nat grp_list_size in
      let grp_list := take n (getgroups_list p ++ replicate n 0) in
      if existsb (Z.eqb gid) grp_list then 1 else -1
  end.

(** Lines 353-379. *)
Definition try_connect_sessiond (p : process) (sock_path : list byte) : Z :=
  if negb (access_ok p sock_path) then -1 else
  if negb (connect_ok p sock_path) then -1 else
  0.

(** Lines 388-435, which the request paths above take as one call into
    the world, on the array [sessiond_sock_path]; the array is returned
    with the result.  [None] is the undefined behaviour of
    [lttng_ctl_copy_string]. *)
Definition set_session_daemon_path (p : process)
    (sessiond_sock_path : list byte) : option (Z * list byte) :=
  let uid := getuid p in
  let in_tgroup :=
    if negb (uid =? 0) then lttng_check_tracing_group p else 0 in
  match
    (if (uid =? 0) || negb (in_tgroup =? 0)
     then lttng_ctl_copy_string (Some sessiond_sock_path)
            (Some DEFAULT_GLOBAL_CLIENT_UNIX_SOCK) PATH_MAX
     else Some (Some sessiond_sock_path))
  with
  | Some (Some path) =>
      if negb (uid =? 0) then
        if negb (in_tgroup =? 0) && (0 <=? try_connect_sessiond p path)
        then Some (0, path)
        else
          (* ...or not in tracing group (and not root), default *)
          let '(ret, home) := snprintf_home p in
          if (ret <? 0) || (PATH_MAX <=? ret) then Some (-1, home)
          else Some (0, home)
      else Some (0, path)
  | _ => None
  end.

End Resolution.
End SocketPath.
(* ================================================================== *)
(** * The vocabulary of the proofs *)

(** Every event that [m] logs satisfies [P]. *)
Definition adds {A} (P : event -> Prop) (m : M A) : Prop :=
  forall s a s', m s = Done a s' ->
    exists t, trace s' = trace s ++ t /\ Forall P t.

(** [m], started in a state satisfying [P], ends in a state satisfying
    [Q]. *)
Definition hoare {A} (P : state -> Prop) (m : M A) (Q : A -> state -> Prop)
  : Prop :=
  forall s a s', P s -> m s = Done a s' -> Q a s'.

Definition keeps_connection {A} (m : M A) : Prop :=
  forall s a s', m s = Done a s' ->
    connected s' = connected s /\ sessiond_socket s' = sessiond_socket s.

(** Computations that leave the heap alone. *)
Definition keeps_memory {A} (m : M A) : Prop :=
  forall s a s', m s = Done a s' ->
    heap s' = heap s /\ next_block s' = next_block s.

(** The codes with which a step leaves for the label
    [free_dynamic_buffer] are negative. *)
Definition throws_negative {A} (m : M (Z + A)) : Prop :=
  forall s r s', m s = Done (inl r) s' -> r < 0.

(** The [len] bytes of a zeroed area after a read that delivered
    [bytes] into it: [bytes], cut to [len], then what is left of the
    zeroes. *)
Definition area (len : Z) (bytes : list byte) : list byte :=
  overlay (replicate (Z.to_nat len) x00) bytes.

(** What the reads logged have left in a buffer that grows by a zeroed
    area of the length asked for before each of them. *)
Fixpoint received (l : list event) : list byte :=
  match l with
  | [] => []
  | EvRecv _ len _ bytes :: l => area len bytes ++ received l
  | _ :: l => received l
  end.

(** The descriptors that the reads logged have delivered. *)
Fixpoint received_fds (l : list event) : list Z :=
  match l with
  | [] => []
  | EvRecvFds _ _ _ fds :: l => fds ++ received_fds l
  | _ :: l => received_fds l
  end.

(** The read of a section of [len] bytes: none for an empty section. *)
Definition section_read (sock len n : Z) (bytes : list byte) : list event :=
  if 0 <? len then [EvRecv sock len n bytes] else [].

(** The read of [nb_fd] descriptors: none when there is no descriptor. *)
Definition descriptors_read (sock nb_fd n : Z) (fds : list Z) : list event :=
  if 0 <? nb_fd then [EvRecvFds sock nb_fd n fds] else [].

(** The answers of the world from the state [s] on. *)
Definition upcoming (s : state) (k : nat) : answer :=
  world s (k + clock s)%nat.

Section Vocabulary.
Context `{Externals}.

(** After the resolution of the socket path that starts an exchange:
    no pause, no other exchange, and nothing sent with credentials but
    [msg]. *)
Definition inner_event (msg : wire) (e : event) : Prop :=
  match e with
  | EvSleep _ | EvResolvePath _ => False
  | EvSendCreds _ m _ => m = msg
  | _ => True
  end.

Definition not_a_read (e : event) : Prop :=
  match e with
  | EvRecv _ _ _ _ | EvRecvFds _ _ _ _ => False
  | _ => True
  end.

(** The body of a request runs between the connect and the label
    [end]: the socket [fd] is the connected one, and the log extends
    [tr0]. *)
Definition in_exchange (fd : Z) (tr0 : list event) (s : state) : Prop :=
  connected s = true /\ sessiond_socket s = fd /\
  exists t, trace s = tr0 ++ t.

Definition closed_after (fd : Z) (tr0 : list event) (s : state) : Prop :=
  connected s = false /\ sessiond_socket s = -1 /\
  exists t rc, trace s = tr0 ++ t ++ [EvClose fd rc].

(** The header gate, as a property of the result [r] of a request that
    was started in [s] and returned in [s']. *)
Definition gated {A} (s : state) (r : Z * A) (s' : state) : Prop :=
  forall sock len n bytes,
    head (reads (new_events s s')) = Some (EvRecv sock len n bytes) ->
    0 <= n ->
    length bytes = Z.to_nat sizeof_lttcomm_lttng_msg ->
    ret_code (read_llm bytes) <> LTTNG_OK ->
    r.1 = to_int (to_uint32 (- ret_code (read_llm bytes))) /\
    reads (new_events s s') = [EvRecv sock len n bytes].

(** Before the header is asked for, nothing was read. *)
Definition nothing_read (s : state) (st : state) : Prop :=
  exists t, trace st = trace s ++ t /\ Forall not_a_read t.

(** After a header that announced success, whatever follows. *)
Definition header_ok (s : state) (st : state) : Prop :=
  exists t sock len n bytes t',
    trace st = trace s ++ t ++ EvRecv sock len n bytes :: t' /\
    Forall not_a_read t /\
    (length bytes = Z.to_nat sizeof_lttcomm_lttng_msg ->
     ret_code (read_llm bytes) = LTTNG_OK).

(** The allocator hands out blocks that are not live. *)
Definition fresh_above (s : state) : Prop :=
  forall b, (next_block s <= b)%nat -> heap s !! b = None.

(** What the caller of the fixed-header path holds after a failure: the
    payload output as it was, and either an unchanged heap with the
    command-header output as it was or cleared, or the command-header
    block, handed over. *)
Definition failed_outputs (s : state) (out : ask_outputs)
    (r : Z * ask_outputs) (s' : state) : Prop :=
  user_payload_buf r.2 = user_payload_buf out /\
  ((heap s' = heap s /\
    (user_cmd_header_buf r.2 = user_cmd_header_buf out \/
     user_cmd_header_buf r.2 = Some None)) \/
   exists bytes,
     user_cmd_header_buf r.2 = Some (Some (next_block s)) /\
     heap s' = <[next_block s := bytes]> (heap s)).

(** The whole reply was received: the result is the data size of the
    header, as an [int]. *)
Definition answered (s : state) (r : Z * ask_outputs) (s' : state) : Prop :=
  exists t sock len n hdr t',
    trace s' = trace s ++ t ++ EvRecv sock len n hdr :: t' /\
    Forall not_a_read t /\
    r.1 = to_int (data_size (read_llm hdr)).

Definition unread_untouched (s st : state) : Prop :=
  nothing_read s st /\ heap st = heap s /\ next_block st = next_block s.


(** One exchange of the fixed-header path with the command [cmd]. *)
Definition one_exchange (cmd : lttcomm_sessiond_command) (t : list event)
  : Prop :=
  exists r lsm t', t = EvResolvePath r :: t' /\ cmd_type lsm = cmd /\
    Forall (inner_event (WLsm lsm)) t'.

(** The heap is as it was in [s0], and the allocator is sound. *)
Definition tidy (s0 st : state) : Prop :=
  heap st = heap s0 /\ fresh_above st.

(** A call to the allocator, the only event that is no input or
    output. *)
Definition local_event (e : event) : Prop :=
  match e with EvAlloc _ _ => True | _ => False end.

(** Since [s], only the allocator was called. *)
Definition still (s st : state) : Prop :=
  exists t, trace st = trace s ++ t /\ Forall local_event t.

(** Since [s]: no pause, at most one exchange, and no command on the
    fixed-header path but [cmd]. *)
Definition calm (s : state) (cmd : lttcomm_sessiond_command) (st : state)
  : Prop :=
  exists t, trace st = trace s ++ t /\
    sleeps t = 0%nat /\ (exchanges t <= 1)%nat /\
    Forall (eq cmd) (commands t).

(** A character array of [size] bytes that holds a C string: a NUL
    byte is found inside the array. *)
Definition terminated (size : positive) (d : list byte) : Prop :=
  length d = Pos.to_nat size /\
  exists i, (i < Pos.to_nat size)%nat /\ d !! i = Some x00.

(** The character arrays of a command record that the operations fill:
    the session name, and the channel name or the path of the union. *)
Definition well_formed (lsm : lttcomm_session_msg) : Prop :=
  terminated LTTNG_NAME_MAX (session_name lsm) /\
  match u lsm with
  | u_zero => True
  | u_reg path | u_set_shm_path path => terminated PATH_MAX path
  | u_context channel_name _ _ _ | u_disable channel_name _ _ _
  | u_list channel_name => terminated LTTNG_SYMBOL_NAME_LEN channel_name
  end.

Definition sends_well_formed (e : event) : Prop :=
  match e with
  | EvSendCreds _ (WLsm lsm) _ => well_formed lsm
  | _ => True
  end.

(** Since [s], every event logged satisfies [P]. *)
Definition said (P : event -> Prop) (s st : state) : Prop :=
  exists t, trace st = trace s ++ t /\ Forall P t.

(** The events of a request of the fixed-header path that sends the
    record [lsm] followed by [len] bytes of [vardata]: the record is
    the only message with credentials, the variable data the only
    other message, and there is no pause. *)
Definition request_event (lsm : lttcomm_session_msg)
    (vardata : option (list byte)) (len : Z) (e : event) : Prop :=
  match e with
  | EvSendCreds _ m _ => m = WLsm lsm
  | EvSend _ bytes _ => Some bytes = option_map (take (Z.to_nat len)) vardata
  | EvSendFds _ _ _ | EvSleep _ => False
  | _ => True
  end.

(** The values of [enum lttng_domain_type]. *)
Definition known_domain (t : lttng_domain_type) : Prop :=
  match t with
  | LTTNG_DOMAIN_invalid _ => False
  | _ => True
  end.

Definition sends_known_domain (e : event) : Prop :=
  match e with
  | EvSendCreds _ (WLsm lsm) _ => known_domain (dom_type (domain lsm))
  | _ => True
  end.

(** What [lttng_add_context] sends for an application context named
    [provider_name] and [ctx_name]: a record without the two pointers,
    with the lengths of the names, then the names themselves. *)
Definition app_context_event (provider_name ctx_name : list byte)
    (e : event) : Prop :=
  match e with
  | EvSendCreds _ (WLsm lsm) _ =>
      exists chan,
        u lsm = u_context chan
                  {| ctx := LTTNG_EVENT_CONTEXT_APP_CONTEXT;
                     ctx_u := app_ctx None None |}
                  (strlen provider_name) (strlen ctx_name)
  | EvSend _ bytes _ => bytes = c_str provider_name ++ c_str ctx_name
  | _ => True
  end.

(** The daemon refused the command: the reply header, the first thing
    read since [s], holds a code that is not [LTTNG_OK]. *)
Definition refused (s s' : state) : Prop :=
  exists t sock len n hdr t',
    trace s' = trace s ++ t ++ EvRecv sock len n hdr :: t' /\
    Forall not_a_read t /\
    ret_code (read_llm hdr) <> LTTNG_OK.

(** The reply header, if one was read since [s], said [LTTNG_OK]. *)
Definition accepted (s s' : state) : Prop :=
  forall sock len n hdr,
    head (reads (new_events s s')) = Some (EvRecv sock len n hdr) ->
    ret_code (read_llm hdr) = LTTNG_OK.

(** What [lttng_ctl_ask_sessiond] leaves to a caller that passed the
    cell [buf] for the payload: nothing, after a failure or a refusal;
    a cleared cell, for an empty payload; or a new block that holds the
    payload, whose size is the result. *)
Definition reply_outcome (s : state) (buf : option (option nat)) (ret : Z)
    (buf' : option (option nat)) (s' : state) : Prop :=
  (heap s' = heap s /\ buf' = buf /\ (ret < 0 \/ refused s s')) \/
  (ret = 0 /\ heap s' = heap s /\
   buf' = match buf with Some _ => Some None | None => None end) \/
  (exists bytes,
     buf <> None /\ buf' = Some (Some (next_block s)) /\
     heap s' = <[next_block s := bytes]> (heap s) /\
     0 < Z.of_nat (length bytes) < 2 ^ 32 /\
     ret = to_int (Z.of_nat (length bytes))).

(** What [lttng_disable_event] sends for the event [name]: a record
    whose event holds the name, cut to the size of its array and
    terminated, and the log level -1. *)
Definition disable_event_record (name : option (list byte)) (e : event)
  : Prop :=
  match e with
  | EvSendCreds _ (WLsm lsm) _ =>
      exists chan ev bytecode_len expression_len,
        u lsm = u_disable chan ev bytecode_len expression_len /\
        terminated LTTNG_SYMBOL_NAME_LEN (ev_name ev) /\
        c_str (ev_name ev)
        = match name with
          | Some x => take (Pos.to_nat LTTNG_SYMBOL_NAME_LEN - 1) (c_str x)
          | None => []
          end /\
        ev_loglevel ev = -1
  | _ => True
  end.

(** The references of a flattened record, inside the part of the
    listing from [lo] to [hi].  The extended block lies there.  The
    filter expression starts right after it, before [hi].  The table of
    [k] exclusions starts after the block, and the
    [k * LTTNG_SYMBOL_NAME_LEN] bytes that the code computes modulo 2^32
    and copies end before [hi]: the whole table does whenever the product
    fits 32 bits.  The probe location starts after the block, at a
    multiple of 8 bytes, not after [hi]. *)
Definition ref_inside (lo hi : Z) (r : event_refs) : Prop :=
  lo <= r_extended r /\
  r_extended r + sizeof_lttng_event_extended <= hi /\
  (forall p, r_filter_expression r = Some p ->
     p = r_extended r + sizeof_lttng_event_extended /\ p < hi) /\
  (forall k p, r_exclusions r = Some (k, p) ->
     0 < k /\
     r_extended r + sizeof_lttng_event_extended <= p /\
     p + to_uint32 (k * LTTNG_SYMBOL_NAME_LEN) <= hi /\
     (k * LTTNG_SYMBOL_NAME_LEN < 2 ^ 32 ->
      p + k * LTTNG_SYMBOL_NAME_LEN <= hi)) /\
  (forall p, r_probe_location r = Some p ->
     p mod 8 = 0 /\
     r_extended r + sizeof_lttng_event_extended <= p <= hi).

(** An event of the body of a request made on the descriptor [fd]:
    every message goes to it or comes from it; the path is not
    resolved again, no other connection is opened, and there is no
    pause. *)
Definition on_socket (fd : Z) (e : event) : Prop :=
  match e with
  | EvSendCreds sock _ _ | EvSend sock _ _ | EvSendFds sock _ _
  | EvRecv sock _ _ _ | EvRecvFds sock _ _ _ | EvClose sock _ => sock = fd
  | EvAlloc _ _ => True
  | EvResolvePath _ | EvConnect _ | EvSleep _ => False
  end.

(** Inside the body of a request on [fd], whose log extends [tr0]. *)
Definition talking (fd : Z) (tr0 : list event) (s : state) : Prop :=
  connected s = true /\ sessiond_socket s = fd /\
  exists t, trace s = tr0 ++ t /\ Forall (on_socket fd) t.

(** After the label [end] of a request on [fd]. *)
Definition hung_up (fd : Z) (tr0 : list event) (s : state) : Prop :=
  connected s = false /\ sessiond_socket s = -1 /\
  exists t rc, trace s = tr0 ++ t ++ [EvClose fd rc] /\
    Forall (on_socket fd) t.

(** The log of a request: the path is resolved; then nothing, a
    connection that fails, or a connection on [fd], messages on [fd]
    only, and the close of [fd]. *)
Definition one_conversation (l : list event) : Prop :=
  exists r t, l = EvResolvePath r :: t /\
    (t = [] \/
     (exists c, c < 0 /\ t = [EvConnect c]) \/
     (exists fd t' rc,
        0 <= fd /\ t = EvConnect fd :: t' ++ [EvClose fd rc] /\
        Forall (on_socket fd) t')).

(** Inside the body of a request of the payload path on [fd]: the
    reads logged since [s] are [rs], and the reply holds what they
    delivered. *)
Definition filling (fd : Z) (s : state) (rs : list event)
    (reply : lttng_payload) (st : state) : Prop :=
  connected st = true /\ sessiond_socket st = fd /\
  (exists t, trace st = trace s ++ t /\ reads t = rs) /\
  data (buffer reply) = received rs /\
  _fd_handles reply = received_fds rs.

(** A request of the payload path that left before the end, with the
    reads [rs] logged: the reply holds what was read, the reply header
    first, and the descriptors received; the result is negative, or the
    header, the only thing read, held a code other than [LTTNG_OK] of
    which the result is the negation as a 32-bit [int]. *)
Definition partial_reply (ret : Z) (reply : lttng_payload) (rs : list event)
  : Prop :=
  data (buffer reply) = received rs /\
  _fd_handles reply = received_fds rs /\
  (ret < 0 \/
   exists sock n bytes,
     rs = [EvRecv sock sizeof_lttcomm_lttng_msg n bytes] /\
     let llm := read_llm (area sizeof_lttcomm_lttng_msg bytes) in
     ret_code llm <> LTTNG_OK /\
     ret = to_int (to_uint32 (- ret_code llm))).

(** A request of the payload path that ran to its end, with the reads
    [rs] logged: the header, which said [LTTNG_OK], then the command
    header, the data and the descriptors, each read only when the
    header announces it; the reply holds the command header and the
    data as they were read, without the reply header, and the
    descriptors; the result is the size of the two sections as an
    [int]. *)
Definition whole_reply (ret : Z) (reply : lttng_payload) (rs : list event)
  : Prop :=
  exists sock n bytes n1 cmd n2 dat n3 fds,
    let llm := read_llm (area sizeof_lttcomm_lttng_msg bytes) in
    rs = EvRecv sock sizeof_lttcomm_lttng_msg n bytes
         :: section_read sock (cmd_header_size llm) n1 cmd
         ++ section_read sock (data_size llm) n2 dat
         ++ descriptors_read sock (fd_count llm) n3 fds /\
    ret_code llm = LTTNG_OK /\
    data (buffer reply)
    = area (cmd_header_size llm) cmd ++ area (data_size llm) dat /\
    _fd_handles reply = received_fds rs /\
    ret = to_int (cmd_header_size llm + data_size llm).

(** What a request of the payload path that returned a result [r.1]
    that is not negative leaves in the reply [r.2].  The reply header
    was read first, into a zeroed area of its size.  When it says
    [LTTNG_OK], the reads that follow are those of the command header,
    of the data and of the descriptors, each made only when the header
    announces it, and the reply holds the bytes of the command header
    followed by those of the data, as they were read, and the
    descriptors; the header itself was moved out, and the result is the
    size of the two sections as an [int].  Otherwise nothing else was
    read, the reply holds the header and the result is the negation of
    its code as a 32-bit [int]. *)
Definition payload_reply (s : state) (r : Z * lttng_payload) (s' : state)
  : Prop :=
  0 <= r.1 ->
  exists sock n bytes,
    let llm := read_llm (area sizeof_lttcomm_lttng_msg bytes) in
    if ret_code llm =? LTTNG_OK then
      exists n1 cmd n2 dat n3 fds,
        reads (new_events s s')
        = EvRecv sock sizeof_lttcomm_lttng_msg n bytes
          :: section_read sock (cmd_header_size llm) n1 cmd
          ++ section_read sock (data_size llm) n2 dat
          ++ descriptors_read sock (fd_count llm) n3 fds /\
        data (buffer r.2)
        = area (cmd_header_size llm) cmd ++ area (data_size llm) dat /\
        _fd_handles r.2 = (if 0 <? fd_count llm then fds else []) /\
        r.1 = to_int (cmd_header_size llm + data_size llm)
    else
      reads (new_events s s')
      = [EvRecv sock sizeof_lttcomm_lttng_msg n bytes] /\
      data (buffer r.2) = area sizeof_lttcomm_lttng_msg bytes /\
      _fd_handles r.2 = [] /\
      r.1 = to_int (to_uint32 (- ret_code llm)).

(** A record for the session [name] in the domain [d]. *)
Definition sends_session (name : list byte) (d : lttng_domain) (e : event)
  : Prop :=
  match e with
  | EvSendCreds _ (WLsm lsm) _ =>
      c_str (session_name lsm) = name /\ domain lsm = d
  | _ => True
  end.

(** A name as an array of [LTTNG_NAME_MAX] bytes holds it. *)
Definition session_name_kept (name : option (list byte)) : list byte :=
  match name with
  | Some x => take (Pos.to_nat LTTNG_NAME_MAX - 1) (c_str x)
  | None => []
  end.

(** An exchange of the fixed-header path in which nothing fails, seen
    from the state [s] in which it starts: the path is resolved, the
    connection is made, the command is sent, the header is received,
    says [LTTNG_OK] and announces data only, the block for the data is
    obtained and the data is received. *)
Definition delivers (s : state) : Prop :=
  0 <= a_ret (upcoming s 0) /\ 0 <= a_ret (upcoming s 1) /\
  0 <= a_ret (upcoming s 2) /\ 0 <= a_ret (upcoming s 3) /\
  ret_code (read_llm (a_bytes (upcoming s 3))) = LTTNG_OK /\
  cmd_header_size (read_llm (a_bytes (upcoming s 3))) = 0 /\
  data_size (read_llm (a_bytes (upcoming s 3))) <> 0 /\
  a_ret (upcoming s 4) <> 0 /\ 0 <= a_ret (upcoming s 5).







End Vocabulary.

(* ================================================================== *)
(** * Scenarios *)

(** The daemon accepts the connection on descriptor 7 and the command,
    announces a command header of 4 bytes and 8 bytes of data, delivers
    the command header, and fails while the data is received. *)
Definition data_section_fails : nat -> answer :=
  scripted [ans 0; ans 7; ans 255; ans_bytes 24 (llm_bytes 10 4 8 0);
            ans 1; ans_bytes 4 [x01; x02; x03; x04];
            ans 1; ans (-1); ans 0].

(** The daemon answers a payload request with the code 11 and announces
    12 bytes of data and 2 descriptors, which it does not send. *)
Definition daemon_refuses : nat -> answer :=
  scripted [ans 0; ans 7; ans 255; ans 1;
            ans_bytes 24 (llm_bytes 11 0 12 2); ans 0].

(** The daemon answers a payload request with [LTTNG_OK], announces a
    command header of 4 bytes and 8 bytes of data, delivers the command
    header, and fails while the data is received. *)
Definition payload_data_fails : nat -> answer :=
  scripted [ans 0; ans 7; ans 255; ans 1;
            ans_bytes 24 (llm_bytes 10 4 8 0);
            ans 1; ans_bytes 4 [x01; x02; x03; x04];
            ans 1; ans (-1); ans 0].

(** The daemon answers with the code 2^32 - 1 and announces 12 bytes of
    data and 2 descriptors, which it does not send. *)
Definition wrapped_refusal : nat -> answer :=
  scripted [ans 0; ans 7; ans 255;
            ans_bytes 24 (llm_bytes 4294967295 0 12 2); ans 0].

(** The same answer to a payload request. *)
Definition wrapped_payload_refusal : nat -> answer :=
  scripted [ans 0; ans 7; ans 255; ans 1;
            ans_bytes 24 (llm_bytes 4294967295 0 12 2); ans 0].

(** The outputs of a caller that asks for everything. *)
Definition all_outputs : ask_outputs :=
  {| user_payload_buf := Some None; user_cmd_header_buf := Some None;
     user_cmd_header_len := Some 0 |}.

(** One exchange in which the daemon delivers one byte of data. *)
Definition one_byte_reply (b : byte) : list answer :=
  [ans 0; ans 7; ans 255; ans_bytes 24 (llm_bytes 10 0 1 0);
   ans 1; ans_bytes 1 [b]; ans 0].



(** The daemon acknowledges a command without data. *)
Definition acknowledged : nat -> answer :=
  scripted [ans 0; ans 7; ans 255; ans_bytes 24 (llm_bytes 10 0 0 0); ans 0].

(** The daemon delivers 50 bytes of data, which is not a multiple of
    the 48 bytes of a record with its extended part. *)
Definition misaligned_reply : nat -> answer :=
  scripted [ans 0; ans 7; ans 255; ans_bytes 24 (llm_bytes 10 0 50 0);
            ans 1; ans_bytes 50 (replicate 50 x01); ans 0].

(** The daemon announces 2^31 + 1 bytes of data, which is not a
    multiple of 48; the block is obtained, and the daemon closes its end
    in good order, so that the read returns 0. *)
Definition oversized_reply : nat -> answer :=
  scripted [ans 0; ans 7; ans 255; ans_bytes 24 (llm_bytes 10 0 2147483649 0);
            ans 1; ans 0; ans 0].

(** The allocator grants one request. *)
Definition one_allocation : nat -> answer := scripted [ans 1].

(** A reply to [LTTNG_LIST_EVENTS] with two records of 16 bytes: the
    first has a filter of 3 bytes, one exclusion and a probe location
    of 5 bytes, the second has nothing. *)
Definition two_events : lttng_payload :=
  let bytes :=
    enc32 2 ++ replicate 32 x07
    ++ (enc32 3 ++ enc32 1 ++ enc32 5)
    ++ [x61; x62; x63] ++ replicate 256 x65 ++ [x01; x02; x03; x04; x05]
    ++ (enc32 0 ++ enc32 0 ++ enc32 0) in
  {| buffer := {| data := bytes; _capacity := Z.of_nat (length bytes) |};
     _fd_handles := [] |}.

(** A reply to [LTTNG_LIST_EVENTS] that announces no record. *)
Definition no_event : lttng_payload :=
  {| buffer := {| data := enc32 0; _capacity := 4 |}; _fd_handles := [] |}.


Definition kernel_handle : lttng_handle :=
  {| h_session_name := list_byte_of_string "s";
     h_domain := {| dom_type := LTTNG_DOMAIN_KERNEL; dom_attr := None |} |}.

(** The headers of the other operations, for running the model: an
    event type of four bytes, and the usual path. *)
Definition sample_headers : Headers :=
  {| lttng_event_all := [xff; xff; xff; xff];
     sizeof_lttng_handle := 280%positive;
     DEFAULT_GLOBAL_CLIENT_UNIX_SOCK :=
       list_byte_of_string "/var/run/lttng/client-lttng-sessiond" |}.

(** The daemon delivers 96 bytes of data: two sessions or channels
    with their extensions, six events, or twelve domains. *)
Definition ninety_six_bytes : nat -> answer :=
  scripted [ans 0; ans 7; ans 255; ans_bytes 24 (llm_bytes 10 0 96 0);
            ans 1; ans_bytes 96 (replicate 96 x01); ans 0].

(** The allocator grants a block, then the daemon acknowledges a
    command that comes with variable data. *)
Definition block_then_acknowledged : nat -> answer :=
  scripted [ans 1; ans 0; ans 7; ans 255; ans 5;
            ans_bytes 24 (llm_bytes 10 0 0 0); ans 0].

(** The allocator grants a block, then the daemon acknowledges a
    command without data. *)
Definition handle_then_acknowledged : nat -> answer :=
  scripted [ans 1; ans 0; ans 7; ans 255;
            ans_bytes 24 (llm_bytes 10 0 0 0); ans 0].

(** The daemon sends 4 bytes of data, then fails. *)
Definition four_bytes : nat -> answer :=
  scripted [ans 1; ans_bytes 4 [x01; x02; x03; x04]].

(** A stop, a check that says not pending, and a start, all
    acknowledged. *)
Definition stop_then_start : nat -> answer :=
  scripted ([ans 0; ans 7; ans 255; ans_bytes 24 (llm_bytes 10 0 0 0); ans 0]
            ++ one_byte_reply x00
            ++ [ans 0; ans 7; ans 255; ans_bytes 24 (llm_bytes 10 0 0 0);
                ans 0]).

(** An application context of the provider "p" named "ctx". *)
Definition app_context : lttng_event_context :=
  {| ctx := LTTNG_EVENT_CONTEXT_APP_CONTEXT;
     ctx_u := app_ctx (Some (list_byte_of_string "p"))
                (Some (list_byte_of_string "ctx")) |}.

(** An application context whose name is empty. *)
Definition unnamed_app_context : lttng_event_context :=
  {| ctx := LTTNG_EVENT_CONTEXT_APP_CONTEXT;
     ctx_u := app_ctx (Some (list_byte_of_string "p")) (Some []) |}.

(** A handle whose domain type is not a value of the enumeration. *)
Definition wild_handle : lttng_handle :=
  {| h_session_name := replicate 255 x41;
     h_domain := {| dom_type := LTTNG_DOMAIN_invalid 77;
                    dom_attr := Some [x01] |} |}.

(** A channel with its extended part. *)
Definition sample_channel : lttng_channel :=
  {| chan_other := [];
     attr_extended := Some {| discarded_events := 3; lost_packets := 4;
                              monitor_timer_interval := 1000000;
                              blocking_timeout := 0 |} |}.

(** A channel as a listing of another kind leaves it. *)
Definition bare_channel : lttng_channel :=
  {| chan_other := []; attr_extended := None |}.

(** A user who is not root and does not belong to the tracing group
    27, on a system where every socket accepts connections. *)
Definition plain_user : SocketPath.process :=
  {| SocketPath.getuid := 1000;
     SocketPath.tracing_gid := Some 27;
     SocketPath.getgroups_size := 2;
     SocketPath.grp_list_allocated := true;
     SocketPath.getgroups_ret := 2;
     SocketPath.getgroups_list := [1000; 100];
     SocketPath.access_ok := fun _ => true;
     SocketPath.connect_ok := fun _ => true;
     SocketPath.snprintf_home :=
       (36, list_byte_of_string "/home/u/.lttng/client-lttng-sessiond") |}.

(** The library in the middle of a request, connected on descriptor
    7. *)
Definition connected_state (w : nat -> answer) : state :=
  {| sessiond_socket := 7; connected := true; heap := ∅;
     next_block := 0; trace := []; clock := 0; world := w |}.

(** The daemon answers [LTTNG_LIST_EVENTS] with a command header that
    announces one event, and 28 bytes: the record of 16 bytes and an
    extended header that announces nothing; the client obtains the
    memory for the reply, its copy and the listing. *)
Definition one_event_listed : nat -> answer :=
  scripted [ans 0; ans 7; ans 255;
            ans 1; ans_bytes 24 (llm_bytes 10 4 28 0);
            ans 1; ans_bytes 4 (enc32 1);
            ans 1; ans_bytes 28 (replicate 16 x07 ++ replicate 12 x00);
            ans 0; ans 1; ans 1].
Section Strings.

Lemma c_str_nul_free mem : Forall (fun b => Byte.eqb b x00 = false) (c_str mem).
Proof.
  induction mem as [|b mem IH]; simpl; [constructor|].
  destruct (Byte.eqb b x00) eqn:E; [constructor|]. by constructor.
Qed.

Lemma c_str_idem mem : c_str (c_str mem) = c_str mem.
Proof.
  induction mem as [|b mem IH]; simpl; [done|].
  destruct (Byte.eqb b x00) eqn:E; simpl; [done|]. by rewrite E, IH.
Qed.

Lemma c_str_take_padded cs m n rest :
  Forall (fun b => Byte.eqb b x00 = false) cs ->
  c_str (take m (cs ++ replicate n x00) ++ x00 :: rest) = take m cs.
Proof.
  intros Hcs. revert m. induction Hcs as [|b cs Hb Hcs IH]; intros m.
  - simpl. destruct m, n; simpl; try done.
  - destruct m as [|m]; simpl; [done|]. by rewrite Hb, IH.
Qed.

Lemma insert_last_take {A} (l : list A) n x :
  (n < length l)%nat -> <[n := x]> (take (S n) l) = take n l ++ [x].
Proof.
  revert n. induction l as [|a l IH]; intros [|n] Hn; simpl in *; try lia.
  - by rewrite take_0.
  - f_equal. apply IH. lia.
Qed.

Lemma copy_string_value d s len :
  1 <= len <= Z.of_nat (length d) ->
  lttng_ctl_copy_string (Some d) (Some s) len =
  Some (Some (take (Z.to_nat (len - 1)) (c_str s ++ replicate (Z.to_nat len) x00)
              ++ x00 :: drop (Z.to_nat len) d)).
Proof.
  intros Hlen. unfold lttng_ctl_copy_string, strncpy.
  replace ((1 <=? len) && (len <=? Z.of_nat (length d))) with true
    by (symmetry; apply andb_true_iff; lia).
  do 2 f_equal.
  set (padded := c_str s ++ replicate (Z.to_nat len) x00).
  assert (Hp : (Z.to_nat (len - 1) < length padded)%nat).
  { unfold padded. rewrite length_app, length_replicate. lia. }
  replace (Z.to_nat len) with (S (Z.to_nat (len - 1))) at 1 by lia.
  rewrite insert_app_l by (rewrite length_take; lia).
  rewrite insert_last_take by done.
  by rewrite <- app_assoc.
Qed.

End Strings.

(* ================================================================== *)
(** * Symbolic execution of the monad *)

(** The code is run on a state given by its fields; the run stops at the
    first condition that the inputs or the world decide, which is then
    split. *)
Ltac run_in H :=
  cbv beta iota zeta delta
    [recv_payload_sessiond lttng_dynamic_buffer_append
     lttng_dynamic_buffer_set_size lttng_dynamic_buffer_set_capacity
     end_ disconnect_sessiond
     reset_global_sessiond_connection_state recv_sessiond_optional_data
     recv_data_sessiond send_session_fds send_session_varlen send_session_msg
     connect_sessiond set_session_daemon_path zmalloc free store
     lttcomm_connect_unix_sock lttcomm_close_unix_sock
     lttcomm_send_creds_unix_sock lttcomm_send_unix_sock
     lttcomm_send_fds_unix_sock lttcomm_recv_unix_sock lttcomm_recv_fds usleep
     ask_world set_heap set_connection get bind Return fail
     sessiond_socket connected heap next_block trace clock world
     buffer _fd_handles data _capacity negb] in H.

Ltac app_head t := lazymatch t with ?f _ => app_head f | _ => t end.

Ltac head_scrutinee x :=
  let h := app_head x in
  lazymatch h with
  | match ?y with _ => _ end => head_scrutinee y
  | _ => x
  end.

Ltac step H :=
  lazymatch type of H with
  | ?lhs = _ =>
      let x := head_scrutinee lhs in
      lazymatch x with
      | Done _ _ => fail
      | Fault _ => fail
      | _ =>
        first [ rewrite lookup_insert_eq in H
              | change x with true in H | change x with false in H
              | destruct x eqn:? ];
        run_in H; try discriminate H
      end
  end.

Ltac run H := run_in H; repeat step H; simplify_eq.

(* ================================================================== *)
(** * Reasoning about runs *)

Lemma new_events_app s s' t : trace s' = trace s ++ t -> new_events s s' = t.
Proof. intros Ht. unfold new_events. rewrite Ht. apply drop_app_length. Qed.

Lemma bind_done {A B} (m : M A) (k : A -> M B) s b s'' :
  bind m k s = Done b s'' ->
  exists a s', m s = Done a s' /\ k a s' = Done b s''.
Proof.
  unfold bind. destruct (m s) as [a s'|f]; [|discriminate]. eauto.
Qed.

Lemma Return_done {A} (a b : A) s s' : Return a s = Done b s' -> a = b /\ s = s'.
Proof. unfold Return. by intros [= -> ->]. Qed.

(** One step of a run: the first call of a sequence is split off, or the
    run has ended. *)
Ltac invert_run H :=
  lazymatch type of H with
  | bind _ _ _ = Done _ _ =>
      let a := fresh "a" in let s := fresh "s" in let Hm := fresh "Hcall" in
      apply bind_done in H as (a & s & Hm & H); cbv beta in H
  | Return _ _ = Done _ _ => apply Return_done in H as [? ?]; subst
  | fail _ _ = Done _ _ => discriminate H
  end.

(** ** What a computation adds to the log *)

Lemma adds_ret {A} P (a : A) : adds P (Return a).
Proof. intros s b s' [-> ->]%Return_done. exists []. by rewrite app_nil_r. Qed.

Lemma adds_fail {A} P f : adds P (@fail A f).
Proof. by intros s b s' ?. Qed.

Lemma adds_get P : adds P get.
Proof. intros s b s' [= -> ->]. exists []. by rewrite app_nil_r. Qed.

Lemma adds_set_heap P h n : adds P (set_heap h n).
Proof. intros s b s' [= <- <-]. exists []. simpl. by rewrite app_nil_r. Qed.

Lemma adds_set_connection P sock c : adds P (set_connection sock c).
Proof. intros s b s' [= <- <-]. exists []. simpl. by rewrite app_nil_r. Qed.

Lemma adds_ask_world P mk : (forall a, P (mk a)) -> adds P (ask_world mk).
Proof. intros HP s b s' [= <- <-]. eexists; split; [done|]. by repeat constructor. Qed.

Lemma adds_bind {A B} P (m : M A) (k : A -> M B) :
  adds P m -> (forall a, adds P (k a)) -> adds P (bind m k).
Proof.
  intros Hm Hk s b s'' (a & s' & H1 & H2)%bind_done.
  destruct (Hm _ _ _ H1) as (t1 & E1 & F1).
  destruct (Hk _ _ _ _ H2) as (t2 & E2 & F2).
  exists (t1 ++ t2). split; [by rewrite E2, E1, app_assoc|by apply Forall_app].
Qed.

Lemma adds_weaken {A} (P Q : event -> Prop) (m : M A) :
  (forall e, P e -> Q e) -> adds P m -> adds Q m.
Proof.
  intros HPQ Hm s a s' Hrun. destruct (Hm _ _ _ Hrun) as (t & E & F).
  exists t. split; [done|]. eapply Forall_impl; eauto.
Qed.

(** The traversal of a computation built from the combinators above;
    a function whose property is already known is closed by [auto with
    adds], any other is unfolded. *)
Create HintDb adds discriminated.

Ltac adds_step :=
  lazymatch goal with
  | |- adds _ (bind _ _) => apply adds_bind; [|intros ?]
  | |- adds _ (Return _) => apply adds_ret
  | |- adds _ (fail _) => apply adds_fail
  | |- adds _ get => apply adds_get
  | |- adds _ (set_heap _ _) => apply adds_set_heap
  | |- adds _ (set_connection _ _) => apply adds_set_connection
  | |- adds _ (ask_world _) => apply adds_ask_world; intros ?; simpl; auto
  | |- adds _ (if ?c then _ else _) =>
      first [ change c with true; cbv iota | change c with false; cbv iota
            | destruct c ]
  | |- adds _ (match ?x with _ => _ end) => destruct x
  | |- adds _ ?m =>
      first [ solve [auto with adds]
            | let h := app_head m in unfold h ]
  end.

Ltac adds_tac := repeat adds_step.

(** ** What holds when a computation returns *)

Lemma hoare_bind {A B} P R Q (m : M A) (k : A -> M B) :
  hoare P m R -> (forall a, hoare (R a) (k a) Q) -> hoare P (bind m k) Q.
Proof.
  intros Hm Hk s b s'' HP (a & s' & H1 & H2)%bind_done.
  eapply Hk; [|done]. eapply Hm; eauto.
Qed.

Lemma hoare_ret {A} (P : state -> Prop) (Q : A -> state -> Prop) a :
  (forall s, P s -> Q a s) -> hoare P (Return a) Q.
Proof. intros HPQ s b s' HP [-> ->]%Return_done. auto. Qed.

Lemma hoare_fail {A} P f (Q : A -> state -> Prop) : hoare P (fail f) Q.
Proof. by intros s b s' _ ?. Qed.

Lemma hoare_pre {A} (P P' : state -> Prop) (m : M A) Q :
  (forall s, P' s -> P s) -> hoare P m Q -> hoare P' m Q.
Proof. intros HP Hm s a s' ? ?. eapply Hm; eauto. Qed.

Lemma hoare_post {A} P (m : M A) (Q Q' : A -> state -> Prop) :
  (forall a s, Q a s -> Q' a s) -> hoare P m Q -> hoare P m Q'.
Proof. intros HQ Hm s a s' ? ?. eapply HQ, Hm; eauto. Qed.

(** The traversal of a body under an invariant: [pres] shows that a
    call keeps the invariant, [leaf] concludes at the label [end]. *)
Ltac hoare_walk pres leaf :=
  repeat lazymatch goal with
  | |- hoare ?P (bind _ _) _ =>
      eapply (hoare_bind _ (fun _ => P)); [ solve [pres] | intros ? ]
  | |- hoare _ (end_ _ _) _ => leaf
  | |- hoare _ (fail _) _ => apply hoare_fail
  | |- hoare _ (if ?c then _ else _) _ => destruct c eqn:?
  | |- hoare _ (match ?x with _ => _ end) _ => destruct x eqn:?
  end.


(** ** Computations that leave the connection alone *)

Lemma keeps_ret {A} (a : A) : keeps_connection (Return a).
Proof. by intros s b s' [-> ->]%Return_done. Qed.

Lemma keeps_fail {A} f : keeps_connection (@fail A f).
Proof. by intros s b s' ?. Qed.

Lemma keeps_get : keeps_connection get.
Proof. by intros s b s' [= -> ->]. Qed.

Lemma keeps_set_heap h n : keeps_connection (set_heap h n).
Proof. by intros s b s' [= <- <-]. Qed.

Lemma keeps_ask_world mk : keeps_connection (ask_world mk).
Proof. by intros s b s' [= <- <-]. Qed.

Lemma keeps_bind {A B} (m : M A) (k : A -> M B) :
  keeps_connection m -> (forall a, keeps_connection (k a)) ->
  keeps_connection (bind m k).
Proof.
  intros Hm Hk s b s'' (a & s' & H1 & H2)%bind_done.
  destruct (Hm _ _ _ H1) as [E1 F1]. destruct (Hk _ _ _ _ H2) as [E2 F2].
  split; congruence.
Qed.

Ltac keeps_step :=
  lazymatch goal with
  | |- keeps_connection (bind _ _) => apply keeps_bind; [|intros ?]
  | |- keeps_connection (Return _) => apply keeps_ret
  | |- keeps_connection (fail _) => apply keeps_fail
  | |- keeps_connection get => apply keeps_get
  | |- keeps_connection (set_heap _ _) => apply keeps_set_heap
  | |- keeps_connection (ask_world _) => apply keeps_ask_world
  | |- keeps_connection (if ?c then _ else _) => destruct c
  | |- keeps_connection (match ?x with _ => _ end) => destruct x
  | |- keeps_connection ?m => let h := app_head m in unfold h
  end.

Ltac keeps_tac := repeat keeps_step.

(* ================================================================== *)
(** * The request paths *)

Section TransportFacts.
Context `{Externals}.

(** ** The events of one exchange *)

Lemma reads_app l1 l2 : reads (l1 ++ l2) = reads l1 ++ reads l2.
Proof. induction l1 as [|[] l1 IH]; simpl; try done; by rewrite IH. Qed.

Lemma reads_nil l : Forall not_a_read l -> reads l = [].
Proof. induction 1 as [|[] l Hx Hl IH]; simpl in *; done. Qed.

Lemma sleeps_app l1 l2 : sleeps (l1 ++ l2) = (sleeps l1 + sleeps l2)%nat.
Proof. induction l1 as [|[] l1 IH]; simpl; try done; by rewrite IH. Qed.

Lemma exchanges_app l1 l2 :
  exchanges (l1 ++ l2) = (exchanges l1 + exchanges l2)%nat.
Proof. induction l1 as [|[] l1 IH]; simpl; try done; by rewrite IH. Qed.

Lemma commands_app l1 l2 : commands (l1 ++ l2) = commands l1 ++ commands l2.
Proof.
  induction l1 as [|[| |? [] ?| | | | | | |] l1 IH]; simpl; try done;
    by rewrite IH.
Qed.

Lemma inner_counts msg l :
  Forall (inner_event msg) l -> sleeps l = 0%nat /\ exchanges l = 0%nat.
Proof. induction 1 as [|[] l Hx Hl IH]; simpl in *; done. Qed.

Lemma inner_commands lsm l :
  Forall (inner_event (WLsm lsm)) l -> Forall (eq (cmd_type lsm)) (commands l).
Proof.
  induction 1 as [|[| |? [] ?| | | | | | |] l Hx Hl IH]; simpl in *;
    try done.
  constructor; [congruence|done].
Qed.

Lemma opened_app l1 l2 fd : opened l1 = Some fd -> opened (l1 ++ l2) = Some fd.
Proof.
  induction l1 as [|[] l1 IH]; simpl; try done; auto.
  destruct (0 <=? ret); auto.
Qed.

(** ** The connection is closed on every path *)

Lemma hoare_in_exchange {A} fd tr0 (m : M A) :
  keeps_connection m -> adds (fun _ => True) m ->
  hoare (in_exchange fd tr0) m (fun _ => in_exchange fd tr0).
Proof.
  intros Hk Ha s a s' (Hc & Hs & t & Ht) Hrun.
  destruct (Hk _ _ _ Hrun) as [E1 E2].
  destruct (Ha _ _ _ Hrun) as (t' & E3 & _).
  unfold in_exchange. rewrite E1, E2, E3.
  repeat split; [done..|]. exists (t ++ t'). by rewrite Ht, app_assoc.
Qed.

Lemma hoare_end {A} fd tr0 ret (out : A) :
  hoare (in_exchange fd tr0) (end_ ret out) (fun _ => closed_after fd tr0).
Proof.
  intros s a s' (Hc & Hs & t & Ht) Hrun. destruct s as [sock conn hp nxt tr clk w].
  simpl in *. subst. run Hrun. repeat split.
  eexists _, _. simpl. by rewrite <- app_assoc.
Qed.

Ltac hoare_step :=
  hoare_walk ltac:(apply hoare_in_exchange; [keeps_tac|adds_tac])
             ltac:(apply hoare_end).

(** What the connect phase logs, and what it leaves untouched. *)
Lemma connect_sessiond_log s ret s' :
  connect_sessiond s = Done ret s' ->
  connected s' = connected s /\ sessiond_socket s' = sessiond_socket s /\
  heap s' = heap s /\ next_block s' = next_block s /\
  exists r t, trace s' = trace s ++ EvResolvePath r :: t /\
    ((ret = -1 /\ opened (EvResolvePath r :: t) = None /\
      (t = [] \/ exists c, t = [EvConnect c]))
     \/ (0 <= ret /\ t = [EvConnect ret])).
Proof.
  intros Hrun. destruct s as [sock conn hp nxt tr clk w].
  run Hrun; simpl; repeat split; eexists _, _;
    (split; [by rewrite <- ?app_assoc|]).
  - left. repeat split. by left.
  - left. simpl. rewrite (proj2 (Z.leb_gt _ _)) by (by apply Z.ltb_lt).
    repeat split. right. by eexists.
  - right. split; [by apply Z.ltb_ge|done].
Qed.

Lemma end_unconnected {A} ret (out : A) s r s' :
  end_ ret out s = Done r s' ->
  r = (ret, out) /\ connected s' = false /\ heap s' = heap s /\
  (sessiond_socket s = -1 -> sessiond_socket s' = -1) /\
  exists t, trace s' = trace s ++ t /\
    Forall (fun e => exists sock rc, e = EvClose sock rc) t.
Proof.
  intros Hrun. destruct s as [sock conn hp nxt tr clk w].
  run Hrun; simpl; repeat split; try done.
  - eexists; split; [done|]. repeat constructor. by eexists _, _.
  - exists []. by rewrite app_nil_r.
Qed.

Lemma opened_closes t :
  Forall (fun e => exists sock rc, e = EvClose sock rc) t -> opened t = None.
Proof. induction 1 as [|e t (sock & rc & ->) Ht IH]; simpl; done. Qed.

Lemma opened_app_None l1 l2 : opened l1 = None -> opened (l1 ++ l2) = opened l2.
Proof.
  induction l1 as [|[] l1 IH]; simpl; try done.
  destruct (0 <=? ret); [done|auto].
Qed.

Lemma last_snoc_app {A} (l1 l2 : list A) x : last (l1 ++ l2 ++ [x]) = Some x.
Proof. by rewrite app_assoc, last_snoc. Qed.

(** Both request paths have the same frame: connect, run the body on
    the connected socket, and leave through [end]. *)
Lemma exchange_closes {A} (body : Z -> M (Z * A)) (out0 : A) s r s' :
  (forall fd tr0, hoare (in_exchange fd tr0) (body fd)
                    (fun _ => closed_after fd tr0)) ->
  (let* ret := connect_sessiond in
   if ret <? 0 then end_ (- LTTNG_ERR_NO_SESSIOND) out0 else
   let* _ := set_connection ret true in body ret) s = Done r s' ->
  connected s' = false /\
  (sessiond_socket s = -1 -> sessiond_socket s' = -1) /\
  (forall fd, opened (new_events s s') = Some fd ->
     sessiond_socket s' = -1 /\
     exists rc, last (new_events s s') = Some (EvClose fd rc)).
Proof.
  intros Hbody Hrun. invert_run Hrun.
  apply connect_sessiond_log in Hcall
    as (Hc & Hs & _ & _ & r0 & t & Ht & Hcase).
  destruct (a <? 0) eqn:Hneg.
  - apply end_unconnected in Hrun as (_ & Hconn & _ & Hsock & t' & Ht' & Hcl).
    destruct Hcase as [(-> & Hop & _)|[Hpos _]]; [|apply Z.ltb_lt in Hneg; lia].
    rewrite (new_events_app s s' ((EvResolvePath r0 :: t) ++ t'))
      by (by rewrite Ht', Ht, <- app_assoc).
    rewrite opened_app_None, opened_closes by done.
    split; [done|]. split; [intros; apply Hsock; congruence|done].
  - destruct Hcase as [(-> & _)|[Hpos ->]]; [done|].
    invert_run Hrun. injection Hcall as <- <-.
    set (tr0 := trace s ++ [EvResolvePath r0; EvConnect a]).
    match type of Hrun with
    | _ ?st = _ =>
        assert (HP : in_exchange a tr0 st)
          by (repeat split; [done..|exists []; simpl; by rewrite app_nil_r, Ht])
    end.
    destruct (Hbody _ _ _ _ _ HP Hrun) as (Hconn & Hsock & t' & rc & Ht').
    rewrite (new_events_app s s' ([EvResolvePath r0; EvConnect a] ++ t' ++ [EvClose a rc]))
      by (by rewrite Ht'; unfold tr0; rewrite <- app_assoc).
    split; [done|]. split; [done|]. simpl.
    rewrite (proj2 (Z.leb_le _ _)) by done. intros fd [= <-].
    split; [done|]. exists rc.
    exact (last_snoc_app [EvResolvePath r0; EvConnect a] t' _).
Qed.

(** C5: on every path on which a request returns, the library is
    unconnected: the flag is cleared, and when the request had opened a
    socket the static is reset to -1 and the last call logged is the
    close of that socket. *)
Theorem request_leaves_unconnected (req : request) s r s' :
  run_request req s = Done r s' ->
  connected s' = false /\
  (sessiond_socket s = -1 -> sessiond_socket s' = -1) /\
  (forall fd, opened (new_events s s') = Some fd ->
     sessiond_socket s' = -1 /\
     exists rc, last (new_events s s') = Some (EvClose fd rc)).
Proof.
  intros Hrun.
  destruct req as [lsm fds nb_fd vardata vardata_len out|message reply];
    unfold run_request in Hrun; invert_run Hrun; destruct a as [ret o];
    invert_run Hrun.
  - unfold lttng_ctl_ask_sessiond_fds_varlen in Hcall.
    refine (exchange_closes (fun _ => _) _ _ _ _ _ Hcall).
    intros fd tr0. repeat hoare_step.
  - unfold lttng_ctl_ask_sessiond_payload in Hcall.
    destruct (negb (buffer_size (buffer reply) =? 0)); [done|].
    destruct (negb (Z.of_nat (length (_fd_handles reply)) =? 0)); [done|].
    refine (exchange_closes (fun _ => _) _ _ _ _ _ Hcall).
    intros fd tr0. repeat hoare_step.
Qed.

End TransportFacts.

(* ================================================================== *)
(** * Header gating *)

Lemma to_uint32_range z : 0 <= to_uint32 z < 2 ^ 32.
Proof. unfold to_uint32. apply Z.mod_pos_bound. done. Qed.

Lemma to_int_small z : 0 <= z < 2 ^ 31 -> to_int z = z.
Proof.
  intros Hz. unfold to_int.
  assert (2 ^ 31 < 2 ^ 32) by done.
  rewrite Z.mod_small by lia.
  by rewrite (proj2 (Z.ltb_lt _ _)) by lia.
Qed.

(** The C expression [-llm.ret_code], an unsigned negation converted to
    [int], is the negation of every code up to [2^31]. *)
Lemma negated_code rc : 0 <= rc <= 2 ^ 31 -> to_int (to_uint32 (- rc)) = - rc.
Proof.
  intros Hrc. unfold to_int, to_uint32. rewrite Z.mod_mod by done.
  assert (E32 : 2 ^ 32 = 2 * 2 ^ 31) by done.
  destruct (decide (rc = 0)) as [->|Hnz]; [done|].
  rewrite <- (Z.mod_unique_pos (- rc) (2 ^ 32) (-1) (2 ^ 32 - rc)) by lia.
  rewrite (proj2 (Z.ltb_ge _ _)) by lia. lia.
Qed.

(** For a larger code the expression wraps to a positive value. *)
Lemma wrapped_code rc :
  2 ^ 31 < rc < 2 ^ 32 -> to_int (to_uint32 (- rc)) = 2 ^ 32 - rc.
Proof.
  intros Hrc. unfold to_int, to_uint32. rewrite Z.mod_mod by done.
  rewrite <- (Z.mod_unique_pos (- rc) (2 ^ 32) (-1) (2 ^ 32 - rc)) by lia.
  rewrite (proj2 (Z.ltb_lt _ _)) by lia. done.
Qed.

Section Gating.
Context `{Externals}.

Lemma hoare_nothing_read {A} s (m : M A) :
  adds not_a_read m -> hoare (nothing_read s) m (fun _ => nothing_read s).
Proof.
  intros Ha st a st' (t & Ht & Ft) Hrun.
  destruct (Ha _ _ _ Hrun) as (t' & Ht' & Ft').
  exists (t ++ t'). split; [by rewrite Ht', Ht, app_assoc|by apply Forall_app].
Qed.

Lemma hoare_header_ok {A} s (m : M A) :
  adds (fun _ => True) m -> hoare (header_ok s) m (fun _ => header_ok s).
Proof.
  intros Ha st a st' (t & sock & len & n & bytes & t' & Ht & Ft & Hok) Hrun.
  destruct (Ha _ _ _ Hrun) as (t'' & Ht'' & _).
  exists t, sock, len, n, bytes, (t' ++ t''). repeat split; [|done..].
  rewrite Ht'', Ht. by rewrite <- !app_assoc.
Qed.

Lemma end_nothing_read {A} s ret (out : A) :
  hoare (nothing_read s) (end_ ret out) (gated s).
Proof.
  intros st r s' (t & Ht & Ft) Hrun.
  assert (Ha : adds not_a_read (end_ ret out)) by adds_tac.
  destruct (Ha _ _ _ Hrun) as (t' & Ht' & Ft').
  intros sock len n bytes Hhead.
  rewrite (new_events_app s s' (t ++ t')) in Hhead
    by (by rewrite Ht', Ht, app_assoc).
  by rewrite reads_app, !reads_nil in Hhead.
Qed.

Lemma end_header_ok {A} s ret (out : A) :
  hoare (header_ok s) (end_ ret out) (gated s).
Proof.
  intros st r s' (t & sock & len & n & bytes & t' & Ht & Ft & Hok) Hrun.
  assert (Ha : adds (fun _ => True) (end_ ret out)) by adds_tac.
  destruct (Ha _ _ _ Hrun) as (t'' & Ht'' & _).
  intros sock' len' n' bytes' Hhead Hn Hlen Hcode.
  rewrite (new_events_app s s' (t ++ EvRecv sock len n bytes :: t' ++ t''))
    in Hhead by (rewrite Ht'', Ht; by rewrite <- !app_assoc).
  rewrite reads_app, reads_nil in Hhead by done. simpl in Hhead.
  injection Hhead as -> -> -> ->. by destruct Hcode; apply Hok.
Qed.

(** The label [end] right after the header: the receive failed, or the
    header carries a code that is not [LTTNG_OK]. *)
Lemma end_at_header {A} s t sock len n bytes (ret : Z) (out : A) st r s' :
  trace st = trace s ++ t ++ [EvRecv sock len n bytes] ->
  Forall not_a_read t ->
  (0 <= n -> length bytes = Z.to_nat sizeof_lttcomm_lttng_msg ->
   ret = to_int (to_uint32 (- ret_code (read_llm bytes)))) ->
  end_ ret out st = Done r s' ->
  gated s r s'.
Proof.
  intros Ht Ft Hret Hrun.
  assert (Ha : adds not_a_read (end_ ret out)) by adds_tac.
  destruct (Ha _ _ _ Hrun) as (t' & Ht' & Ft').
  apply end_unconnected in Hrun as (-> & _).
  intros sock' len' n' bytes' Hhead Hn Hlen Hcode.
  rewrite (new_events_app s s' (t ++ [EvRecv sock len n bytes] ++ t'))
    in Hhead |- * by (rewrite Ht', Ht; by rewrite <- !app_assoc).
  rewrite !reads_app, (reads_nil t), (reads_nil t') in Hhead |- * by done.
  simpl in *. injection Hhead as -> -> -> ->. split; [|done].
  by apply Hret.
Qed.

Lemma recv_data_sessiond_log len s ret bytes s' :
  recv_data_sessiond len s = Done (ret, bytes) s' ->
  (trace s' = trace s /\ ret < 0) \/
  exists sock n, trace s' = trace s ++ [EvRecv sock len n bytes] /\
    ((n < 0 /\ ret < 0) \/ (0 <= n /\ ret = n)).
Proof.
  intros Hrun. destruct s as [sock conn hp nxt tr clk w].
  run Hrun; simpl.
  - right. eexists _, _. split; [done|]. left. split; [by apply Z.ltb_lt|lia].
  - right. eexists _, _. split; [done|]. right. split; [by apply Z.ltb_ge|done].
  - left. split; [done|lia].
Qed.

Ltac walk_unread :=
  hoare_walk ltac:(apply hoare_nothing_read; adds_tac)
             ltac:(apply end_nothing_read).

Ltac walk_header_ok :=
  hoare_walk ltac:(apply hoare_header_ok; adds_tac)
             ltac:(apply end_header_ok).

Lemma fds_varlen_gated lsm fds nb_fd vardata vardata_len out s r s' :
  lttng_ctl_ask_sessiond_fds_varlen lsm fds nb_fd vardata vardata_len out s
    = Done r s' ->
  gated s r s'.
Proof.
  intros Hrun.
  assert (Hh : hoare (nothing_read s)
    (lttng_ctl_ask_sessiond_fds_varlen lsm fds nb_fd vardata vardata_len out)
    (gated s)).
  { unfold lttng_ctl_ask_sessiond_fds_varlen. walk_unread.
    (* the header *)
    intros st r' st' (t & Ht & Ft) Hbody. invert_run Hbody.
    match goal with
    | Hc : recv_data_sessiond _ _ = Done ?x _ |- _ => destruct x as [ret bytes]
    end.
    apply recv_data_sessiond_log in Hcall
      as [[Etr Hneg]|(sock & n & Etr & Hn)].
    - rewrite (proj2 (Z.ltb_lt _ _)) in Hbody by done.
      eapply end_nothing_read; [|done]. exists t. by rewrite Etr.
    - rewrite Ht, <- app_assoc in Etr.
      destruct (ret <? 0) eqn:Hret.
      + eapply end_at_header; [done..| |done].
        intros Hpos _. apply Z.ltb_lt in Hret. lia.
      + destruct (negb (ret_code (read_llm bytes) =? LTTNG_OK)) eqn:Hcode.
        * eapply end_at_header; [done..| |done]. done.
        * match type of Hbody with
          | ?m _ = _ =>
              assert (Hw : hoare (header_ok s) m (gated s)) by walk_header_ok
          end.
          eapply Hw; [|done].
          eexists t, sock, _, n, bytes, []. repeat split; [done..|].
          intros _. apply negb_false_iff in Hcode. by apply Z.eqb_eq. }
  eapply Hh; [|done]. exists []. by rewrite app_nil_r.
Qed.

Lemma set_size_data b new_size s b' s' :
  lttng_dynamic_buffer_set_size b new_size s = Done (0, b') s' ->
  data b' = resize (data b) (Z.to_nat new_size).
Proof.
  intros Hrun. destruct s as [sock conn hp nxt tr clk w].
  run Hrun; simpl; try done.
  apply Z.eqb_eq in Heqb0 as ->. unfold buffer_size, resize.
  by rewrite Nat2Z.id, firstn_all, Nat.sub_diag, app_nil_r.
Qed.

Lemma overlay_full old bytes :
  length bytes = length old -> overlay old bytes = bytes.
Proof.
  intros Hlen. unfold overlay.
  by rewrite Hlen, drop_all, app_nil_r, <- Hlen, firstn_all.
Qed.

Lemma recv_payload_sessiond_log payload len s ret payload' s' :
  data (buffer payload) = [] ->
  recv_payload_sessiond payload len s = Done (ret, payload') s' ->
  exists t, Forall not_a_read t /\
    ((trace s' = trace s ++ t /\ ret < 0) \/
     exists sock n bytes,
       trace s' = trace s ++ t ++ [EvRecv sock len n bytes] /\
       ((n < 0 /\ ret < 0) \/ (0 <= n /\ ret = n)) /\
       data (buffer payload') = overlay (replicate (Z.to_nat len) x00) bytes).
Proof.
  intros Hempty Hrun. unfold recv_payload_sessiond in Hrun.
  invert_run Hrun. destruct a as [ret0 b].
  assert (Ha : adds not_a_read
                 (lttng_dynamic_buffer_set_size (buffer payload)
                    (buffer_size (buffer payload) + len))) by adds_tac.
  destruct (Ha _ _ _ Hcall) as (t & Ht & Ft). exists t. split; [done|].
  destruct (negb (ret0 =? 0)) eqn:Hret0.
  - invert_run Hrun. simplify_eq. left. split; [done|lia].
  - apply negb_false_iff, Z.eqb_eq in Hret0 as ->.
    apply set_size_data in Hcall. invert_run Hrun. destruct a as [ret1 bytes].
    invert_run Hrun. simplify_eq. simpl.
    unfold buffer_size in *. rewrite Hempty in *. simpl in *.
    apply recv_data_sessiond_log in Hcall0
      as [[Etr Hneg]|(sock & n & Etr & Hn)].
    + left. split; [congruence|done].
    + right. exists sock, n, bytes. rewrite Etr, Ht, <- app_assoc.
      split; [done|]. split; [done|]. rewrite Hcall.
      change (Z.of_nat 0) with 0. rewrite Z.add_0_l. change (Z.to_nat 0) with 0%nat.
      unfold resize. rewrite take_nil. cbn [length app drop].
      by rewrite Nat.sub_0_r.
Qed.

Lemma payload_gated message reply s r s' :
  lttng_ctl_ask_sessiond_payload message reply s = Done r s' ->
  gated s r s'.
Proof.
  intros Hrun.
  assert (Hh : hoare (nothing_read s)
    (lttng_ctl_ask_sessiond_payload message reply) (gated s)).
  { unfold lttng_ctl_ask_sessiond_payload.
    destruct (negb (buffer_size (buffer reply) =? 0)) eqn:Hsize;
      [apply hoare_fail|].
    destruct (negb (Z.of_nat (length (_fd_handles reply)) =? 0));
      [apply hoare_fail|].
    assert (Hempty : data (buffer reply) = []).
    { apply negb_false_iff, Z.eqb_eq in Hsize. unfold buffer_size in Hsize.
      destruct (data (buffer reply)); [done|simpl in Hsize; lia]. }
    walk_unread.
    (* the header *)
    intros st r' st' (t & Ht & Ft) Hbody. invert_run Hbody.
    match goal with
    | Hc : recv_payload_sessiond _ _ _ = Done ?x _ |- _ =>
        destruct x as [ret reply']
    end.
    apply recv_payload_sessiond_log in Hcall
      as (t' & Ft' & [[Etr Hneg]|(sock & n & bytes & Etr & Hn & Hdata)]);
      [| |done].
    - rewrite (proj2 (Z.ltb_lt _ _)) in Hbody by done.
      eapply end_nothing_read; [|done]. exists (t ++ t').
      split; [by rewrite Etr, Ht, app_assoc|by apply Forall_app].
    - rewrite Ht, <- !app_assoc, (app_assoc t t') in Etr.
      assert (Ftt : Forall not_a_read (t ++ t')) by (by apply Forall_app).
      assert (Hhdr : length bytes = Z.to_nat sizeof_lttcomm_lttng_msg ->
                take (Z.to_nat sizeof_lttcomm_lttng_msg) (data (buffer reply'))
                = bytes).
      { intros Hlen. rewrite Hdata, overlay_full
          by (by rewrite length_replicate).
        by rewrite <- Hlen, firstn_all. }
      destruct (ret <? 0) eqn:Hret.
      + eapply end_at_header; [done..| |done].
        intros Hpos _. apply Z.ltb_lt in Hret. lia.
      + destruct (negb (ret_code (read_llm _) =? LTTNG_OK)) eqn:Hcode.
        * eapply end_at_header; [done..| |done].
          intros _ Hlen. by rewrite Hhdr.
        * match type of Hbody with
          | ?m _ = _ =>
              assert (Hw : hoare (header_ok s) m (gated s)) by walk_header_ok
          end.
          eapply Hw; [|done].
          eexists (t ++ t'), sock, _, n, bytes, [].
          repeat split; [done..|].
          intros Hlen. apply negb_false_iff in Hcode.
          rewrite Hhdr in Hcode by done. by apply Z.eqb_eq. }
  eapply Hh; [|done]. exists []. by rewrite app_nil_r.
Qed.

(** C3, as the code has it: when the header that a request receives
    carries a result code other than [LTTNG_OK], the header is the only
    thing the request reads: no command header, data or descriptor
    section, whatever lengths the header declares.  The request returns
    the C expression [-llm.ret_code], a 32-bit unsigned negation
    converted to [int]: the negation of every code up to [2^31], and
    [2^32] minus the code, a positive value, for a larger code. *)
Theorem header_gating (req : request) s ret out s' sock len n bytes :
  run_request req s = Done (ret, out) s' ->
  head (reads (new_events s s')) = Some (EvRecv sock len n bytes) ->
  0 <= n ->
  length bytes = Z.to_nat sizeof_lttcomm_lttng_msg ->
  ret_code (read_llm bytes) <> LTTNG_OK ->
  ret = to_int (to_uint32 (- ret_code (read_llm bytes))) /\
  (ret_code (read_llm bytes) <= 2 ^ 31 -> ret = - ret_code (read_llm bytes)) /\
  (2 ^ 31 < ret_code (read_llm bytes) ->
   ret = 2 ^ 32 - ret_code (read_llm bytes) /\ 0 < ret) /\
  reads (new_events s s') = [EvRecv sock len n bytes].
Proof.
  intros Hrun Hhead Hn Hlen Hcode.
  assert (Hg : gated s (ret, out) s').
  { destruct req; unfold run_request in Hrun; invert_run Hrun;
      destruct a as [ret' o]; invert_run Hrun; simplify_eq.
    - apply fds_varlen_gated in Hcall. intros ? ? ? ? ? ? ? ?.
      by eapply Hcall.
    - apply payload_gated in Hcall. intros ? ? ? ? ? ? ? ?.
      by eapply Hcall. }
  destruct (Hg _ _ _ _ Hhead Hn Hlen Hcode) as [Hret Hreads].
  simpl in Hret. split; [done|].
  pose proof (to_uint32_range (ret_code (decode_lttcomm_lttng_msg bytes)))
    as Hrange.
  split; [|split; [|done]].
  - intros Hsmall. rewrite Hret. apply negated_code. simpl in *. lia.
  - intros Hlarge. rewrite Hret. simpl in *.
    rewrite wrapped_code by lia. lia.
Qed.

End Gating.
(* ================================================================== *)
(** * What a failed request leaves to its caller *)

Lemma mem_ret {A} (a : A) : keeps_memory (Return a).
Proof. by intros s b s' [-> ->]%Return_done. Qed.

Lemma mem_fail {A} f : keeps_memory (@fail A f).
Proof. by intros s b s' ?. Qed.

Lemma mem_get : keeps_memory get.
Proof. by intros s b s' [= -> ->]. Qed.

Lemma mem_set_connection sock c : keeps_memory (set_connection sock c).
Proof. by intros s b s' [= <- <-]. Qed.

Lemma mem_ask_world mk : keeps_memory (ask_world mk).
Proof. by intros s b s' [= <- <-]. Qed.

Lemma mem_bind {A B} (m : M A) (k : A -> M B) :
  keeps_memory m -> (forall a, keeps_memory (k a)) -> keeps_memory (bind m k).
Proof.
  intros Hm Hk s b s'' (a & s' & H1 & H2)%bind_done.
  destruct (Hm _ _ _ H1) as [E1 F1]. destruct (Hk _ _ _ _ H2) as [E2 F2].
  split; congruence.
Qed.

Ltac mem_step :=
  lazymatch goal with
  | |- keeps_memory (bind _ _) => apply mem_bind; [|intros ?]
  | |- keeps_memory (Return _) => apply mem_ret
  | |- keeps_memory (fail _) => apply mem_fail
  | |- keeps_memory get => apply mem_get
  | |- keeps_memory (set_connection _ _) => apply mem_set_connection
  | |- keeps_memory (ask_world _) => apply mem_ask_world
  | |- keeps_memory (if ?c then _ else _) => destruct c
  | |- keeps_memory (match ?x with _ => _ end) => destruct x
  | |- keeps_memory ?m => let h := app_head m in unfold h
  end.

Ltac mem_tac := repeat mem_step.

Section Ownership.
Context `{Externals}.

Lemma recv_sessiond_optional_data_memory len ub ul s ret ub' ul' s' :
  recv_sessiond_optional_data len ub ul s = Done (ret, ub', ul') s' ->
  heap s !! next_block s = None ->
  (ret < 0 /\ ub' = ub /\ ul' = ul /\ heap s' = heap s /\
   (next_block s <= next_block s' <= S (next_block s))%nat) \/
  (0 <= ret /\ heap s' = heap s /\ next_block s' = next_block s /\
   ub' = match ub with Some _ => Some None | None => None end) \/
  (0 <= ret /\ next_block s' = S (next_block s) /\
   exists bytes, ub' = Some (Some (next_block s)) /\
     heap s' = <[next_block s := bytes]> (heap s)).
Proof.
  intros Hrun Hfresh. destruct s as [sock conn hp nxt tr clk w].
  run Hrun; simpl in *.
  all: rewrite ?insert_insert_eq, ?delete_insert_id by done.
  all: try (left; repeat split; (done || lia)).
  all: try (right; left; repeat split; (done || lia)).
  right; right.
  match goal with Hge : (_ <? 0) = false |- _ => apply Z.ltb_ge in Hge end.
  repeat split; [done|]. by eexists.
Qed.

Lemma hoare_unread_untouched {A} s (m : M A) :
  adds not_a_read m -> keeps_memory m ->
  hoare (unread_untouched s) m (fun _ => unread_untouched s).
Proof.
  intros Ha Hm st a st' (Hnr & Hheap & Hnext) Hrun.
  destruct (Hm _ _ _ Hrun) as [E1 E2].
  split; [by eapply (hoare_nothing_read s m Ha)|]. split; congruence.
Qed.

Lemma end_result {A} ret (out : A) st r s' :
  end_ ret out st = Done r s' ->
  r = (ret, out) /\ heap s' = heap st /\ next_block s' = next_block st /\
  exists t, trace s' = trace st ++ t.
Proof.
  intros Hrun.
  assert (Hm : keeps_memory (end_ ret out)) by mem_tac.
  assert (Ha : adds (fun _ => True) (end_ ret out)) by adds_tac.
  destruct (Hm _ _ _ Hrun) as [E1 E2].
  destruct (Ha _ _ _ Hrun) as (t & Ht & _).
  apply end_unconnected in Hrun as (-> & _). eauto.
Qed.

Lemma end_unread_untouched s out ret out' :
  user_payload_buf out' = user_payload_buf out ->
  user_cmd_header_buf out' = user_cmd_header_buf out \/
  user_cmd_header_buf out' = Some None ->
  hoare (unread_untouched s) (end_ ret out')
    (fun r s' => failed_outputs s out r s' \/ answered s r s').
Proof.
  intros Hp Hc st r s' (_ & Hheap & _) Hrun.
  apply end_result in Hrun as (-> & E & _). left.
  split; [done|]. left. split; [congruence|done].
Qed.

Lemma optional_data_log len ub ul :
  adds (fun _ => True) (recv_sessiond_optional_data len ub ul).
Proof. adds_tac. Qed.

Lemma fds_varlen_outputs lsm fds nb_fd vardata vardata_len out s r s' :
  lttng_ctl_ask_sessiond_fds_varlen lsm fds nb_fd vardata vardata_len out s
    = Done r s' ->
  fresh_above s ->
  failed_outputs s out r s' \/ answered s r s'.
Proof.
  intros Hrun Hfresh.
  assert (Hh : hoare (unread_untouched s)
    (lttng_ctl_ask_sessiond_fds_varlen lsm fds nb_fd vardata vardata_len out)
    (fun r s' => failed_outputs s out r s' \/ answered s r s')).
  { unfold lttng_ctl_ask_sessiond_fds_varlen.
    hoare_walk ltac:(apply hoare_unread_untouched; [adds_tac|mem_tac])
               ltac:(apply end_unread_untouched; [done|by left]).
    (* the header *)
    intros st r' st' ((t & Ht & Ft) & Hheap & Hnext) Hbody. invert_run Hbody.
    match goal with
    | Hc : recv_data_sessiond _ _ = Done ?x _ |- _ => destruct x as [ret hdr]
    end.
    assert (Hm : keeps_memory (recv_data_sessiond sizeof_lttcomm_lttng_msg))
      by mem_tac.
    destruct (Hm _ _ _ Hcall) as [Hheap1 Hnext1].
    assert (Hleaf : forall ret0 st0, heap st0 = heap s ->
              hoare (fun x => x = st0) (end_ ret0 out)
                (fun r s' => failed_outputs s out r s' \/ answered s r s')).
    { intros ret0 st0 E0 ? ? ? -> (-> & E & _)%end_result. left.
      split; [done|]. left. split; [congruence|by left]. }
    apply recv_data_sessiond_log in Hcall
      as [[Etr Hneg]|(sock & n & Etr & Hn)].
    { rewrite (proj2 (Z.ltb_lt _ _)) in Hbody by done.
      eapply Hleaf; [|done|done]. congruence. }
    destruct (ret <? 0); [eapply Hleaf; [|done|done]; congruence|].
    destruct (negb _); [eapply Hleaf; [|done|done]; congruence|].
    rewrite Ht, <- app_assoc in Etr.
    (* the command header *)
    invert_run Hbody.
    match goal with
    | Hc : recv_sessiond_optional_data _ _ _ _ = Done ?x _ |- _ =>
        destruct x as [[ret1 ub1] ul1]
    end.
    cbv beta iota zeta in Hbody.
    destruct (optional_data_log _ _ _ _ _ _ Hcall) as (ta & Hta & _).
    assert (Hfr1 : heap s0 !! next_block s0 = None)
      by (rewrite Hheap1, Hnext1, Hheap, Hnext; by apply Hfresh).
    destruct (recv_sessiond_optional_data_memory _ _ _ _ _ _ _ _ Hcall Hfr1)
      as [(Hneg1 & -> & -> & Hheap2 & Hnext2)|Hcmd].
    { rewrite (proj2 (Z.ltb_lt _ _)) in Hbody by done.
      apply end_result in Hbody as (-> & E & _). left.
      split; [done|]. left. split; [congruence|by left]. }
    assert (Hpos1 : (ret1 <? 0) = false)
      by (apply Z.ltb_ge; destruct Hcmd as [[? _]|[? _]]; done).
    rewrite Hpos1 in Hbody.
    (* the data *)
    invert_run Hbody.
    match goal with
    | Hc : recv_sessiond_optional_data _ _ _ _ = Done ?x _ |- _ =>
        destruct x as [[ret2 ub2] ul2]
    end.
    cbv beta iota zeta in Hbody.
    destruct (optional_data_log _ _ _ _ _ _ Hcall0) as (tb & Htb & _).
    destruct (ret2 <? 0) eqn:Hret2.
    - apply Z.ltb_lt in Hret2.
      apply end_result in Hbody as (-> & E & _). left. simpl.
      destruct Hcmd as [(_ & Hheap2 & Hnext2 & ->)
                       |(_ & Hnext2 & bytes & -> & Hheap2)].
      + assert (Hfr2 : heap s1 !! next_block s1 = None) by congruence.
        destruct (recv_sessiond_optional_data_memory _ _ _ _ _ _ _ _
                    Hcall0 Hfr2)
          as [(_ & -> & _ & Hheap3 & _)|[[? _]|[? _]]]; [|lia..].
        split; [done|]. left. split; [congruence|].
        destruct (user_cmd_header_buf out); auto.
      + assert (Hfr2 : heap s1 !! next_block s1 = None).
        { rewrite Hheap2, Hnext2, lookup_insert_ne by lia.
          rewrite Hheap1, Hheap. apply Hfresh. lia. }
        destruct (recv_sessiond_optional_data_memory _ _ _ _ _ _ _ _
                    Hcall0 Hfr2)
          as [(_ & -> & _ & Hheap3 & _)|[[? _]|[? _]]]; [|lia..].
        split; [done|]. right. exists bytes.
        simpl. split; [congruence|].
        rewrite E, Hheap3, Hheap2, Hheap1, Hheap. congruence.
    - apply end_result in Hbody as (-> & _ & _ & tc & Htc). right.
      exists t, sock, sizeof_lttcomm_lttng_msg, n, hdr, (ta ++ tb ++ tc).
      split; [|done]. rewrite Htc, Htb, Hta, Etr.
      by rewrite <- !app_assoc. }
  eapply Hh; [|done]. split; [|done]. exists []. by rewrite app_nil_r.
Qed.

Lemma answered_fits s r s' :
  answered s r s' ->
  (forall sock len n hdr,
     head (reads (new_events s s')) = Some (EvRecv sock len n hdr) ->
     data_size (read_llm hdr) <= INT_MAX) ->
  0 <= r.1.
Proof.
  intros (t & sock & len & n & hdr & t' & Ht & Ft & ->) Hfits.
  specialize (Hfits sock len n hdr).
  rewrite (new_events_app s s' (t ++ EvRecv sock len n hdr :: t')) in Hfits
    by done.
  rewrite reads_app, reads_nil in Hfits by done.
  specialize (Hfits eq_refl).
  pose proof (to_uint32_range (data_size (decode_lttcomm_lttng_msg hdr))).
  unfold INT_MAX in Hfits. simpl in *. rewrite to_int_small; lia.
Qed.

Lemma length_overlay (old bytes : list byte) :
  length (overlay old bytes) = length old.
Proof.
  unfold overlay. rewrite length_take, length_app, length_drop. lia.
Qed.

Lemma resize_grow (l : list byte) n :
  (length l <= n)%nat -> resize l n = l ++ replicate (n - length l) x00.
Proof. intros Hn. unfold resize. by rewrite take_ge by lia. Qed.

Lemma header_stripped (hdr rest : list byte) :
  resize (overlay (hdr ++ rest) (drop (length hdr) (hdr ++ rest)))
    (length (hdr ++ rest) - length hdr) = rest.
Proof.
  rewrite drop_app_length, length_app.
  replace (length hdr + length rest - length hdr)%nat with (length rest)
    by lia.
  unfold overlay, resize.
  rewrite length_take, length_app, length_app, length_drop, length_app.
  rewrite take_take.
  replace (length rest `min` (length hdr + length rest))%nat
    with (length rest) by lia.
  rewrite take_app_length.
  match goal with
  | |- _ ++ replicate ?n _ = _ => replace n with 0%nat by lia
  end.
  apply app_nil_r.
Qed.

(** ** The reply of the payload path, read by read *)

Lemma received_app l1 l2 : received (l1 ++ l2) = received l1 ++ received l2.
Proof.
  induction l1 as [|[] l1 IH]; simpl; try done. by rewrite IH, app_assoc.
Qed.

Lemma received_fds_app l1 l2 :
  received_fds (l1 ++ l2) = received_fds l1 ++ received_fds l2.
Proof.
  induction l1 as [|[] l1 IH]; simpl; try done. by rewrite IH, app_assoc.
Qed.

Lemma length_area len bytes : length (area len bytes) = Z.to_nat len.
Proof. unfold area. by rewrite length_overlay, length_replicate. Qed.

Lemma set_size_cases b n s ret b' s' :
  lttng_dynamic_buffer_set_size b n s = Done (ret, b') s' ->
  connected s' = connected s /\ sessiond_socket s' = sessiond_socket s /\
  (exists t, trace s' = trace s ++ t /\ reads t = []) /\
  ((ret = 0 /\ data b' = resize (data b) (Z.to_nat n)) \/
   (ret < 0 /\ b' = b)).
Proof.
  intros Hrun. destruct s as [sock conn hp nxt tr clk w].
  run Hrun; simpl.
  all: repeat split; try done.
  all: try (eexists; split; [symmetry; apply app_nil_r|done]).
  all: try (by eexists; split; [reflexivity|]).
  all: try (right; split; [lia|done]).
  all: try (left; split; [done|]).
  all: try done.
  apply Z.eqb_eq in Heqb0 as ->. unfold buffer_size, resize.
  by rewrite Nat2Z.id, firstn_all, Nat.sub_diag, app_nil_r.
Qed.

Lemma recv_data_connected len s ret bytes s' :
  recv_data_sessiond len s = Done (ret, bytes) s' ->
  connected s = true ->
  connected s' = true /\ sessiond_socket s' = sessiond_socket s /\
  exists n,
    trace s' = trace s ++ [EvRecv (sessiond_socket s) len n bytes] /\
    ret = (if n <? 0 then - LTTNG_ERR_FATAL else n).
Proof.
  intros Hrun Hconn. destruct s as [sock conn hp nxt tr clk w].
  simpl in Hconn. subst conn.
  run Hrun; simpl; repeat split; eexists; (split; [reflexivity|]);
    by rewrite ?Heqb.
Qed.

Lemma recv_payload_cases fd s rs payload len st ret payload' st' :
  recv_payload_sessiond payload len st = Done (ret, payload') st' ->
  0 < len ->
  filling fd s rs payload st ->
  (ret < 0 /\ filling fd s rs payload' st') \/
  exists n bytes,
    filling fd s (rs ++ [EvRecv fd len n bytes]) payload' st' /\
    ret = (if n <? 0 then - LTTNG_ERR_FATAL else n).
Proof.
  intros Hrun Hlen Hfill.
  unfold recv_payload_sessiond in Hrun.
  invert_run Hrun. destruct a as [ret0 b].
  apply set_size_cases in Hcall
    as (Hconn1 & Hsock1 & (t1 & Ht1 & Hrs1) & Hcase).
  destruct Hcase as [[-> Hb]|[Hneg ->]].
  - change (negb (0 =? 0)) with false in Hrun. cbv iota in Hrun.
    invert_run Hrun. destruct a as [ret1 bytes]. invert_run Hrun.
    simplify_eq.
    destruct Hfill as (Hconn & Hsock & (t & Ht & Hrs) & Hdata & Hfds).
    apply recv_data_connected in Hcall as (Hconn2 & Hsock2 & n & Ht2 & ->);
      [|congruence].
    rewrite Hsock1, Hsock in Ht2.
    right. exists n, bytes. split; [|done].
    split; [done|]. split; [congruence|]. split.
    { exists (t ++ t1 ++ [EvRecv fd len n bytes]).
      split; [rewrite Ht2, Ht1, Ht; by rewrite <- !app_assoc|].
      rewrite !reads_app, Hrs1. simpl. by rewrite Hrs. }
    cbn [buffer data _fd_handles].
    split; [|by rewrite received_fds_app, <- Hfds; simpl; rewrite app_nil_r].
    rewrite received_app, <- Hdata. simpl. rewrite app_nil_r.
    rewrite Hb. unfold buffer_size.
    rewrite Nat2Z.id, resize_grow by lia.
    rewrite take_app_length, drop_app_length. unfold area.
    do 3 f_equal. lia.
  - rewrite (proj2 (Z.eqb_neq _ _)) in Hrun by lia. cbn [negb] in Hrun.
    invert_run Hrun. simplify_eq.
    destruct Hfill as (Hconn & Hsock & (t & Ht & Hrs) & Hdata & Hfds).
    left. split; [lia|].
    split; [congruence|]. split; [congruence|]. split; [|done].
    exists (t ++ t1). split; [by rewrite Ht1, Ht, app_assoc|].
    by rewrite reads_app, Hrs1, app_nil_r.
Qed.

Lemma hoare_filling {A} fd s rs reply (m : M A) :
  keeps_connection m -> adds not_a_read m ->
  hoare (filling fd s rs reply) m (fun _ => filling fd s rs reply).
Proof.
  intros Hk Ha st a st' (Hconn & Hsock & (t & Ht & Hrs) & Hdata) Hrun.
  destruct (Hk _ _ _ Hrun) as [E1 E2].
  destruct (Ha _ _ _ Hrun) as (t' & Ht' & Ft').
  split; [congruence|]. split; [congruence|]. split; [|done].
  exists (t ++ t'). split; [by rewrite Ht', Ht, app_assoc|].
  by rewrite reads_app, (reads_nil t'), app_nil_r.
Qed.

Lemma end_reads {A} s rs ret0 (out : A) st r s' :
  end_ ret0 out st = Done r s' ->
  (exists t, trace st = trace s ++ t /\ reads t = rs) ->
  r = (ret0, out) /\ reads (new_events s s') = rs.
Proof.
  intros Hrun (t & Ht & Hrs).
  assert (Ha : adds not_a_read (end_ ret0 out)) by adds_tac.
  destruct (Ha _ _ _ Hrun) as (t' & Ht' & Ft').
  apply end_result in Hrun as (-> & _). split; [done|].
  rewrite (new_events_app s s' (t ++ t')) by (by rewrite Ht', Ht, app_assoc).
  by rewrite reads_app, (reads_nil t'), app_nil_r.
Qed.

Lemma received_section sock len n bytes :
  received (section_read sock len n bytes) = area len bytes.
Proof.
  unfold section_read. destruct (0 <? len) eqn:Hlen; simpl.
  - apply app_nil_r.
  - unfold area, overlay.
    replace (Z.to_nat len) with 0%nat by lia. done.
Qed.

Lemma optional_section_cases fd s rs payload len ret0 st ret payload' st' :
  (if 0 <? len then recv_payload_sessiond payload len
   else Return (ret0, payload)) st = Done (ret, payload') st' ->
  filling fd s rs payload st ->
  0 <= ret0 ->
  (ret < 0 /\ exists rs', filling fd s rs' payload' st') \/
  (0 <= ret /\
   exists n bytes, filling fd s (rs ++ section_read fd len n bytes) payload' st').
Proof.
  intros Hrun Hfill Hret0. unfold section_read.
  destruct (0 <? len) eqn:Hlen.
  - apply Z.ltb_lt in Hlen.
    destruct (recv_payload_cases _ _ _ _ _ _ _ _ _ Hrun Hlen Hfill)
      as [[Hneg Hf]|(n & bytes & Hf & ->)].
    + left. split; [done|]. by eexists.
    + destruct (n <? 0) eqn:Hn.
      * left. split; [lia|]. by eexists.
      * right. split; [lia|]. by exists n, bytes.
  - invert_run Hrun. simplify_eq. right. split; [done|].
    exists 0, []. by rewrite app_nil_r.
Qed.

Lemma descriptors_cases fd s rs reply nb ret0 st ret reply' st' :
  (if 0 <? nb then
     let* '(ret, fds) := lttcomm_recv_fds fd nb in
     Return (ret, {| buffer := buffer reply;
                     _fd_handles := _fd_handles reply ++ fds |})
   else Return (ret0, reply)) st = Done (ret, reply') st' ->
  filling fd s rs reply st ->
  exists n fds, filling fd s (rs ++ descriptors_read fd nb n fds) reply' st'.
Proof.
  intros Hrun Hfill. unfold descriptors_read.
  destruct (0 <? nb) eqn:Hnb.
  - invert_run Hrun. destruct a as [n fds]. invert_run Hrun. simplify_eq.
    destruct Hfill as (Hconn & Hsock & (t & Ht & Hrs) & Hdata & Hfds).
    destruct st as [sock conn hp nxt tr clk w]. run Hcall. simpl in *.
    eexists _, _. split; [done|]. split; [done|]. split.
    { eexists. split; [by rewrite Ht, <- app_assoc|].
      rewrite reads_app. by simpl. }
    split.
    + rewrite received_app. simpl. by rewrite app_nil_r.
    + rewrite received_fds_app. simpl. by rewrite app_nil_r, Hfds.
  - invert_run Hrun. simplify_eq. exists 0, []. by rewrite app_nil_r.
Qed.

Lemma payload_cases (message : lttng_payload_view) (reply : lttng_payload)
    s ret reply' s' :
  lttng_ctl_ask_sessiond_payload message reply s = Done (ret, reply') s' ->
  partial_reply ret reply' (reads (new_events s s')) \/
  whole_reply ret reply' (reads (new_events s s')).
Proof.
  intros Hrun.
  set (Q := fun (r : Z * lttng_payload) (s' : state) =>
    partial_reply r.1 r.2 (reads (new_events s s')) \/
    whole_reply r.1 r.2 (reads (new_events s s'))).
  change (Q (ret, reply') s').
  unfold lttng_ctl_ask_sessiond_payload in Hrun.
  destruct (negb (buffer_size (buffer reply) =? 0)) eqn:Hsize; [done|].
  destruct (negb (Z.of_nat (length (_fd_handles reply)) =? 0)) eqn:Hcount;
    [done|].
  assert (Hempty : data (buffer reply) = []).
  { apply negb_false_iff, Z.eqb_eq in Hsize. unfold buffer_size in Hsize.
    destruct (data (buffer reply)); [done|simpl in Hsize; lia]. }
  assert (Hnone : _fd_handles reply = []).
  { apply negb_false_iff, Z.eqb_eq in Hcount.
    destruct (_fd_handles reply); [done|simpl in Hcount; lia]. }
  assert (Hfailed : forall fd rs (out : lttng_payload) ret0,
            ret0 < 0 ->
            hoare (filling fd s rs out) (end_ ret0 out) Q).
  { intros fd rs out ret0 Hneg st r st' (_ & _ & Hlog & Hdata & Hfds) Hend.
    apply (end_reads s rs) in Hend as [-> Hreads]; [|done].
    left. unfold partial_reply. cbn [fst snd]. rewrite Hreads. auto. }
  (* the connection *)
  invert_run Hrun.
  apply connect_sessiond_log in Hcall
    as (Hc & Hs & _ & _ & r0 & t0 & Ht0 & Hcase).
  destruct (a <? 0) eqn:Hneg.
  { apply (end_reads s []) in Hrun as [[= -> ->] Hreads].
    - left. unfold partial_reply. cbn [fst snd].
      rewrite Hreads, Hempty, Hnone.
      split; [done|]. split; [done|]. left. lia.
    - exists (EvResolvePath r0 :: t0). split; [done|].
      destruct Hcase as [(_ & _ & [->|(c & ->)])|[_ ->]]; done. }
  destruct Hcase as [(-> & _)|[Hpos ->]]; [done|].
  invert_run Hrun. injection Hcall as <- <-.
  invert_run Hrun. injection Hcall as <- <-.
  cbn [sessiond_socket] in Hrun.
  match type of Hrun with
  | ?m ?st = _ =>
      assert (Hh : hoare (filling a s [] reply) m Q);
      [|refine (Hh st _ _ _ Hrun); repeat split; try done;
        exists [EvResolvePath r0; EvConnect a]; by split]
  end.
  clear Hrun Ht0.
  hoare_walk ltac:(apply hoare_filling; [keeps_tac|adds_tac])
             ltac:(apply Hfailed; lia).
  (* the header *)
  intros st r st' Hfill Hbody. invert_run Hbody.
  match goal with
  | Hc : recv_payload_sessiond _ _ _ = Done ?x _ |- _ =>
      destruct x as [ret0 reply1]
  end.
  pose proof (Pos2Z.is_pos sizeof_lttcomm_lttng_msg) as Hhdr.
  destruct (recv_payload_cases _ _ _ _ _ _ _ _ _ Hcall Hhdr Hfill)
    as [[Hneg0 Hf]|(n & bytes & Hf & ->)].
  { rewrite (proj2 (Z.ltb_lt _ _)) in Hbody by done.
    by eapply Hfailed. }
  destruct (n <? 0) eqn:Hn.
  { rewrite (proj2 (Z.ltb_lt _ _)) in Hbody by lia.
    eapply Hfailed; [|done..]. lia. }
  rewrite Hn in Hbody.
  cbn [app] in Hf.
  assert (Htake : take (Z.to_nat sizeof_lttcomm_lttng_msg)
                    (data (buffer reply1))
                  = area sizeof_lttcomm_lttng_msg bytes).
  { destruct Hf as (_ & _ & _ & -> & _). simpl. rewrite app_nil_r.
    rewrite <- (length_area sizeof_lttcomm_lttng_msg bytes) at 1.
    apply firstn_all. }
  rewrite Htake in Hbody.
  set (llm := read_llm (area sizeof_lttcomm_lttng_msg bytes)) in *.
  destruct (ret_code llm =? LTTNG_OK) eqn:Hcode; cbn [negb] in Hbody.
  2: { destruct Hf as (_ & _ & Hlog & Hdata & Hfds).
       apply (end_reads s [EvRecv a sizeof_lttcomm_lttng_msg n bytes])
         in Hbody as [Hr Hreads]; [|done]. rewrite Hr.
       left. unfold partial_reply. cbn [fst snd]. rewrite Hreads.
       split; [done|]. split; [done|]. right.
       exists a, n, bytes. split; [done|]. cbv zeta. fold llm.
       apply Z.eqb_neq in Hcode. done. }
  apply Z.eqb_eq in Hcode. apply Z.ltb_ge in Hn.
  (* the command header *)
  apply bind_done in Hbody as ([ret1 reply2] & st1 & Hcmd & Hbody).
  cbv beta iota in Hbody.
  destruct (optional_section_cases _ _ _ _ _ _ _ _ _ _ Hcmd Hf Hn)
    as [(Hneg1 & rs1 & Hf1)|(Hpos1 & n1 & cmd & Hf1)].
  { rewrite (proj2 (Z.ltb_lt _ _)) in Hbody by done. by eapply Hfailed. }
  rewrite (proj2 (Z.ltb_ge _ _)) in Hbody by done.
  (* the data *)
  apply bind_done in Hbody as ([ret2 reply3] & st2 & Hdat & Hbody).
  cbv beta iota in Hbody.
  destruct (optional_section_cases _ _ _ _ _ _ _ _ _ _ Hdat Hf1 Hpos1)
    as [(Hneg2 & rs2 & Hf2)|(Hpos2 & n2 & dat & Hf2)].
  { rewrite (proj2 (Z.ltb_lt _ _)) in Hbody by done. by eapply Hfailed. }
  rewrite (proj2 (Z.ltb_ge _ _)) in Hbody by done.
  (* the descriptors *)
  apply bind_done in Hbody as ([ret3 reply4] & st3 & Hfd & Hbody).
  cbv beta iota in Hbody.
  destruct (descriptors_cases _ _ _ _ _ _ _ _ _ _ Hfd Hf2)
    as (n3 & fds & Hf3).
  destruct (ret3 <? 0) eqn:Hret3.
  { apply Z.ltb_lt in Hret3. by eapply Hfailed. }
  (* the header is moved out *)
  apply bind_done in Hbody as ([ret4 b] & st4 & Hb & Hbody).
  cbv beta iota in Hbody.
  destruct (ret4 =? 0) eqn:Hret4; cbn [negb] in Hbody; [|done].
  apply Z.eqb_eq in Hret4 as ->.
  pose proof Hb as Hb'.
  apply set_size_cases in Hb' as (Hconn4 & Hsock4 & (t4 & Ht4 & Hrs4) & _).
  apply set_size_data in Hb. cbn [data] in Hb.
  destruct Hf3 as (Hconn3 & Hsock3 & (t3 & Ht3 & Hrs3) & Hdata & Hfds).
  apply (end_reads s (reads t3)) in Hbody as [Hr Hreads]; [rewrite Hr|].
  2: { exists (t3 ++ t4). split; [by rewrite Ht4, Ht3, app_assoc|].
       by rewrite reads_app, Hrs4, app_nil_r. }
  right. unfold whole_reply. cbn [fst snd]. rewrite Hreads, Hrs3.
  exists a, n, bytes, n1, cmd, n2, dat, n3, fds. cbv zeta. fold llm.
  rewrite <- !app_assoc. cbn [app].
  split; [done|]. split; [done|].
  rewrite <- !app_assoc in Hdata, Hfds. cbn [app] in Hdata, Hfds.
  cbn [received] in Hdata.
  rewrite !received_app, !received_section in Hdata.
  assert (Hnofd : received (descriptors_read a (fd_count llm) n3 fds) = [])
    by (unfold descriptors_read; by destruct (0 <? fd_count llm)).
  rewrite Hnofd, app_nil_r in Hdata.
  set (hdr := area sizeof_lttcomm_lttng_msg bytes) in *.
  set (rest := area (cmd_header_size llm) cmd ++ area (data_size llm) dat)
    in *.
  assert (Hlen_hdr : length hdr = Z.to_nat sizeof_lttcomm_lttng_msg)
    by apply length_area.
  rewrite Hdata in Hb. unfold buffer_size in Hb. rewrite Hdata in Hb.
  replace (Z.to_nat sizeof_lttcomm_lttng_msg) with (length hdr) in Hb by done.
  replace (Z.to_nat (Z.of_nat (length (hdr ++ rest))
                     - sizeof_lttcomm_lttng_msg))
    with (length (hdr ++ rest) - length hdr)%nat in Hb
    by (rewrite Hlen_hdr; lia).
  rewrite header_stripped in Hb.
  cbn [buffer data _fd_handles].
  split; [done|]. split; [done|].
  unfold buffer_size. rewrite Hb. unfold rest.
  rewrite length_app, !length_area. f_equal.
  pose proof (to_uint32_range
                (cmd_header_size (decode_lttcomm_lttng_msg hdr))).
  pose proof (to_uint32_range (data_size (decode_lttcomm_lttng_msg hdr))).
  unfold llm. simpl. lia.
Qed.


Lemma received_reads l : received (reads l) = received l.
Proof. induction l as [|[] l IH]; simpl; try done. by rewrite IH. Qed.

Lemma received_fds_reads l : received_fds (reads l) = received_fds l.
Proof. induction l as [|[] l IH]; simpl; try done. by rewrite IH. Qed.

Lemma received_descriptors sock nb n fds :
  received (descriptors_read sock nb n fds) = [].
Proof. unfold descriptors_read. by destruct (0 <? nb). Qed.

Lemma received_fds_section sock len n bytes :
  received_fds (section_read sock len n bytes) = [].
Proof. unfold section_read. by destruct (0 <? len). Qed.

Lemma received_fds_descriptors sock nb n fds :
  received_fds (descriptors_read sock nb n fds)
  = if 0 <? nb then fds else [].
Proof.
  unfold descriptors_read. destruct (0 <? nb); simpl; [|done].
  apply app_nil_r.
Qed.

Lemma to_int_negative_large z : 0 <= z -> to_int z < 0 -> INT_MAX < z.
Proof.
  intros Hz Hneg. unfold to_int, INT_MAX in *.
  destruct (Z.lt_ge_cases z (2 ^ 31)) as [Hlt|Hge]; [|lia].
  rewrite Z.mod_small in Hneg by lia.
  rewrite (proj2 (Z.ltb_lt _ _)) in Hneg by lia. lia.
Qed.

(** C1, as the code has it: when a request returns a negative value, and
    the data size that the reply header announced (if one was read) fits
    an [int], then on the fixed-header path the payload output is as the
    caller passed it, and either the heap is unchanged and the
    command-header output is as it was or cleared, or the one new live
    block is the command header, which the caller now owns.  On the
    payload path no block of the heap is handed over, but the reply of
    the caller keeps what was read before the failure: its buffer holds
    the zeroed area of every read made, the reply header first, with
    the bytes that the read delivered, and its descriptors are those
    that were received (or, after a whole reply of more than [INT_MAX]
    bytes, the same without the reply header). *)
Theorem failed_request_outputs (req : request) s ret out s' :
  run_request req s = Done (ret, out) s' ->
  fresh_above s ->
  ret < 0 ->
  (forall sock len n hdr,
     head (reads (new_events s s')) = Some (EvRecv sock len n hdr) ->
     data_size (read_llm hdr) <= INT_MAX) ->
  match req, out with
  | FixedHeader _ _ _ _ _ out0, inl out' =>
      user_payload_buf out' = user_payload_buf out0 /\
      ((heap s' = heap s /\
        (user_cmd_header_buf out' = user_cmd_header_buf out0 \/
         user_cmd_header_buf out' = Some None)) \/
       exists bytes,
         user_cmd_header_buf out' = Some (Some (next_block s)) /\
         heap s' = <[next_block s := bytes]> (heap s))
  | PayloadBased _ _, inr reply' =>
      heap s' = heap s /\
      _fd_handles reply' = received_fds (new_events s s') /\
      (data (buffer reply') = received (new_events s s') \/
       (data (buffer reply')
        = drop (Z.to_nat sizeof_lttcomm_lttng_msg)
            (received (new_events s s')) /\
        INT_MAX < buffer_size (buffer reply')))
  | _, _ => False
  end.
Proof.
  intros Hrun Hfresh Hneg Hfits.
  destruct req as [lsm fds nb_fd vardata vardata_len out0|message reply];
    unfold run_request in Hrun; invert_run Hrun;
    destruct a as [ret' o]; invert_run Hrun; simplify_eq.
  - destruct (fds_varlen_outputs _ _ _ _ _ _ _ _ _ Hcall Hfresh)
      as [Hfailed|Hdone]; [done|].
    apply answered_fits in Hdone; [simpl in Hdone; lia|done].
  - assert (Hm : keeps_memory (lttng_ctl_ask_sessiond_payload message reply))
      by mem_tac.
    split; [by destruct (Hm _ _ _ Hcall)|].
    destruct (payload_cases _ _ _ _ _ _ Hcall)
      as [(Hdata & Hfds & _)
         |(sock & n & bytes & n1 & cmd & n2 & dat & n3 & fds & Hwhole)].
    + rewrite received_reads in Hdata. rewrite received_fds_reads in Hfds.
      split; [done|by left].
    + cbv zeta in Hwhole.
      destruct Hwhole as (Hreads & Hcode & Hdata & Hfds & Hret).
      rewrite received_fds_reads in Hfds. split; [done|]. right.
      rewrite <- received_reads, Hreads. cbn [received].
      rewrite !received_app, !received_section, received_descriptors,
        app_nil_r.
      rewrite <- (length_area sizeof_lttcomm_lttng_msg bytes) at 1.
      rewrite drop_app_length. split; [done|].
      pose proof (to_uint32_range
                    (cmd_header_size
                       (decode_lttcomm_lttng_msg
                          (area sizeof_lttcomm_lttng_msg bytes)))) as Hc.
      pose proof (to_uint32_range
                    (data_size
                       (decode_lttcomm_lttng_msg
                          (area sizeof_lttcomm_lttng_msg bytes)))) as Hd.
      change (to_uint32 (cmd_header_size (decode_lttcomm_lttng_msg ?x)))
        with (cmd_header_size (read_llm x)) in Hc.
      change (to_uint32 (data_size (decode_lttcomm_lttng_msg ?x)))
        with (data_size (read_llm x)) in Hd.
      unfold buffer_size. rewrite Hdata, length_app, !length_area.
      rewrite Nat2Z.inj_add, !Z2Nat.id by lia.
      apply to_int_negative_large; [lia|congruence].
Qed.

End Ownership.
(* ================================================================== *)
(** * Stopping a session *)

Section Stop.
Context `{Externals}.

Lemma fds_varlen_exchange lsm fds nb_fd vardata vardata_len out s r s' :
  lttng_ctl_ask_sessiond_fds_varlen lsm fds nb_fd vardata vardata_len out s
    = Done r s' ->
  exists t, trace s' = trace s ++ t /\ one_exchange (cmd_type lsm) t.
Proof.
  unfold lttng_ctl_ask_sessiond_fds_varlen. intros Hrun. invert_run Hrun.
  apply connect_sessiond_log in Hcall
    as (_ & _ & _ & _ & rp & t & Ht & Hshape).
  match type of Hrun with
  | ?m _ = _ => assert (Ha : adds (inner_event (WLsm lsm)) m) by adds_tac
  end.
  destruct (Ha _ _ _ Hrun) as (t' & Ht' & Ft').
  exists (EvResolvePath rp :: t ++ t'). split.
  - rewrite Ht', Ht. by rewrite <- app_assoc.
  - exists rp, lsm, (t ++ t'). repeat split. apply Forall_app. split; [|done].
    destruct Hshape as [(_ & _ & [->|[c ->]])|(_ & ->)];
      repeat constructor.
Qed.

Lemma ask_sessiond_exchange lsm buf s r s' :
  lttng_ctl_ask_sessiond lsm buf s = Done r s' ->
  exists t, trace s' = trace s ++ t /\ one_exchange (cmd_type lsm) t.
Proof.
  unfold lttng_ctl_ask_sessiond, lttng_ctl_ask_sessiond_varlen_no_cmd_header.
  intros Hrun. invert_run Hrun. destruct a as [ret out].
  invert_run Hrun. by eapply fds_varlen_exchange.
Qed.

Lemma one_exchange_counts cmd t :
  one_exchange cmd t ->
  sleeps t = 0%nat /\ exchanges t = 1%nat /\ Forall (eq cmd) (commands t).
Proof.
  intros (r & lsm & t' & -> & <- & Ft). simpl.
  destruct (inner_counts _ _ Ft) as [-> ->].
  repeat split. by apply inner_commands.
Qed.

Lemma copy_field_pure size src s d s' :
  copy_field size src s = Done d s' -> s' = s.
Proof.
  unfold copy_field. intros Hrun.
  destruct (lttng_ctl_copy_string _ _ _) as [[?|]|]; by invert_run Hrun.
Qed.





(** Without [wait], the loop is dead code: no bound on its iterations
    is ever consulted. *)
Lemma no_wait_fuel fuel name s :
  lttng_stop_tracing_no_wait fuel name s = lttng_stop_tracing_no_wait 0 name s.
Proof.
  unfold lttng_stop_tracing_no_wait, _lttng_stop_tracing.
  destruct name as [name|]; [|done].
  unfold bind. destruct (copy_field _ _ s) as [d s1|]; [|done].
  destruct (lttng_ctl_ask_sessiond _ _ s1) as [[ret buf] s2|]; [|done].
  by destruct (_ && _).
Qed.

(** C8: [lttng_stop_tracing_no_wait] returns what the stop command
    returned without entering the wait loop: its result does not depend
    on the bound on the iterations of the loop (none is run), it pauses
    not once, and the only command it sends is [LTTNG_STOP_TRACE], in at
    most one exchange; [LTTNG_DATA_PENDING] is never asked. *)
Theorem no_wait_never_polls (fuel : nat) (name : option (list byte)) s r s' :
  lttng_stop_tracing_no_wait fuel name s = Done r s' ->
  lttng_stop_tracing_no_wait 0 name s = Done r s' /\
  sleeps (new_events s s') = 0%nat /\
  (exchanges (new_events s s') <= 1)%nat /\
  Forall (eq LTTNG_STOP_TRACE) (commands (new_events s s')).
Proof.
  intros Hrun. split; [by rewrite <- (no_wait_fuel fuel)|].
  unfold lttng_stop_tracing_no_wait, _lttng_stop_tracing in Hrun.
  destruct name as [name|].
  - invert_run Hrun. apply copy_field_pure in Hcall as ->.
    invert_run Hrun. destruct a0 as [ret buf].
    apply ask_sessiond_exchange in Hcall as (t & Ht & Hex).
    assert (s' = s0) as ->
      by (destruct (_ && _); cbn in Hrun; by invert_run Hrun).
    rewrite (new_events_app _ _ _ Ht).
    destruct (one_exchange_counts _ _ Hex) as (Hs & He & Hcmd).
    rewrite Hs, He. repeat split; [lia|done].
  - invert_run Hrun. unfold new_events. rewrite drop_all. simpl.
    repeat split; [lia|done].
Qed.

End Stop.
(* ================================================================== *)
(** * The two passes of the event listing *)

Lemma ALIGN_TO_8 v : ALIGN_TO v 8 = (v + 7) / 8 * 8.
Proof.
  unfold ALIGN_TO. change (8 - 1) with (Z.ones 3).
  replace (v + 8 - 1) with (v + 7) by lia.
  rewrite <- Z.ldiff_land, Z.ldiff_ones_r by lia.
  by rewrite Z.shiftr_div_pow2, Z.shiftl_mul_pow2 by lia.
Qed.

Lemma ALIGN_TO_8_ge v : v <= ALIGN_TO v 8.
Proof.
  rewrite ALIGN_TO_8.
  pose proof (Z.div_mod (v + 7) 8 ltac:(lia)).
  pose proof (Z.mod_pos_bound (v + 7) 8 ltac:(lia)). lia.
Qed.

Lemma length_resize l n : length (resize l n) = n.
Proof. unfold resize. rewrite length_app, length_take, length_replicate. lia. Qed.

Lemma resize_same l : resize l (length l) = l.
Proof.
  unfold resize. by rewrite firstn_all, Nat.sub_diag, app_nil_r.
Qed.

(** Within the reserved capacity, the buffer is resized in place. *)
Lemma set_size_fits b n s :
  0 <= n <= _capacity b ->
  lttng_dynamic_buffer_set_size b n s
  = Done (0, {| data := resize (data b) (Z.to_nat n);
                _capacity := _capacity b |}) s.
Proof.
  intros Hn. unfold lttng_dynamic_buffer_set_size.
  destruct (n =? buffer_size b) eqn:Hsame.
  - apply Z.eqb_eq in Hsame as ->. unfold buffer_size.
    rewrite Nat2Z.id, resize_same. by destruct b.
  - by rewrite (proj2 (Z.ltb_ge _ _)) by lia.
Qed.

Lemma append_fits b bytes s :
  buffer_size b + Z.of_nat (length bytes) <= _capacity b ->
  lttng_dynamic_buffer_append b bytes s
  = Done (0, {| data := data b ++ bytes; _capacity := _capacity b |}) s.
Proof.
  intros Hfit. unfold lttng_dynamic_buffer_append.
  destruct bytes as [|x bytes]; [rewrite app_nil_r; by destruct b|].
  unfold bind. rewrite set_size_fits by (unfold buffer_size in *; lia).
  done.
Qed.

Section Flatten.
Context `{Externals}.

Lemma slice_length buf off len bytes :
  slice buf off len = Some bytes -> Z.of_nat (length bytes) = len.
Proof.
  unfold slice. destruct (_ && _) eqn:Hin; [|done]. intros [= <-].
  apply andb_prop in Hin as [[Hoff Hlen]%andb_prop Hend].
  apply Z.leb_le in Hoff, Hlen, Hend.
  rewrite length_take, length_drop. lia.
Qed.

(** A probe view, when there is one, covers the [len] bytes at the
    cursor, whatever payload it was cut from. *)
Lemma probe_location_view_slice whole buf off len bytes :
  0 <= len ->
  probe_location_view whole buf (Some off) len = Some bytes ->
  slice buf off len = Some bytes.
Proof.
  intros Hlen. unfold probe_location_view, lttng_buffer_view_from_view.
  destruct (bv_data whole) as [base|]; [|done].
  destruct (_ || _); [done|]. unfold lttng_buffer_view_is_valid. simpl.
  rewrite (proj2 (Z.eqb_neq len (-1))) by lia.
  destruct (0 <? len); [|done].
  by replace (base + (off - base)) with off by lia.
Qed.

Lemma exclusions_len_nonneg ext : 0 <= exclusions_len ext.
Proof. unfold exclusions_len. apply to_uint32_range. Qed.

Lemma read_ext_comm_nonneg buf c ext :
  read_ext_comm buf c = Some ext ->
  0 <= filter_len ext /\ 0 <= userspace_probe_location_len ext.
Proof.
  unfold read_ext_comm. destruct c; [|done].
  destruct (slice _ _ _); [|done]. intros [= <-]. simpl.
  split; apply to_uint32_range.
Qed.

(** The first pass only adds to the size. *)
Lemma measure_pass_ge whole buf n : forall c storage_req total,
  measure_pass whole buf n c storage_req = Walked total ->
  storage_req <= total.
Proof.
  induction n as [|n IH]; intros c storage_req total; simpl.
  - intros [= ->]. lia.
  - destruct (read_ext_comm buf c) as [ext|] eqn:Hext; [|done].
    destruct (read_ext_comm_nonneg _ _ _ Hext) as [Hf _].
    pose proof (exclusions_len_nonneg ext) as He.
    pose proof (ALIGN_TO_8_ge (storage_req + sizeof_lttng_event_extended
                               + filter_len ext + exclusions_len ext)).
    destruct (negb _).
    + destruct (probe_location_view _ _ _ _); [|done].
      destruct (userspace_probe_location_flat _); [|done].
      intros Hm%IH. lia.
    + intros Hm%IH. lia.
Qed.

(** ** Steps that leave for the label, and steps that go on *)

Lemma bindE_ok {A B} (a : A) (k : A -> E B) : bindE (ok a) k = k a.
Proof. done. Qed.

Lemma bindE_fail {A B} f (k : A -> E B) : bindE (fail f) k = fail f.
Proof. done. Qed.

Lemma bindE_throw {A B} ret (k : A -> E B) : bindE (throw ret) k = throw ret.
Proof. done. Qed.

Lemma bindE_assoc {A B C} (m : E A) (k1 : A -> E B) (k2 : B -> E C) s :
  bindE (bindE m k1) k2 s = bindE m (fun a => bindE (k1 a) k2) s.
Proof. unfold bindE, bind. by destruct (m s) as [[ret|a] s'|]. Qed.

Lemma bindE_fits {B} (m : M (Z * lttng_dynamic_buffer)) b (k : _ -> E B) s :
  m s = Done (0, b) s -> bindE (or_nomem m) k s = k b s.
Proof. intros Hm. unfold bindE, or_nomem, bind. by rewrite Hm. Qed.

Lemma bindE_bind {A B C} (m : M A) a (k1 : A -> E B) (k2 : B -> E C) s :
  m s = Done a s -> bindE (bind m k1) k2 s = bindE (k1 a) k2 s.
Proof. intros Hm. unfold bindE, bind. by rewrite Hm. Qed.

Lemma read_bytes_spec buf c len :
  read_bytes buf c len = fail Undefined \/
  exists bytes, read_bytes buf c len = ok bytes /\
    Z.of_nat (length bytes) = len.
Proof.
  unfold read_bytes. destruct (len =? 0) eqn:Hz.
  - right. exists []. apply Z.eqb_eq in Hz. split; [done|simpl; lia].
  - destruct c as [off|]; [|by left].
    destruct (slice buf off len) as [bytes|] eqn:Hs; [|by left].
    right. exists bytes. split; [done|by eapply slice_length].
Qed.

Lemma advance_0 c : advance c 0 = c.
Proof. destruct c; [|done]. simpl. by rewrite Z.add_0_r. Qed.

Lemma probe_location_view_at whole buf c len bytes :
  0 <= len ->
  probe_location_view whole buf c len = Some bytes ->
  exists off, c = Some off /\ slice buf off len = Some bytes.
Proof.
  intros Hlen Hview. destruct c as [off|]; [|done].
  exists off. split; [done|]. by eapply probe_location_view_slice.
Qed.

(** An optional section of a record, the filter expression or the
    exclusions: [len] bytes at the cursor are appended in place, and the
    cursor moves past them. *)
Lemma section_in_place {V B} (present : bool) buf c len listing
    (v : option V) (k : option V * lttng_dynamic_buffer * option Z -> E B)
    s r s' :
  bindE
    (if present then
       bindE (read_bytes buf c len)
         (fun bytes =>
            bindE (or_nomem (lttng_dynamic_buffer_append listing bytes))
              (fun l => ok (v, l, advance c len)))
     else ok (None, listing, c)) k s = Done r s' ->
  (present = false -> len = 0) ->
  buffer_size listing + len <= _capacity listing ->
  exists w l,
    k (w, l, advance c len) s = Done r s' /\
    buffer_size l = buffer_size listing + len /\
    _capacity l = _capacity listing.
Proof.
  intros Hrun Hzero Hfit. destruct present.
  - rewrite bindE_assoc in Hrun.
    destruct (read_bytes_spec buf c len) as [Hfail|(bytes & Hok & Hlen)].
    + by rewrite Hfail in Hrun.
    + rewrite Hok, bindE_ok, bindE_assoc in Hrun.
      rewrite (bindE_fits _ _ _ _ (append_fits listing bytes s ltac:(lia)))
        in Hrun.
      rewrite bindE_ok in Hrun. eexists _, _. split; [done|]. simpl.
      unfold buffer_size in *. simpl. rewrite length_app. split; [lia|done].
  - rewrite bindE_ok in Hrun. rewrite (Hzero eq_refl), advance_0, Z.add_0_r.
    eauto.
Qed.

(** The second pass writes what the first pass measured, in place. *)
Lemma flatten_follows_measure whole whole' buf n :
  forall c storage_req listing refs s total listing' refs' s',
  measure_pass whole buf n c storage_req = Walked total ->
  flatten_pass whole' buf n c listing refs s
  = Done (inr (listing', refs')) s' ->
  buffer_size listing = storage_req ->
  total <= _capacity listing ->
  buffer_size listing' = total /\ _capacity listing' = _capacity listing /\
  s' = s /\ length refs' = (length refs + n)%nat.
Proof.
  induction n as [|n IH];
    intros c storage_req listing refs s total listing' refs' s' Hm Hf Hsize Hcap.
  - cbn in Hm, Hf. unfold ok, Return in Hf. simplify_eq.
    repeat split; (done || lia).
  - cbn [measure_pass] in Hm. cbn [flatten_pass] in Hf.
    destruct (read_ext_comm buf c) as [ext|] eqn:Hext; [|done].
    destruct (read_ext_comm_nonneg _ _ _ Hext) as [Hflen Hplen].
    pose proof (exclusions_len_nonneg ext) as Helen.
    pose proof (ALIGN_TO_8_ge (storage_req + sizeof_lttng_event_extended
                               + filter_len ext + exclusions_len ext)) as Hal.
    assert (Hsz : 0 <= buffer_size listing) by (unfold buffer_size; lia).
    (* what the first pass says about the sizes of this record *)
    assert (Hfit : exists probe, 0 <= probe /\
              ALIGN_TO (storage_req + sizeof_lttng_event_extended
                        + filter_len ext + exclusions_len ext) 8 + probe
              <= total).
    { destruct (negb _).
      - destruct (probe_location_view _ _ _ _); [|done].
        destruct (userspace_probe_location_flat _) as [flat|]; [|done].
        apply measure_pass_ge in Hm. exists (Z.of_nat (length flat)). lia.
      - apply measure_pass_ge in Hm. exists 0. lia. }
    destruct Hfit as (probe & Hprobe & Hfit).
    (* struct lttng_event_extended *)
    assert (Hext_fits : 0 <= buffer_size listing + sizeof_lttng_event_extended
                        <= _capacity listing) by lia.
    rewrite (bindE_fits _ _ _ _ (set_size_fits listing _ s Hext_fits)) in Hf.
    (* the filter expression *)
    apply section_in_place in Hf as (fe & l1 & Hf & Hs1 & Hc1); cycle 1.
    { by intros ->%negb_false_iff%Z.eqb_eq. }
    { unfold buffer_size at 1. simpl. rewrite length_resize. lia. }
    unfold buffer_size at 2 in Hs1. simpl in Hs1, Hc1.
    rewrite length_resize, Z2Nat.id, Hsize in Hs1 by lia.
    cbv beta iota in Hf.
    (* the exclusions *)
    apply section_in_place in Hf as (ex & l2 & Hf & Hs2 & Hc2); cycle 1.
    { intros Hz%negb_false_iff%Z.eqb_eq. unfold exclusions_len.
      by rewrite Hz, Z.mul_0_l. }
    { lia. }
    rewrite Hs1 in Hs2. rewrite Hc1 in Hc2. cbv beta iota in Hf.
    (* the padding *)
    assert (Hpad_fits : 0 <= ALIGN_TO (buffer_size l2) 8 <= _capacity l2).
    { rewrite Hs2, Hc2. lia. }
    rewrite (bindE_fits _ _ _ _ (set_size_fits l2 _ s Hpad_fits)) in Hf.
    match type of Hf with
    | context [ok (None, ?l, ?c)] => set (l3 := l) in Hf; set (c3 := c) in *
    end.
    assert (Hs3 : buffer_size l3
                  = ALIGN_TO (storage_req + sizeof_lttng_event_extended
                              + filter_len ext + exclusions_len ext) 8).
    { unfold buffer_size at 1. simpl.
      rewrite length_resize, Z2Nat.id, Hs2 by lia. done. }
    assert (Hc3 : _capacity l3 = _capacity listing) by (simpl; congruence).
    clearbody l3 c3.
    (* the probe location *)
    destruct (negb (userspace_probe_location_len ext =? 0)).
    + destruct (probe_location_view whole buf c3 _) as [bytes|] eqn:Hv;
        [|done].
      destruct (probe_location_view whole' buf c3 _) as [bytes'|] eqn:Hv';
        [|done].
      apply probe_location_view_at in Hv as (off & Hoff & Hsl); [|done].
      apply probe_location_view_at in Hv' as (off' & Hoff' & Hsl'); [|done].
      assert (bytes' = bytes) as -> by congruence.
      destruct (userspace_probe_location_flat bytes) as [flat|]; [|done].
      assert (Hflat_fits : buffer_size l3 + Z.of_nat (length flat)
                           <= _capacity l3).
      { apply measure_pass_ge in Hm. lia. }
      rewrite (bindE_bind _ _ _ _ _ (append_fits l3 flat s Hflat_fits)) in Hf.
      cbv beta iota in Hf. change (negb (0 =? 0)) with false in Hf.
      cbv beta iota in Hf. rewrite bindE_ok in Hf. cbv beta iota in Hf.
      eapply IH in Hf as (Hsize' & Hcap' & -> & Hrefs); [|exact Hm|..].
      * rewrite length_app in Hrefs. simpl in *.
        repeat split; [done|congruence|lia].
      * unfold buffer_size in *. simpl. rewrite length_app. lia.
      * simpl. lia.
    + rewrite bindE_ok in Hf. cbv beta iota in Hf.
      eapply IH in Hf as (Hsize' & Hcap' & -> & Hrefs); [|exact Hm|..].
      * rewrite length_app in Hrefs. simpl in *.
        repeat split; [done|congruence|lia].
      * lia.
      * apply measure_pass_ge in Hm. lia.
Qed.

(** ** The whole flattening *)

Lemma flatten_events_none (payload payload_copy : lttng_payload) s :
  lttng_buffer_view_is_valid
    (lttng_buffer_view_from_dynamic_buffer (buffer payload) 0
       sizeof_lttcomm_event_command_header) = true ->
  header_nb_events payload = 0 ->
  Z.to_nat (header_nb_events payload) = 0%nat /\
  measure_events payload = Walked 0 /\
  flatten_events payload payload_copy s
  = Done (inr (0, {| fe_listing := lttng_dynamic_buffer_init;
                     fe_refs := [] |})) s.
Proof.
  intros Hvalid Hnone. split; [by rewrite Hnone|].
  assert (Hm : measure_events payload = Walked 0)
    by (unfold measure_events; by rewrite Hnone).
  split; [done|].
  unfold flatten_events. rewrite Hvalid, Hm, Hnone. cbn [negb].
  change (INT_MAX <? 0) with false. cbv iota.
  unfold lttng_dynamic_buffer_set_capacity. cbn [_capacity lttng_dynamic_buffer_init].
  change (0 =? 0) with true. cbv iota.
  rewrite (bindE_fits (Return (0, lttng_dynamic_buffer_init)) _ _ s eq_refl).
  rewrite Z.mul_0_l.
  assert (Hrecords :
    match bv_data (lttng_buffer_view_from_view
                     (lttng_buffer_view_from_dynamic_buffer
                        (buffer payload_copy)
                        sizeof_lttcomm_event_command_header (-1)) 0 0) with
    | Some off =>
        read_bytes (data (buffer payload_copy)) (Some off)
          (bv_size (lttng_buffer_view_from_view
                      (lttng_buffer_view_from_dynamic_buffer
                         (buffer payload_copy)
                         sizeof_lttcomm_event_command_header (-1)) 0 0))
    | None => ok []
    end = ok []).
  { unfold lttng_buffer_view_from_view.
    destruct (bv_data (lttng_buffer_view_from_dynamic_buffer _ _ _)); [|done].
    by destruct (_ || _). }
  rewrite Hrecords, bindE_ok.
  by rewrite (bindE_fits _ _ _ s (append_fits lttng_dynamic_buffer_init [] s
                                   ltac:(done))).
Qed.

(** C7: for a reply whose command header announces no record, the first
    pass runs over 0 records and asks for 0 bytes, the second pass runs
    over 0 records, and the flattening succeeds with the count 0, an
    empty listing and no reference, without a call to the allocator or to
    anything else. *)
Theorem empty_listing_flattens (payload payload_copy : lttng_payload) s :
  lttng_buffer_view_is_valid
    (lttng_buffer_view_from_dynamic_buffer (buffer payload) 0
       sizeof_lttcomm_event_command_header) = true ->
  header_nb_events payload = 0 ->
  Z.to_nat (header_nb_events payload) = 0%nat /\
  measure_events payload = Walked 0 /\
  flatten_events payload payload_copy s
  = Done (inr (0, {| fe_listing := lttng_dynamic_buffer_init;
                     fe_refs := [] |})) s.
Proof. apply flatten_events_none. Qed.

Lemma bindE_or_nomem_inv {B} (m : M (Z * lttng_dynamic_buffer))
    (k : _ -> E B) s x s' :
  bindE (or_nomem m) k s = Done (inr x) s' ->
  exists b s1, m s = Done (0, b) s1 /\ k b s1 = Done (inr x) s'.
Proof.
  unfold bindE, or_nomem, bind.
  destruct (m s) as [[ret b] s1|]; [|done].
  destruct (ret =? 0) eqn:Hz; simpl; [|done].
  apply Z.eqb_eq in Hz as ->. eauto.
Qed.

Lemma bindE_inv {A B} (m : E A) (k : A -> E B) s x s' :
  bindE m k s = Done (inr x) s' ->
  exists a s1, m s = Done (inr a) s1 /\ k a s1 = Done (inr x) s'.
Proof.
  unfold bindE, bind. destruct (m s) as [[ret|a] s1|]; [done| |done]. eauto.
Qed.

(** The reservation: one call to the allocator, none for 0 bytes. *)
Lemma reserve_spec sr s b s1 :
  lttng_dynamic_buffer_set_capacity lttng_dynamic_buffer_init sr s
  = Done (0, b) s1 ->
  0 <= sr ->
  data b = [] /\ _capacity b = sr /\
  trace s1 = trace s ++ (if sr =? 0 then [] else [EvAlloc sr true]).
Proof.
  intros Hrun Hsr. destruct s as [sock conn hp nxt tr clk w].
  unfold lttng_dynamic_buffer_init in Hrun. run Hrun; simpl.
  - match goal with Hz : (_ =? _) = true |- _ => apply Z.eqb_eq in Hz end.
    by rewrite app_nil_r.
  - done.
Qed.

Lemma view_of_copy b b' off len :
  data b' = data b ->
  (_capacity b' =? 0) = (_capacity b =? 0) ->
  lttng_buffer_view_from_dynamic_buffer b' off len
  = lttng_buffer_view_from_dynamic_buffer b off len.
Proof.
  intros Hdata Hcap. unfold lttng_buffer_view_from_dynamic_buffer, buffer_size.
  by rewrite Hdata, Hcap.
Qed.

(** When the extended part of the records starts inside a view, the
    records themselves are a view of [len] bytes. *)
Lemma view_prefix v len off :
  bv_data (lttng_buffer_view_from_view v len (-1)) = Some off ->
  0 <= len ->
  exists base,
    lttng_buffer_view_from_view v 0 len
    = {| bv_data := Some base; bv_size := len |}.
Proof.
  unfold lttng_buffer_view_from_view. intros Hext Hlen.
  destruct (bv_data v) as [base|]; [|done].
  change (negb (-1 =? -1)) with false in Hext.
  rewrite orb_false_r in Hext.
  destruct (bv_size v <? len) eqn:Hsize; [done|]. apply Z.ltb_ge in Hsize.
  rewrite (proj2 (Z.ltb_ge (bv_size v) 0)) by lia.
  rewrite (proj2 (Z.ltb_ge (bv_size v - 0) len)) by lia.
  rewrite andb_false_r. simpl.
  rewrite (proj2 (Z.eqb_neq len (-1))) by lia. eauto.
Qed.

Lemma header_nb_events_nonneg payload : 0 <= header_nb_events payload.
Proof. unfold header_nb_events. apply to_uint32_range. Qed.

(** C2: when the flattening accepts a reply, the size that the first
    pass computed over the payload is the size of the listing that the
    second pass wrote from the copy, the capacity reserved is that size,
    and the only call made in between is the reservation itself (none
    at all for an empty listing): the listing was never grown or
    reallocated while it was written. *)
Theorem two_pass_consistency (payload payload_copy : lttng_payload)
    s n flat s' :
  data (buffer payload_copy) = data (buffer payload) ->
  flatten_events payload payload_copy s = Done (inr (n, flat)) s' ->
  measure_events payload = Walked (buffer_size (fe_listing flat)) /\
  _capacity (fe_listing flat) = buffer_size (fe_listing flat) /\
  new_events s s'
  = (if buffer_size (fe_listing flat) =? 0 then []
     else [EvAlloc (buffer_size (fe_listing flat)) true]) /\
  length (fe_refs flat) = Z.to_nat (header_nb_events payload).
Proof.
  intros Hdata Hrun.
  pose proof (header_nb_events_nonneg payload) as HN.
  destruct (lttng_buffer_view_is_valid
              (lttng_buffer_view_from_dynamic_buffer (buffer payload) 0
                 sizeof_lttcomm_event_command_header)) eqn:Hvalid;
    [|unfold flatten_events in Hrun; by rewrite Hvalid in Hrun].
  destruct (Z.to_nat (header_nb_events payload)) as [|n'] eqn:Hcount.
  { (* no record *)
    assert (Hnone : header_nb_events payload = 0) by lia.
    destruct (flatten_events_none payload payload_copy s Hvalid Hnone)
      as (_ & Hm & Hflat).
    rewrite Hflat in Hrun. injection Hrun as <- <- <-.
    repeat split; [done|]. unfold new_events. by rewrite drop_all. }
  unfold flatten_events in Hrun. rewrite Hvalid in Hrun. cbn [negb] in Hrun.
  destruct (INT_MAX <? _); [done|].
  destruct (measure_events payload) as [sr| |] eqn:Hm; [|done..].
  unfold measure_events in Hm. rewrite Hcount in Hm, Hrun.
  set (N := header_nb_events payload) in *.
  assert (Hrecords : 0 <= N * sizeof_lttng_event)
    by (apply Z.mul_nonneg_nonneg; lia).
  assert (Hpay : (_capacity (buffer payload) =? 0) = false).
  { unfold lttng_buffer_view_is_valid, lttng_buffer_view_from_dynamic_buffer,
      lttng_buffer_view_from_view in Hvalid. simpl in Hvalid.
    by destruct (_capacity (buffer payload) =? 0). }
  (* the cursor of the first pass is inside the payload *)
  destruct (bv_data
              (lttng_buffer_view_from_view
                 (lttng_buffer_view_from_dynamic_buffer (buffer payload)
                    sizeof_lttcomm_event_command_header (-1))
                 (N * sizeof_lttng_event) (-1))) as [off|] eqn:Hcur;
    [|by cbn in Hm].
  (* and so is that of the second pass *)
  destruct (_capacity (buffer payload_copy) =? 0) eqn:Hcopy.
  { exfalso.
    assert (Hv : forall off len,
              lttng_buffer_view_from_dynamic_buffer (buffer payload_copy)
                off len = invalid_view).
    { intros. unfold lttng_buffer_view_from_dynamic_buffer,
        lttng_buffer_view_from_view. simpl. by rewrite Hcopy. }
    rewrite !Hv in Hrun.
    change (lttng_buffer_view_from_view invalid_view ?o ?l)
      with invalid_view in Hrun.
    cbn [bv_data invalid_view] in Hrun.
    apply bindE_or_nomem_inv in Hrun as (l0 & s1 & _ & Hrun).
    rewrite bindE_ok in Hrun.
    apply bindE_or_nomem_inv in Hrun as (l1 & s2 & _ & Hrun).
    apply bindE_inv in Hrun as (a & s3 & Hrun & _). by cbn in Hrun. }
  rewrite !(view_of_copy (buffer payload) (buffer payload_copy)) in Hrun
    by (done || congruence).
  rewrite Hdata, Hcur in Hrun.
  destruct (view_prefix _ _ _ Hcur Hrecords) as (base & Hfev).
  rewrite Hfev in Hrun. cbn [bv_data bv_size] in Hrun.
  pose proof (measure_pass_ge _ _ _ _ _ _ Hm) as Hsr.
  apply bindE_or_nomem_inv in Hrun as (l0 & s1 & Hres & Hrun).
  apply reserve_spec in Hres as (Hd0 & Hc0 & Htr); [|lia].
  destruct (read_bytes_spec (data (buffer payload)) (Some base)
              (N * sizeof_lttng_event)) as [Hfail|(records & Hok & Hlen)];
    [by rewrite Hfail in Hrun|].
  rewrite Hok, bindE_ok in Hrun.
  assert (Hfits : buffer_size l0 + Z.of_nat (length records) <= _capacity l0)
    by (unfold buffer_size; rewrite Hd0; simpl; lia).
  rewrite (bindE_fits _ _ _ _ (append_fits l0 records s1 Hfits)) in Hrun.
  apply bindE_inv in Hrun as ([l r] & s2 & Hpass & Hrun).
  unfold ok, Return in Hrun. injection Hrun as <- <- <-.
  eapply flatten_follows_measure in Hpass as (Hsize & Hcap & -> & Hrefs);
    [|exact Hm|..].
  - simpl in *. rewrite Hsize, Hcap, Hc0.
    rewrite (new_events_app _ _ _ Htr). done.
  - unfold buffer_size. simpl. rewrite Hd0. simpl. lia.
  - simpl. lia.
Qed.

End Flatten.
(* ================================================================== *)
(** * Validation of the arguments *)

Section Validation.
Context `{Externals}.

(** C6 fails for [lttng_list_events]: with a [NULL] handle or a [NULL]
    channel name, the safety check of lines 2212-2215 jumps to [end],
    where the two payloads are released before they were ever
    initialized; the operation has no defined result, invalid-argument
    or other. *)
Theorem list_events_null_argument :
  (forall channel_name events s,
     lttng_list_events None channel_name events s = Fault Undefined) /\
  (forall handle events s,
     lttng_list_events handle None events s = Fault Undefined).
Proof. split; intros; [done|by destruct handle]. Qed.

End Validation.
(* ================================================================== *)
(** * The heap across a request *)

Section Memory.
Context `{Externals}.

Lemma initial_fresh w : fresh_above (initial_state w).
Proof. intros b _. apply lookup_empty. Qed.

Lemma fresh_above_grow s s' :
  fresh_above s -> heap s' = heap s -> (next_block s <= next_block s')%nat ->
  fresh_above s'.
Proof. intros Hf Hh Hn b Hb. rewrite Hh. apply Hf. lia. Qed.

Lemma fresh_above_insert s s' bytes :
  fresh_above s -> heap s' = <[next_block s := bytes]> (heap s) ->
  next_block s' = S (next_block s) ->
  fresh_above s'.
Proof.
  intros Hf Hh Hn b Hb. rewrite Hh, lookup_insert_ne by lia. apply Hf. lia.
Qed.

(** Without a place for its length, a section is refused before
    anything is allocated or read. *)
Lemma optional_data_no_len len ub s r s' :
  recv_sessiond_optional_data len ub None s = Done r s' ->
  s' = s /\
  (r = (- LTTNG_ERR_INVALID, ub, None) \/
   (len = 0 /\
    r = (0, match ub with Some _ => Some None | None => None end, None))).
Proof.
  unfold recv_sessiond_optional_data. destruct (len =? 0) eqn:Hlen; simpl.
  - apply Z.eqb_eq in Hlen. intros [= <- <-]. auto.
  - intros [= <- <-]. auto.
Qed.

Lemma optional_data_null len ul s ret ub' ul' s' :
  recv_sessiond_optional_data len None ul s = Done (ret, ub', ul') s' ->
  ub' = None.
Proof.
  intros Hrun. destruct s as [sock conn hp nxt tr clk w]. by run Hrun.
Qed.

(** The heap after a request of the fixed-header path that has no
    place for a command header: as it was, or with one more block, the
    payload, which the caller received. *)
Lemma fds_varlen_memory lsm fds nb_fd vardata vardata_len buf s ret out' s' :
  lttng_ctl_ask_sessiond_fds_varlen lsm fds nb_fd vardata vardata_len
    {| user_payload_buf := buf; user_cmd_header_buf := None;
       user_cmd_header_len := None |} s = Done (ret, out') s' ->
  fresh_above s ->
  fresh_above s' /\
  ((heap s' = heap s /\
    (user_payload_buf out' = buf \/
     (buf <> None /\ user_payload_buf out' = Some None))) \/
   (exists bytes, buf <> None /\
      user_payload_buf out' = Some (Some (next_block s)) /\
      heap s' = <[next_block s := bytes]> (heap s))).
Proof.
  intros Hrun Hfresh.
  set (out := {| user_payload_buf := buf; user_cmd_header_buf := None;
                 user_cmd_header_len := None |}) in *.
  set (Q := fun (r : Z * ask_outputs) (s' : state) =>
    fresh_above s' /\
    ((heap s' = heap s /\
      (user_payload_buf r.2 = buf \/
       (buf <> None /\ user_payload_buf r.2 = Some None))) \/
     (exists bytes, buf <> None /\
        user_payload_buf r.2 = Some (Some (next_block s)) /\
        heap s' = <[next_block s := bytes]> (heap s)))).
  assert (Hleaf : forall ret0 (out0 : ask_outputs) st0,
            heap st0 = heap s -> (next_block s <= next_block st0)%nat ->
            user_payload_buf out0 = buf ->
            hoare (fun x => x = st0) (end_ ret0 out0) Q).
  { intros ret0 out0 st0 E0 N0 B0 ? ? ? -> (-> & E & N & _)%end_result.
    split; [eapply fresh_above_grow; [done|congruence|lia]|].
    left. split; [congruence|by left]. }
  assert (Hleaf0 : forall ret0 (out0 : ask_outputs),
            user_payload_buf out0 = buf ->
            hoare (unread_untouched s) (end_ ret0 out0) Q).
  { intros ret0 out0 B0 st r st' (_ & E0 & N0) Hend.
    eapply Hleaf; [| |exact B0|reflexivity|exact Hend]; [done|lia]. }
  assert (Hh : hoare (unread_untouched s)
    (lttng_ctl_ask_sessiond_fds_varlen lsm fds nb_fd vardata vardata_len out)
    Q).
  { unfold lttng_ctl_ask_sessiond_fds_varlen.
    hoare_walk ltac:(apply hoare_unread_untouched; [adds_tac|mem_tac])
               ltac:(by apply Hleaf0).
    intros st r' st' (_ & Hheap & Hnext) Hbody. invert_run Hbody.
    match goal with
    | Hc : recv_data_sessiond _ _ = Done ?x _ |- _ => destruct x as [ret0 hdr]
    end.
    assert (Hm : keeps_memory (recv_data_sessiond sizeof_lttcomm_lttng_msg))
      by mem_tac.
    destruct (Hm _ _ _ Hcall) as [Hheap1 Hnext1]. clear Hcall.
    destruct (ret0 <? 0);
      [refine (Hleaf _ _ s0 _ _ _ _ _ _ eq_refl Hbody);
       [congruence|lia|reflexivity]|].
    destruct (negb _);
      [refine (Hleaf _ _ s0 _ _ _ _ _ _ eq_refl Hbody);
       [congruence|lia|reflexivity]|].
    (* the command header *)
    invert_run Hbody. apply optional_data_no_len in Hcall as [-> Hr].
    destruct Hr as [->|[_ ->]]; cbv beta iota zeta in Hbody.
    { rewrite (proj2 (Z.ltb_lt _ _)) in Hbody by lia.
      refine (Hleaf _ _ s0 _ _ _ _ _ _ eq_refl Hbody);
        [congruence|lia|reflexivity]. }
    change (0 <? 0) with false in Hbody. cbv iota in Hbody.
    (* the data *)
    invert_run Hbody.
    match goal with
    | Hc : recv_sessiond_optional_data _ _ _ _ = Done ?x _ |- _ =>
        destruct x as [[ret2 ub2] ul2]
    end.
    cbv beta iota zeta in Hbody.
    assert (Hfr : heap s0 !! next_block s0 = None)
      by (rewrite Hheap1, Hnext1, Hheap, Hnext; by apply Hfresh).
    destruct (recv_sessiond_optional_data_memory _ _ _ _ _ _ _ _ Hcall Hfr)
      as [(Hneg & -> & _ & Hheap2 & Hnext2)
         |[(Hpos & Hheap2 & Hnext2 & ->)
          |(Hpos & Hnext2 & bytes & -> & Hheap2)]].
    - rewrite (proj2 (Z.ltb_lt _ _)) in Hbody by done.
      refine (Hleaf _ _ _ _ _ _ _ _ _ eq_refl Hbody);
        [congruence|lia|reflexivity].
    - rewrite (proj2 (Z.ltb_ge _ _)) in Hbody by done.
      apply end_result in Hbody as (-> & E & N & _).
      split; [eapply fresh_above_grow; [done|congruence|lia]|].
      left. split; [congruence|]. simpl.
      destruct buf; [right|left]; done.
    - rewrite (proj2 (Z.ltb_ge _ _)) in Hbody by done.
      apply end_result in Hbody as (-> & E & N & _).
      assert (Hsame : next_block s0 = next_block s) by congruence.
      split.
      + eapply (fresh_above_insert s _ bytes); [done| |congruence].
        rewrite E, Hheap2, Hheap1, Hheap, Hsame. done.
      + right. exists bytes. simpl. rewrite Hsame.
        split; [|split; [done|]].
        * intros ->. by apply optional_data_null in Hcall.
        * rewrite E, Hheap2, Hheap1, Hheap, Hsame. done. }
  refine (Hh _ _ _ _ Hrun). split; [|done]. exists []. by rewrite app_nil_r.
Qed.

End Memory.
(* ================================================================== *)
(** * The operations, one after the other *)

(** The traversal of an operation under an invariant that each of its
    steps keeps; [step] shows it for one step. *)
Ltac op_walk step :=
  cbv zeta;
  repeat lazymatch goal with
  | |- hoare ?P (bind _ _) _ =>
      eapply (hoare_bind _ (fun _ => P)); [ solve [step] | intros ? ]
  | |- hoare _ (Return _) _ => apply hoare_ret; intros; assumption
  | |- hoare _ (fail _) _ => apply hoare_fail
  | |- hoare _ (if ?c then _ else _) _ => destruct c eqn:?
  | |- hoare _ (match ?x with _ => _ end) _ => destruct x eqn:?
  end.

Section InterfaceFacts.
Context `{Externals}.

Lemma fds_varlen_idle lsm fds nb_fd vardata vardata_len out s r s' :
  lttng_ctl_ask_sessiond_fds_varlen lsm fds nb_fd vardata vardata_len out s
  = Done r s' ->
  connected s' = false /\ (sessiond_socket s = -1 -> sessiond_socket s' = -1).
Proof.
  intros Hrun. unfold lttng_ctl_ask_sessiond_fds_varlen in Hrun.
  apply (exchange_closes (fun _ => _)) in Hrun as (? & ? & _); [done|].
  intros fd tr0.
  hoare_walk ltac:(apply hoare_in_exchange; [keeps_tac|adds_tac])
             ltac:(apply hoare_end).
Qed.

Lemma payload_idle message reply s r s' :
  lttng_ctl_ask_sessiond_payload message reply s = Done r s' ->
  connected s' = false /\ (sessiond_socket s = -1 -> sessiond_socket s' = -1).
Proof.
  intros Hrun. unfold lttng_ctl_ask_sessiond_payload in Hrun.
  destruct (negb (buffer_size (buffer reply) =? 0)); [done|].
  destruct (negb (Z.of_nat (length (_fd_handles reply)) =? 0)); [done|].
  apply (exchange_closes (fun _ => _)) in Hrun as (? & ? & _); [done|].
  intros fd tr0.
  hoare_walk ltac:(apply hoare_in_exchange; [keeps_tac|adds_tac])
             ltac:(apply hoare_end).
Qed.

Lemma idle_of_keeps {A} (m : M A) :
  keeps_connection m -> hoare idle m (fun _ => idle).
Proof.
  intros Hk s a s' [Hc Hs] Hrun. destruct (Hk _ _ _ Hrun) as [E1 E2].
  split; congruence.
Qed.

Lemma varlen_idle lsm vardata vardata_len buf :
  hoare idle (lttng_ctl_ask_sessiond_varlen_no_cmd_header lsm vardata
                vardata_len buf) (fun _ => idle).
Proof.
  intros s r s' [Hc Hs] Hrun.
  unfold lttng_ctl_ask_sessiond_varlen_no_cmd_header in Hrun.
  invert_run Hrun. destruct a as [ret out]. invert_run Hrun.
  apply fds_varlen_idle in Hcall as [Hc' Hs']. split; auto.
Qed.

Lemma ask_idle lsm buf :
  hoare idle (lttng_ctl_ask_sessiond lsm buf) (fun _ => idle).
Proof. apply varlen_idle. Qed.

Lemma ask_payload_idle message reply :
  hoare idle (lttng_ctl_ask_sessiond_payload message reply) (fun _ => idle).
Proof.
  intros s r s' [Hc Hs] Hrun. apply payload_idle in Hrun as [Hc' Hs'].
  split; auto.
Qed.

Lemma flatten_pass_keeps whole buf n : forall c listing refs,
  keeps_connection (flatten_pass whole buf n c listing refs).
Proof.
  induction n as [|n IH]; intros c listing refs; cbn [flatten_pass].
  - keeps_tac.
  - keeps_tac; apply IH.
Qed.

Lemma flatten_events_keeps payload payload_copy :
  keeps_connection (flatten_events payload payload_copy).
Proof. unfold flatten_events. keeps_tac; apply flatten_pass_keeps. Qed.

Ltac idle_step :=
  first [ apply ask_idle | apply varlen_idle | apply ask_payload_idle
        | apply idle_of_keeps; first [ apply flatten_events_keeps
                                     | solve [keeps_tac] ] ].

Ltac idle_walk := op_walk ltac:(first [idle_step | idle_walk]).

Lemma data_pending_idle session_name :
  hoare idle (lttng_data_pending session_name) (fun _ => idle).
Proof. unfold lttng_data_pending. op_walk idle_step. Qed.

Lemma wait_idle fuel session_name ret :
  hoare idle (wait_data_pending fuel session_name ret) (fun _ => idle).
Proof.
  induction fuel as [|fuel IH]; cbn [wait_data_pending];
    op_walk ltac:(first [apply data_pending_idle | apply IH | idle_step]).
  apply IH.
Qed.

Lemma stop_idle fuel session_name wait :
  hoare idle (_lttng_stop_tracing fuel session_name wait) (fun _ => idle).
Proof.
  unfold _lttng_stop_tracing.
  op_walk ltac:(first [apply wait_idle | idle_step]).
  all: apply wait_idle.
Qed.

Lemma perform_idle (c : api_call) : hoare idle (perform c) (fun _ => idle).
Proof.
  destruct c; unfold perform;
    lazymatch goal with
    | |- hoare _ (lttng_data_pending _) _ => apply data_pending_idle
    | |- hoare _ (lttng_stop_tracing _ _) _ => apply stop_idle
    | |- hoare _ (lttng_stop_tracing_no_wait _ _) _ => apply stop_idle
    | |- _ => idtac
    end.
  all: unfold lttng_register_consumer, lttng_start_tracing, lttng_add_context,
         lttng_disable_event_ext, lttng_disable_channel,
         lttng_set_session_shm_path, lttng_metadata_regenerate,
         lttng_regenerate_metadata, lttng_regenerate_statedump,
         lttng_list_tracepoints, lttng_list_syscalls, lttng_list_sessions,
         lttng_list_domains, lttng_list_channels, lttng_list_events.
  all: idle_walk.
Qed.

(** An idle library is idle again after any program of the client. *)
Lemma perform_all_idle calls : hoare idle (perform_all calls) (fun _ => idle).
Proof.
  induction calls as [|c calls IH]; cbn [perform_all].
  - by apply hoare_ret.
  - op_walk ltac:(first [apply perform_idle | apply IH]).
Qed.

(** ** No block is left behind *)

Lemma tidy_of_keeps {A} s0 (m : M A) :
  keeps_memory m -> hoare (tidy s0) m (fun _ => tidy s0).
Proof.
  intros Hk s a s' [Hh Hf] Hrun. destruct (Hk _ _ _ Hrun) as [E1 E2].
  split; [congruence|]. eapply fresh_above_grow; [done..|lia].
Qed.

Lemma varlen_memory lsm vardata vardata_len buf s ret buf' s' :
  lttng_ctl_ask_sessiond_varlen_no_cmd_header lsm vardata vardata_len buf s
  = Done (ret, buf') s' ->
  fresh_above s ->
  fresh_above s' /\
  ((heap s' = heap s /\ (buf' = buf \/ (buf <> None /\ buf' = Some None))) \/
   (exists bytes, buf <> None /\ buf' = Some (Some (next_block s)) /\
      heap s' = <[next_block s := bytes]> (heap s))).
Proof.
  unfold lttng_ctl_ask_sessiond_varlen_no_cmd_header. intros Hrun Hfresh.
  invert_run Hrun. destruct a as [ret0 out]. invert_run Hrun. simplify_eq.
  by eapply fds_varlen_memory.
Qed.

Lemma varlen_null_tidy s0 lsm vardata vardata_len :
  hoare (tidy s0)
    (lttng_ctl_ask_sessiond_varlen_no_cmd_header lsm vardata vardata_len None)
    (fun _ => tidy s0).
Proof.
  intros s [ret buf'] s' [Hh Hf] Hrun.
  apply varlen_memory in Hrun as (Hf' & [[Hh' _]|(? & ? & _)]); [|done..].
  split; [congruence|done].
Qed.

Lemma ask_null_tidy s0 lsm :
  hoare (tidy s0) (lttng_ctl_ask_sessiond lsm None) (fun _ => tidy s0).
Proof. apply varlen_null_tidy. Qed.

Lemma zmalloc_spec len s b s1 :
  zmalloc len s = Done b s1 ->
  (b = None /\ heap s1 = heap s /\ next_block s1 = next_block s) \/
  (b = Some (next_block s) /\
   heap s1 = <[next_block s := replicate (Z.to_nat len) x00]> (heap s) /\
   next_block s1 = S (next_block s)).
Proof.
  intros Hrun. destruct s as [sock conn hp nxt tr clk w].
  run Hrun; simpl; auto.
Qed.

Lemma store_spec b bytes s u s1 :
  store b bytes s = Done u s1 ->
  exists old, heap s !! b = Some old /\
    heap s1 = <[b := overlay old bytes]> (heap s) /\
    next_block s1 = next_block s.
Proof.
  intros Hrun. destruct s as [sock conn hp nxt tr clk w].
  run Hrun; simpl. eauto.
Qed.

Lemma free_spec b s u s1 :
  free (Some b) s = Done u s1 ->
  is_Some (heap s !! b) /\ heap s1 = delete b (heap s) /\
  next_block s1 = next_block s.
Proof.
  intros Hrun. destruct s as [sock conn hp nxt tr clk w].
  run Hrun; simpl. eauto.
Qed.

(** A block that lives for the time of one request. *)
Lemma scoped_block_tidy {B} s0 len bytes (e : Z) (body : M (Z * B)) :
  (forall s1, hoare (tidy s1) body (fun _ => tidy s1)) ->
  hoare (tidy s0)
    (let* buf := zmalloc len in
     match buf with
     | None => Return e
     | Some b =>
         let* _ := store b bytes in
         let* '(ret, _) := body in
         let* _ := free (Some b) in
         Return ret
     end) (fun _ => tidy s0).
Proof.
  intros Hbody s r s' [Hh Hf] Hrun. invert_run Hrun.
  apply zmalloc_spec in Hcall
    as [(-> & Hh1 & Hn1)|(-> & Hh1 & Hn1)].
  { invert_run Hrun. split; [congruence|].
    eapply fresh_above_grow; [done..|lia]. }
  invert_run Hrun. apply store_spec in Hcall as (old & _ & Hh2 & Hn2).
  invert_run Hrun. destruct a0 as [ret x].
  assert (Hf2 : fresh_above s2).
  { intros b Hb. rewrite Hh2, Hh1, !lookup_insert_ne by lia. apply Hf. lia. }
  destruct (Hbody s2 s2 _ _ (conj eq_refl Hf2) Hcall) as [Hh3 Hf3].
  invert_run Hrun. apply free_spec in Hcall0 as (_ & Hh4 & Hn4).
  invert_run Hrun.
  assert (Hback : heap s' = heap s).
  { rewrite Hh4, Hh3, Hh2, Hh1, insert_insert_eq.
    apply delete_insert_id, Hf. lia. }
  split; [congruence|].
  assert (Hlive : (next_block s < next_block s3)%nat).
  { destruct (decide (next_block s3 <= next_block s)%nat) as [Hle|]; [|lia].
    apply Hf3 in Hle. by rewrite Hh3, Hh2, lookup_insert_eq in Hle. }
  intros b Hb. rewrite Hback. apply Hf. lia.
Qed.

Lemma release_restores s s1 u s' bytes :
  fresh_above s -> fresh_above s1 ->
  heap s1 = <[next_block s := bytes]> (heap s) ->
  free (Some (next_block s)) s1 = Done u s' ->
  heap s' = heap s /\ fresh_above s'.
Proof.
  intros Hf Hf1 Hh1 (_ & Hh & Hn)%free_spec.
  assert (Hback : heap s' = heap s).
  { rewrite Hh, Hh1. apply delete_insert_id, Hf. lia. }
  split; [done|].
  assert (Hlive : (next_block s < next_block s1)%nat).
  { destruct (decide (next_block s1 <= next_block s)%nat) as [Hle|]; [|lia].
    apply Hf1 in Hle. by rewrite Hh1, lookup_insert_eq in Hle. }
  intros b Hb. rewrite Hback. apply Hf. lia.
Qed.

Lemma data_pending_tidy s0 session_name :
  hoare (tidy s0) (lttng_data_pending session_name) (fun _ => tidy s0).
Proof.
  unfold lttng_data_pending. destruct session_name as [name|];
    [|by apply hoare_ret].
  intros s r s' [Hh Hf] Hrun. invert_run Hrun.
  apply copy_field_pure in Hcall as ->. invert_run Hrun.
  destruct a0 as [ret pending]. unfold lttng_ctl_ask_sessiond in Hcall.
  apply varlen_memory in Hcall
    as (Hf1 & [[Hh1 Hcell]|(bytes & _ & -> & Hh1)]); [| |done].
  - assert (pending = Some None) as -> by (by destruct Hcell as [->|[_ ->]]).
    cbn [cell] in Hrun.
    assert (s' = s1) as ->.
    { destruct (ret <? 0); [|destruct (negb _)].
      - invert_run Hrun. invert_run Hrun. by injection Hcall.
      - invert_run Hrun. invert_run Hrun. by injection Hcall.
      - by invert_run Hrun. }
    split; [congruence|done].
  - cbn [cell] in Hrun.
    assert (Hfree : exists u st, free (Some (next_block s)) st = Done u s' /\
              heap st = heap s1 /\ next_block st = next_block s1).
    { destruct (ret <? 0); [|destruct (negb _)].
      - invert_run Hrun. invert_run Hrun. eauto.
      - invert_run Hrun. invert_run Hrun. eauto.
      - invert_run Hrun. unfold get in Hcall. injection Hcall as <- <-.
        destruct (heap s1 !! next_block s) as [[|v l]|]; [done| |done].
        invert_run Hrun. invert_run Hrun. eauto. }
    destruct Hfree as (u & st & Hfree & Hst & Hnst).
    assert (Hfst : fresh_above st).
    { intros b Hb. rewrite Hst. apply Hf1. lia. }
    rewrite <- Hst in Hh1.
    destruct (release_restores _ _ _ _ _ Hf Hfst Hh1 Hfree) as [Hback Hf'].
    split; [congruence|done].
Qed.

Ltac tidy_step :=
  first [ apply ask_null_tidy | apply varlen_null_tidy
        | apply data_pending_tidy
        | apply tidy_of_keeps; solve [mem_tac] ].

Ltac tidy_walk :=
  cbv zeta;
  repeat lazymatch goal with
  | |- hoare _ (bind (zmalloc _) _) _ =>
      apply scoped_block_tidy; intros; apply varlen_null_tidy
  | |- hoare ?P (bind _ _) _ =>
      eapply (hoare_bind _ (fun _ => P));
      [ solve [first [tidy_step | tidy_walk]] | intros ? ]
  | |- hoare _ (Return _) _ => apply hoare_ret; intros; assumption
  | |- hoare _ (fail _) _ => apply hoare_fail
  | |- hoare _ (if ?c then _ else _) _ => destruct c eqn:?
  | |- hoare _ (match ?x with _ => _ end) _ => destruct x eqn:?
  end.

Lemma wait_tidy s0 fuel session_name ret :
  hoare (tidy s0) (wait_data_pending fuel session_name ret) (fun _ => tidy s0).
Proof.
  induction fuel as [|fuel IH]; cbn [wait_data_pending]; tidy_walk.
  apply IH.
Qed.

Lemma stop_tidy s0 fuel session_name wait :
  hoare (tidy s0) (_lttng_stop_tracing fuel session_name wait)
    (fun _ => tidy s0).
Proof. unfold _lttng_stop_tracing. tidy_walk. all: apply wait_tidy. Qed.

Lemma perform_tidy s0 (c : api_call) :
  is_control c = true -> hoare (tidy s0) (perform c) (fun _ => tidy s0).
Proof.
  destruct c; try done; intros _; unfold perform;
    lazymatch goal with
    | |- hoare _ (lttng_data_pending _) _ => apply data_pending_tidy
    | |- hoare _ (lttng_stop_tracing _ _) _ => apply stop_tidy
    | |- hoare _ (lttng_stop_tracing_no_wait _ _) _ => apply stop_tidy
    | |- _ => idtac
    end.
  all: unfold lttng_register_consumer, lttng_start_tracing, lttng_add_context,
         lttng_disable_event_ext, lttng_disable_channel,
         lttng_set_session_shm_path, lttng_metadata_regenerate,
         lttng_regenerate_metadata, lttng_regenerate_statedump.
  all: tidy_walk.
Qed.

(** ** One exchange for a call *)

Lemma local_counts t :
  Forall local_event t ->
  sleeps t = 0%nat /\ exchanges t = 0%nat /\ commands t = [].
Proof. induction 1 as [|[] t Hx Ht IH]; simpl in *; done. Qed.

Lemma still_calm s cmd st : still s st -> calm s cmd st.
Proof.
  intros (t & Ht & Ft). destruct (local_counts t Ft) as (Hs & He & Hc).
  exists t. rewrite Hs, He, Hc. repeat split; [done|lia|constructor].
Qed.

Lemma hoare_still {A} s (m : M A) :
  adds local_event m -> hoare (still s) m (fun _ => still s).
Proof.
  intros Ha st a st' (t & Ht & Ft) Hrun.
  destruct (Ha _ _ _ Hrun) as (t' & Ht' & Ft').
  exists (t ++ t'). split; [by rewrite Ht', Ht, app_assoc|by apply Forall_app].
Qed.

Lemma hoare_calm {A} s cmd (m : M A) :
  adds local_event m -> hoare (calm s cmd) m (fun _ => calm s cmd).
Proof.
  intros Ha st a st' (t & Ht & Hs & He & Hc) Hrun.
  destruct (Ha _ _ _ Hrun) as (t' & Ht' & Ft').
  destruct (local_counts t' Ft') as (Hs' & He' & Hc').
  exists (t ++ t'). rewrite sleeps_app, exchanges_app, commands_app.
  rewrite Hs', He', Hc', app_nil_r.
  repeat split; [by rewrite Ht', Ht, app_assoc|lia..|done].
Qed.

Lemma varlen_calm s lsm vardata vardata_len buf :
  hoare (still s)
    (lttng_ctl_ask_sessiond_varlen_no_cmd_header lsm vardata vardata_len buf)
    (fun _ => calm s (cmd_type lsm)).
Proof.
  intros st r st' (t & Ht & Ft) Hrun.
  unfold lttng_ctl_ask_sessiond_varlen_no_cmd_header in Hrun.
  invert_run Hrun. destruct a as [ret out]. invert_run Hrun.
  apply fds_varlen_exchange in Hcall as (t' & Ht' & Hex).
  destruct (one_exchange_counts _ _ Hex) as (Hs' & He' & Hc').
  destruct (local_counts t Ft) as (Hs & He & Hc).
  exists (t ++ t'). rewrite sleeps_app, exchanges_app, commands_app.
  rewrite Hs, He, Hc, Hs', He'.
  repeat split; [by rewrite Ht', Ht, app_assoc|lia|done].
Qed.

Lemma ask_calm s lsm buf :
  hoare (still s) (lttng_ctl_ask_sessiond lsm buf)
    (fun _ => calm s (cmd_type lsm)).
Proof. apply varlen_calm. Qed.

Ltac calm_walk :=
  cbv zeta;
  repeat lazymatch goal with
  | |- hoare (still _) (bind (lttng_ctl_ask_sessiond _ _) _) _ =>
      eapply hoare_bind; [ apply ask_calm | intros ? ]
  | |- hoare (still _)
         (bind (lttng_ctl_ask_sessiond_varlen_no_cmd_header _ _ _ _) _) _ =>
      eapply hoare_bind; [ apply varlen_calm | intros ? ]
  | |- hoare (still ?s) (bind _ _) (fun _ => calm ?s ?c) =>
      first [ eapply (hoare_bind _ (fun _ => still s));
              [ solve [apply hoare_still; adds_tac] | intros ? ]
            | eapply (hoare_bind _ (fun _ => calm s c));
              [ solve [calm_walk] | intros ? ] ]
  | |- hoare (calm ?s ?c) (bind _ _) _ =>
      eapply (hoare_bind _ (fun _ => calm s c));
      [ solve [apply hoare_calm; adds_tac] | intros ? ]
  | |- hoare _ (Return _) _ =>
      apply hoare_ret; intros; first [ assumption | by apply still_calm ]
  | |- hoare _ (fail _) _ => apply hoare_fail
  | |- hoare _ (if ?c then _ else _) _ => destruct c eqn:?
  | |- hoare _ (match ?x with _ => _ end) _ => destruct x eqn:?
  end.

Lemma perform_calm s (c : api_call) cmd :
  command_of c = Some cmd ->
  hoare (still s) (perform c) (fun _ => calm s cmd).
Proof.
  destruct c; intros [= <-]; unfold perform.
  all: unfold lttng_register_consumer, lttng_start_tracing,
         lttng_stop_tracing_no_wait, _lttng_stop_tracing,
         lttng_data_pending, lttng_add_context,
         lttng_disable_event_ext, lttng_disable_channel,
         lttng_set_session_shm_path, lttng_metadata_regenerate,
         lttng_regenerate_metadata, lttng_regenerate_statedump,
         lttng_list_tracepoints, lttng_list_syscalls, lttng_list_sessions,
         lttng_list_domains, lttng_list_channels.
  all: calm_walk.
  (* without [wait], the loop is not entered *)
  match goal with Hz : (0 =? 0) = false |- _ => discriminate Hz end.
Qed.

Lemma perform_all_length calls : forall s rets s',
  perform_all calls s = Done rets s' -> length rets = length calls.
Proof.
  induction calls as [|c calls IH]; intros s rets s' Hrun;
    cbn [perform_all] in Hrun.
  - by invert_run Hrun.
  - invert_run Hrun. invert_run Hrun. invert_run Hrun. simpl.
    f_equal. by eapply IH.
Qed.

(** X1: The connection does not outlive a call: a client that starts with
    an idle library (no socket, not connected) finds it idle again after
    any program of calls, each of which has returned its [int]. *)
Theorem programs_end_idle (calls : list api_call) s rets s' :
  idle s ->
  perform_all calls s = Done rets s' ->
  idle s' /\ length rets = length calls.
Proof.
  intros Hidle Hrun. split.
  - by eapply perform_all_idle.
  - by eapply perform_all_length.
Qed.

Lemma perform_all_tidy s0 calls :
  Forall (fun c => is_control c = true) calls ->
  hoare (tidy s0) (perform_all calls) (fun _ => tidy s0).
Proof.
  induction 1 as [|c calls Hc _ IH]; cbn [perform_all].
  - by apply hoare_ret.
  - op_walk ltac:(first [by apply perform_tidy | apply IH]).
Qed.

(** X2: The calls that return no buffer leave no block behind: after any
    program of them, the heap is what it was; the blocks obtained for
    the variable part of a command or for the reply were all freed,
    on the paths that fail as on those that succeed. *)
Theorem control_programs_leave_no_block (calls : list api_call) s rets s' :
  Forall (fun c => is_control c = true) calls ->
  fresh_above s ->
  perform_all calls s = Done rets s' ->
  heap s' = heap s /\ fresh_above s'.
Proof.
  intros Hcalls Hfresh Hrun.
  by eapply (perform_all_tidy s calls Hcalls s rets s' (conj eq_refl Hfresh)).
Qed.

(** X3: A call of the fixed-header path other than the waiting stop makes
    at most one exchange with the daemon, never pauses, and sends no
    command but its own. *)
Theorem one_exchange_per_call (c : api_call) cmd s ret s' :
  command_of c = Some cmd ->
  perform c s = Done ret s' ->
  sleeps (new_events s s') = 0%nat /\
  (exchanges (new_events s s') <= 1)%nat /\
  Forall (eq cmd) (commands (new_events s s')).
Proof.
  intros Hcmd Hrun.
  assert (Hstill : still s s) by (exists []; by rewrite app_nil_r).
  destruct (perform_calm s c cmd Hcmd s ret s' Hstill Hrun)
    as (t & Ht & Hcalm).
  by rewrite (new_events_app _ _ _ Ht).
Qed.

End InterfaceFacts.
(* ================================================================== *)
(** * The character arrays of the command records *)

Section FieldFacts.
Context `{Externals}.

Lemma copy_string_spec (d : list byte) (src : option (list byte)) (len : Z) :
  1 <= len <= Z.of_nat (length d) ->
  exists d',
    lttng_ctl_copy_string (Some d) src len = Some (Some d') /\
    length d' = length d /\
    drop (Z.to_nat len) d' = drop (Z.to_nat len) d /\
    (exists i, (i < Z.to_nat len)%nat /\ d' !! i = Some x00) /\
    c_str d' = match src with
               | Some s => take (Z.to_nat (len - 1)) (c_str s)
               | None => []
               end.
Proof.
  intros Hlen. destruct src as [s|].
  - rewrite copy_string_value by done. eexists; split; [done|].
    set (n := Z.to_nat (len - 1)).
    set (padded := c_str s ++ replicate (Z.to_nat len) x00).
    assert (Hp : (n < length padded)%nat).
    { unfold padded. rewrite length_app, length_replicate. lia. }
    assert (Ht : length (take n padded) = n) by (rewrite length_take; lia).
    repeat split.
    + rewrite length_app, Ht. simpl. rewrite length_drop. lia.
    + change (take n padded ++ x00 :: drop (Z.to_nat len) d)
        with (take n padded ++ [x00] ++ drop (Z.to_nat len) d).
      rewrite (assoc_L (++)).
      apply drop_app_length'. rewrite length_app, Ht. simpl. lia.
    + exists n. split; [lia|].
      by rewrite lookup_app_r, Ht, Nat.sub_diag by lia.
    + apply c_str_take_padded, c_str_nul_free.
  - destruct d as [|b d]; simpl in *; [lia|].
    eexists; split; [done|]. repeat split.
    + replace (Z.to_nat len) with (S (Z.to_nat (len - 1))) by lia. done.
    + exists 0%nat. split; [lia|done].
Qed.

(** A field of [size] bytes filled by [lttng_ctl_copy_string]: the
    copy always succeeds, changes no state, and leaves in the field the
    string of the source cut to [size - 1] characters. *)
Lemma copy_field_spec (size : positive) src s :
  exists d,
    copy_field size src s = Done d s /\
    length d = Pos.to_nat size /\
    (exists i, (i < Pos.to_nat size)%nat /\ d !! i = Some x00) /\
    c_str d = match src with
              | Some x => take (Pos.to_nat size - 1) (c_str x)
              | None => []
              end.
Proof.
  assert (Hlen : 1 <= size
                 <= Z.of_nat (length (replicate (Z.to_nat size) x00)))
    by (rewrite length_replicate; lia).
  destruct (copy_string_spec _ src _ Hlen)
    as (d & Hcopy & Hlength & _ & Hnul & Hstr).
  exists d. unfold copy_field. rewrite Hcopy.
  rewrite length_replicate in Hlength.
  replace (Z.to_nat size) with (Pos.to_nat size) in * by lia.
  replace (Z.to_nat (size - 1)) with (Pos.to_nat size - 1)%nat in Hstr by lia.
  done.
Qed.

Lemma hoare_copy_field {B} (P : state -> Prop) (size : positive) src
    (k : list byte -> M B) Q :
  (forall d,
     terminated size d ->
     c_str d = match src with
               | Some x => take (Pos.to_nat size - 1) (c_str x)
               | None => []
               end ->
     hoare P (k d) Q) ->
  hoare P (bind (copy_field size src) k) Q.
Proof.
  intros Hk s b s' HP Hrun. unfold bind in Hrun.
  destruct (copy_field_spec size src s) as (d & Hcopy & Hlen & Hnul & Hstr).
  rewrite Hcopy in Hrun. by eapply (Hk d).
Qed.

Lemma zeroed_terminated (size : positive) :
  terminated size (replicate (Z.to_nat size) x00).
Proof.
  split; [rewrite length_replicate; lia|].
  exists 0%nat. split; [lia|]. apply lookup_replicate_2. lia.
Qed.

(** ** What the operations say to the daemon *)

Lemma hoare_said {A} P s (m : M A) :
  adds P m -> hoare (said P s) m (fun _ => said P s).
Proof.
  intros Ha st a st' (t & Ht & Ft) Hrun.
  destruct (Ha _ _ _ Hrun) as (t' & Ht' & Ft').
  exists (t ++ t'). split; [by rewrite Ht', Ht, app_assoc|by apply Forall_app].
Qed.

Lemma said_new_events P s s' : said P s s' -> Forall P (new_events s s').
Proof. intros (t & Ht & Ft). by rewrite (new_events_app _ _ _ Ht). Qed.

Lemma said_refl P s : said P s s.
Proof. exists []. by rewrite app_nil_r. Qed.

Lemma said_run {A} P (m : M A) s a s' :
  hoare (said P s) m (fun _ => said P s) ->
  m s = Done a s' ->
  Forall P (new_events s s').
Proof.
  intros Hm Hrun. apply said_new_events.
  exact (Hm s a s' (said_refl P s) Hrun).
Qed.

Lemma varlen_request lsm vardata vardata_len buf :
  adds (request_event lsm vardata vardata_len)
    (lttng_ctl_ask_sessiond_varlen_no_cmd_header lsm vardata vardata_len buf).
Proof. adds_tac. Qed.

Lemma varlen_said P s lsm vardata vardata_len buf :
  (forall e, request_event lsm vardata vardata_len e -> P e) ->
  hoare (said P s)
    (lttng_ctl_ask_sessiond_varlen_no_cmd_header lsm vardata vardata_len buf)
    (fun _ => said P s).
Proof.
  intros HP. apply hoare_said.
  eapply adds_weaken; [exact HP|apply varlen_request].
Qed.

Lemma ask_said P s lsm buf :
  (forall e, request_event lsm None 0 e -> P e) ->
  hoare (said P s) (lttng_ctl_ask_sessiond lsm buf) (fun _ => said P s).
Proof. apply varlen_said. Qed.

End FieldFacts.

(** The traversal of an operation: the fields are filled, then the
    record is sent; [wf] shows that the events of the request are as
    the invariant wants them. *)
Ltac said_walk wf :=
  cbv zeta;
  repeat lazymatch goal with
  | |- hoare _ (bind (copy_field _ _) _) _ =>
      apply hoare_copy_field; intros ? ? ?
  | |- hoare ?P (bind (lttng_ctl_ask_sessiond _ _) _) _ =>
      eapply (hoare_bind _ (fun _ => P));
      [ apply ask_said; intros [] ?; simpl in *; solve [wf] | intros ? ]
  | |- hoare ?P
         (bind (lttng_ctl_ask_sessiond_varlen_no_cmd_header _ _ _ _) _) _ =>
      eapply (hoare_bind _ (fun _ => P));
      [ apply varlen_said; intros [] ?; simpl in *; solve [wf] | intros ? ]
  | |- hoare ?P (bind _ _) _ =>
      eapply (hoare_bind _ (fun _ => P));
      [ first [ solve [apply hoare_said; adds_tac]
              | solve [said_walk wf] ]
      | intros ? ]
  | |- hoare _ (Return _) _ => apply hoare_ret; intros; assumption
  | |- hoare _ (fail _) _ => apply hoare_fail
  | |- hoare _ (if ?c then _ else _) _ => destruct c eqn:?
  | |- hoare _ (match ?x with _ => _ end) _ => destruct x eqn:?
  end.

Ltac unfold_operations :=
  unfold lttng_register_consumer, lttng_start_tracing,
    lttng_stop_tracing, lttng_stop_tracing_no_wait, _lttng_stop_tracing,
    lttng_add_context,
    lttng_disable_event_ext, lttng_disable_channel,
    lttng_set_session_shm_path, lttng_metadata_regenerate,
    lttng_regenerate_metadata, lttng_regenerate_statedump,
    lttng_list_tracepoints, lttng_list_syscalls, lttng_list_sessions,
    lttng_list_domains, lttng_list_channels.

(** ** The records sent *)

Ltac well_formed_now :=
  first [ exact I
        | subst; split; cbn;
          first [ assumption | apply zeroed_terminated | exact I ] ].

Section RecordFacts.
Context `{Externals}.

Lemma data_pending_well_formed s session_name :
  hoare (said sends_well_formed s) (lttng_data_pending session_name)
    (fun _ => said sends_well_formed s).
Proof. unfold lttng_data_pending. said_walk well_formed_now. Qed.

Lemma wait_well_formed s fuel session_name ret :
  hoare (said sends_well_formed s) (wait_data_pending fuel session_name ret)
    (fun _ => said sends_well_formed s).
Proof.
  induction fuel as [|fuel IH]; cbn [wait_data_pending].
  - apply hoare_fail.
  - eapply (hoare_bind _ (fun _ => said sends_well_formed s));
      [apply data_pending_well_formed|intros ?].
    said_walk well_formed_now. apply IH.
Qed.

Lemma perform_well_formed s (c : api_call) :
  on_fixed_header_path c = true ->
  hoare (said sends_well_formed s) (perform c)
    (fun _ => said sends_well_formed s).
Proof.
  destruct c; intros Hfixed; unfold perform; try discriminate Hfixed.
  all: lazymatch goal with
       | |- hoare _ (lttng_data_pending _) _ => apply data_pending_well_formed
       | |- _ => unfold_operations; said_walk well_formed_now
       end.
  all: apply wait_well_formed.
Qed.

(** X4: Whatever strings the caller passes, however long, every
    command record that an operation of the fixed-header path sends
    holds a NUL-terminated session name, and a NUL-terminated channel
    name or path in the member of the union that the operation fills. *)
Theorem records_sent_are_terminated (c : api_call) s ret s' :
  on_fixed_header_path c = true ->
  perform c s = Done ret s' ->
  Forall sends_well_formed (new_events s s').
Proof.
  intros Hfixed Hrun. apply said_new_events.
  by eapply (perform_well_formed s c Hfixed s ret s' (said_refl _ s)).
Qed.

(** *** The domain of the record *)

Lemma COPY_DOMAIN_PACKED_known (d : lttng_domain) :
  known_domain (dom_type (COPY_DOMAIN_PACKED d)).
Proof.
  unfold COPY_DOMAIN_PACKED, lttng_ctl_copy_lttng_domain.
  by destruct d as [[] ?].
Qed.

Local Ltac known_domain_now :=
  first [ exact I
        | subst; cbn; first [ apply COPY_DOMAIN_PACKED_known | exact I ] ].

Lemma data_pending_known_domain s session_name :
  hoare (said sends_known_domain s) (lttng_data_pending session_name)
    (fun _ => said sends_known_domain s).
Proof. unfold lttng_data_pending. said_walk known_domain_now. Qed.

Lemma wait_known_domain s fuel session_name ret :
  hoare (said sends_known_domain s) (wait_data_pending fuel session_name ret)
    (fun _ => said sends_known_domain s).
Proof.
  induction fuel as [|fuel IH]; cbn [wait_data_pending].
  - apply hoare_fail.
  - eapply (hoare_bind _ (fun _ => said sends_known_domain s));
      [apply data_pending_known_domain|intros ?].
    said_walk known_domain_now. apply IH.
Qed.

Lemma perform_known_domain s (c : api_call) :
  on_fixed_header_path c = true ->
  hoare (said sends_known_domain s) (perform c)
    (fun _ => said sends_known_domain s).
Proof.
  destruct c; intros Hfixed; unfold perform; try discriminate Hfixed.
  all: lazymatch goal with
       | |- hoare _ (lttng_data_pending _) _ => apply data_pending_known_domain
       | |- _ => unfold_operations; said_walk known_domain_now
       end.
  all: apply wait_known_domain.
Qed.

(** X5: The domain of a handle reaches the daemon only through
    [lttng_ctl_copy_lttng_domain]: no command record carries a domain
    type outside of the enumeration, whatever the handle holds. *)
Theorem records_sent_have_known_domain (c : api_call) s ret s' :
  on_fixed_header_path c = true ->
  perform c s = Done ret s' ->
  Forall sends_known_domain (new_events s s').
Proof.
  intros Hfixed Hrun. apply said_new_events.
  by eapply (perform_known_domain s c Hfixed s ret s' (said_refl _ s)).
Qed.

End RecordFacts.

(** ** The arrays of the records, filled by [lttng_ctl_copy_string] *)

Section CopiedFacts.
Context `{Externals}.





End CopiedFacts.



Section PopulatedFacts.
Context `{Externals}.







End PopulatedFacts.
(* ================================================================== *)
(** * The operations, one by one *)

Section OperationFacts.
Context `{Externals}.

(** X6: A call that lacks a mandatory argument returns
    [-LTTNG_ERR_INVALID] and changes nothing: no connection is opened,
    nothing is sent, read or allocated, and nothing is logged. *)
Theorem missing_argument_is_refused (c : api_call) s :
  lacks_argument c = true ->
  perform c s = Done (- LTTNG_ERR_INVALID) s.
Proof.
  destruct c; simpl; intros Hlacks;
    repeat match goal with
           | x : option _ |- _ => destruct x; try discriminate Hlacks
           end; reflexivity.
Qed.

(** X7: An application context without both of its names, or with an
    empty one, is refused before anything is allocated or sent. *)
Theorem add_context_needs_names (h : lttng_handle) (c : lttng_event_context)
    event_name channel_name s :
  ctx c = LTTNG_EVENT_CONTEXT_APP_CONTEXT ->
  match ctx_u c with
  | app_ctx (Some provider_name) (Some ctx_name) =>
      strlen provider_name = 0 \/ strlen ctx_name = 0
  | app_ctx _ _ => True
  | ctx_raw _ => False
  end ->
  lttng_add_context (Some h) (Some c) event_name channel_name s
  = Done (- LTTNG_ERR_INVALID) s.
Proof.
  intros Happ Hnames. unfold lttng_add_context, bind.
  destruct (copy_field_spec LTTNG_SYMBOL_NAME_LEN
              (match channel_name with None => Some [] | Some n => Some n end)
              s) as (chan & -> & _).
  destruct (copy_field_spec LTTNG_NAME_MAX (Some (h_session_name h)) s)
    as (name & -> & _).
  rewrite Happ. destruct (ctx_u c) as [[p|] [n|]|]; try done.
  destruct Hnames as [-> | ->]; [done|].
  by destruct (strlen p =? 0).
Qed.

(** X8: An application context is sent without the two addresses of its
    names: the record holds two null pointers and the lengths of the
    names, and the names travel after it as variable data, exactly as
    long as the record says. *)
Theorem app_context_names_travel_as_data (h : lttng_handle)
    (c : lttng_event_context) event_name channel_name
    (provider_name ctx_name : list byte) s ret s' :
  ctx c = LTTNG_EVENT_CONTEXT_APP_CONTEXT ->
  ctx_u c = app_ctx (Some provider_name) (Some ctx_name) ->
  lttng_add_context (Some h) (Some c) event_name channel_name s = Done ret s' ->
  Forall (app_context_event provider_name ctx_name) (new_events s s').
Proof.
  intros Happ Hu Hrun. eapply said_run; [|exact Hrun].
  unfold lttng_add_context. rewrite Happ, Hu.
  said_walk ltac:(first
    [ done
    | subst; cbn; by eexists
    | match goal with
      | Hb : Some _ = Some _ |- _ =>
          injection Hb as ->; apply take_ge;
          rewrite length_app; unfold strlen; lia
      end ]).
Qed.

(** X9: [lttng_disable_event] copies the name into an event of its own:
    however long the name, the event of the record sent holds it cut
    to the size of the array and NUL-terminated, with the log level
    -1; no name at all gives the empty string. *)
Theorem disable_event_sends_terminated_name `{Headers}
    (handle : option lttng_handle) (name channel_name : option (list byte))
    s ret s' :
  lttng_disable_event handle name channel_name s = Done ret s' ->
  Forall (disable_event_record name) (new_events s s').
Proof.
  intros Hrun. eapply said_run; [|exact Hrun].
  unfold lttng_disable_event. apply hoare_copy_field. intros d Hd Hstr.
  unfold lttng_disable_event_ext.
  said_walk ltac:(first
    [ done
    | subst; cbn; eexists _, _, _, _;
      split; [reflexivity|]; cbn;
      split; [assumption|]; split; [assumption|reflexivity] ]).
Qed.

(** X11: The two regenerate commands, and the deprecated name of the
    first, return 0 or a negative error code: the size of the reply is
    never returned. *)
Theorem regenerate_never_positive (c : api_call) s ret s' :
  command_of c = Some LTTNG_REGENERATE_METADATA \/
  command_of c = Some LTTNG_REGENERATE_STATEDUMP ->
  perform c s = Done ret s' ->
  ret <= 0.
Proof.
  intros Hc Hrun.
  cut (hoare (fun _ => True) (perform c) (fun ret _ => ret <= 0)).
  { intros Hh. exact (Hh s ret s' I Hrun). }
  clear Hrun.
  destruct c; simpl in Hc; try (by destruct Hc); clear Hc;
    unfold perform, lttng_metadata_regenerate, lttng_regenerate_metadata,
      lttng_regenerate_statedump; cbv zeta.
  all: repeat lazymatch goal with
  | |- hoare _ (bind _ _) _ =>
      eapply (hoare_bind _ (fun _ _ => True)); [done|intros ?]
  | |- hoare _ (Return _) _ => apply hoare_ret; intros _ _
  | |- hoare _ (fail _) _ => apply hoare_fail
  | |- hoare _ (if ?c then _ else _) _ => destruct c eqn:?
  | |- hoare _ (match ?x with _ => _ end) _ => destruct x eqn:?
  end.
  all: lia.
Qed.

End OperationFacts.
(* ================================================================== *)
(** * What a reply leaves to the caller *)

Section ReplyFacts.
Context `{Externals}.

(** A section of the reply is received whole or not at all. *)
Lemma optional_data_outcome len ub ul s ret ub' ul' s' :
  recv_sessiond_optional_data len ub ul s = Done (ret, ub', ul') s' ->
  heap s !! next_block s = None ->
  (ret < 0 /\ ub' = ub /\ ul' = ul /\ heap s' = heap s /\
   (next_block s <= next_block s' <= S (next_block s))%nat) \/
  (ret = 0 /\ len = 0 /\ s' = s /\
   ub' = match ub with Some _ => Some None | None => None end /\
   ul' = match ul with Some _ => Some 0 | None => None end) \/
  (0 <= ret /\ len <> 0 /\ next_block s' = S (next_block s) /\
   ub <> None /\ ul' = Some len /\
   exists bytes, ub' = Some (Some (next_block s)) /\
     length bytes = Z.to_nat len /\
     heap s' = <[next_block s := bytes]> (heap s)).
Proof.
  intros Hrun Hfresh. destruct s as [sock conn hp nxt tr clk w].
  run Hrun; simpl in *.
  all: rewrite ?insert_insert_eq, ?delete_insert_id by done.
  all: try (left; repeat split; (done || lia)).
  all: try (right; left; repeat split; (done || lia)).
  all: right; right.
  all: match goal with Hge : (_ <? 0) = false |- _ => apply Z.ltb_ge in Hge end.
  all: repeat split; try done; try lia.
  all: eexists; split; [done|]; split; [|done].
  all: by rewrite length_overlay, length_replicate.
Qed.

Lemma to_int_0 : to_int 0 = 0.
Proof. reflexivity. Qed.

(** The three outcomes of a request that has no place for a command
    header. *)
Lemma fds_varlen_reply lsm fds nb_fd vardata vardata_len buf s ret out' s' :
  lttng_ctl_ask_sessiond_fds_varlen lsm fds nb_fd vardata vardata_len
    {| user_payload_buf := buf; user_cmd_header_buf := None;
       user_cmd_header_len := None |} s = Done (ret, out') s' ->
  fresh_above s ->
  reply_outcome s buf ret (user_payload_buf out') s'.
Proof.
  intros Hrun Hfresh.
  set (out := {| user_payload_buf := buf; user_cmd_header_buf := None;
                 user_cmd_header_len := None |}) in *.
  set (Q := fun (r : Z * ask_outputs) (s' : state) =>
    reply_outcome s buf r.1 (user_payload_buf r.2) s').
  assert (Hleaf : forall ret0 (out0 : ask_outputs) st0,
            heap st0 = heap s -> user_payload_buf out0 = buf ->
            (ret0 < 0 \/
             exists t sock len n hdr t',
               trace st0 = trace s ++ t ++ EvRecv sock len n hdr :: t' /\
               Forall not_a_read t /\
               ret_code (read_llm hdr) <> LTTNG_OK) ->
            hoare (fun x => x = st0) (end_ ret0 out0) Q).
  { intros ret0 out0 st0 E0 B0 Hwhy ? ? ? -> (-> & E & N & te & Hte)%end_result.
    left. split; [congruence|]. split; [done|].
    destruct Hwhy as [?|(t & sock & len & n & hdr & t' & Ht & Ft & Hcode)];
      [by left|right].
    exists t, sock, len, n, hdr, (t' ++ te).
    split; [|done]. rewrite Hte, Ht. by rewrite <- !app_assoc. }
  assert (Hleaf0 : forall ret0 (out0 : ask_outputs),
            ret0 < 0 -> user_payload_buf out0 = buf ->
            hoare (unread_untouched s) (end_ ret0 out0) Q).
  { intros c out0 Hc B0 st r st' (_ & E0 & N0) Hend.
    refine (Hleaf _ _ st E0 B0 _ _ _ _ eq_refl Hend). by left. }
  assert (Hh : hoare (unread_untouched s)
    (lttng_ctl_ask_sessiond_fds_varlen lsm fds nb_fd vardata vardata_len out)
    Q).
  { unfold lttng_ctl_ask_sessiond_fds_varlen.
    hoare_walk ltac:(apply hoare_unread_untouched; [adds_tac|mem_tac])
               ltac:(apply Hleaf0; [lia|done]).
    intros st r' st' ((t & Ht & Ft) & Hheap & Hnext) Hbody. invert_run Hbody.
    match goal with
    | Hc : recv_data_sessiond _ _ = Done ?x _ |- _ => destruct x as [ret0 hdr]
    end.
    assert (Hm : keeps_memory (recv_data_sessiond sizeof_lttcomm_lttng_msg))
      by mem_tac.
    destruct (Hm _ _ _ Hcall) as [Hheap1 Hnext1].
    apply recv_data_sessiond_log in Hcall
      as [[Etr Hneg]|(sock & n & Etr & Hn)].
    { rewrite (proj2 (Z.ltb_lt _ _)) in Hbody by done.
      refine (Hleaf _ _ s0 _ _ _ _ _ _ eq_refl Hbody);
        [congruence|done|by left]. }
    rewrite Ht, <- app_assoc in Etr.
    destruct (ret0 <? 0) eqn:Hret0;
      [refine (Hleaf _ _ s0 _ _ _ _ _ _ eq_refl Hbody);
       [congruence|done|left; lia]|].
    destruct (negb _) eqn:Hcode.
    { refine (Hleaf _ _ s0 _ _ _ _ _ _ eq_refl Hbody);
        [congruence|done|right].
      exists t, sock, sizeof_lttcomm_lttng_msg, n, hdr, [].
      split; [done|]. split; [done|].
      apply negb_true_iff, Z.eqb_neq in Hcode. done. }
    (* the command header *)
    invert_run Hbody. apply optional_data_no_len in Hcall as [-> Hr].
    destruct Hr as [->|[_ ->]]; cbv beta iota zeta in Hbody.
    { rewrite (proj2 (Z.ltb_lt _ _)) in Hbody by lia.
      refine (Hleaf _ _ s0 _ _ _ _ _ _ eq_refl Hbody);
        [congruence|done|left; lia]. }
    change (0 <? 0) with false in Hbody. cbv iota in Hbody.
    (* the data *)
    invert_run Hbody.
    match goal with
    | Hc : recv_sessiond_optional_data _ _ _ _ = Done ?x _ |- _ =>
        destruct x as [[ret2 ub2] ul2]
    end.
    cbv beta iota zeta in Hbody.
    assert (Hfr : heap s0 !! next_block s0 = None)
      by (rewrite Hheap1, Hnext1, Hheap, Hnext; by apply Hfresh).
    pose proof (to_uint32_range
                  (data_size (decode_lttcomm_lttng_msg hdr))) as Hsize.
    change (to_uint32 (data_size (decode_lttcomm_lttng_msg hdr)))
      with (data_size (read_llm hdr)) in Hsize.
    destruct (optional_data_outcome _ _ _ _ _ _ _ _ Hcall Hfr)
      as [(Hneg2 & -> & _ & Hheap2 & Hnext2)
         |[(-> & Hlen & -> & -> & _)
          |(Hpos & Hlen & Hnext2 & Hbuf & _ & bytes & -> & Hbytes & Hheap2)]].
    - rewrite (proj2 (Z.ltb_lt _ _)) in Hbody by done.
      refine (Hleaf _ _ _ _ _ _ _ _ _ eq_refl Hbody);
        [congruence|done|by left].
    - change (0 <? 0) with false in Hbody. cbv iota in Hbody.
      apply end_result in Hbody as (-> & E & N & _).
      right; left. rewrite Hlen. split; [done|]. split; [congruence|done].
    - rewrite (proj2 (Z.ltb_ge _ _)) in Hbody by done.
      apply end_result in Hbody as (-> & E & N & _).
      assert (Hsame : next_block s0 = next_block s) by congruence.
      right; right. exists bytes. simpl. rewrite Hsame.
      split; [done|]. split; [done|].
      split; [rewrite E, Hheap2, Hheap1, Hheap, Hsame; done|].
      rewrite Hbytes, Z2Nat.id by lia. split; [lia|done]. }
  refine (Hh _ _ _ _ Hrun). split; [|done]. exists []. by rewrite app_nil_r.
Qed.

Lemma varlen_reply lsm vardata vardata_len buf s ret buf' s' :
  lttng_ctl_ask_sessiond_varlen_no_cmd_header lsm vardata vardata_len buf s
    = Done (ret, buf') s' ->
  fresh_above s ->
  reply_outcome s buf ret buf' s'.
Proof.
  intros Hrun Hfresh.
  unfold lttng_ctl_ask_sessiond_varlen_no_cmd_header in Hrun.
  invert_run Hrun. destruct a as [ret0 out]. invert_run Hrun. simplify_eq.
  by eapply fds_varlen_reply.
Qed.

(** A refusal is the reply to a header that did not say [LTTNG_OK]. *)
Lemma refused_not_accepted s s' : refused s s' -> accepted s s' -> False.
Proof.
  intros (t & sock & len & n & hdr & t' & Ht & Ft & Hcode) Hacc.
  apply Hcode, (Hacc sock len n).
  rewrite (new_events_app _ _ _ Ht), reads_app, reads_nil by done. done.
Qed.


Lemma ask_reply lsm buf s ret buf' s' :
  lttng_ctl_ask_sessiond lsm buf s = Done (ret, buf') s' ->
  fresh_above s ->
  reply_outcome s buf ret buf' s'.
Proof. apply varlen_reply. Qed.

Lemma to_int_positive z :
  0 < z < 2 ^ 32 -> 0 < to_int z -> to_int z = z /\ z < 2 ^ 31.
Proof.
  intros Hz Hpos. unfold to_int in *.
  rewrite Z.mod_small in * by lia.
  destruct (z <? 2 ^ 31) eqn:Hlt; lia.
Qed.

Lemma to_int_negative z :
  0 < z < 2 ^ 32 -> to_int z <= 0 -> 2 ^ 31 <= z.
Proof.
  intros Hz Hneg. unfold to_int in *.
  rewrite Z.mod_small in * by lia.
  destruct (z <? 2 ^ 31) eqn:Hlt; lia.
Qed.

Lemma count_fits ret (size : positive) :
  0 < ret < 2 ^ 31 -> to_int (ret / size) = ret / size.
Proof.
  intros Hret. apply to_int_small.
  split; [apply Z.div_pos; lia|].
  apply Z.le_lt_trans with ret; [|lia].
  apply Z.div_le_upper_bound; nia.
Qed.

Lemma accepted_reply s buf ret buf' s' :
  reply_outcome s buf ret buf' s' -> accepted s s' -> 0 < ret ->
  exists bytes,
    buf' = Some (Some (next_block s)) /\
    heap s' = <[next_block s := bytes]> (heap s) /\
    Z.of_nat (length bytes) = ret /\ ret < 2 ^ 31.
Proof.
  intros [(_ & _ & [?|Href])|[(-> & _)|(bytes & _ & -> & Hheap & Hlen & ->)]]
    Hacc Hpos; [lia|by destruct (refused_not_accepted _ _ Href)|lia|].
  apply to_int_positive in Hpos as [Hret Hsmall]; [|done].
  exists bytes. by rewrite Hret.
Qed.

(** X12: A section of the reply, lines 486-532, is received whole or not at
    all.  After a negative result the two cells of the caller and the
    heap are as they were: the block obtained for the section was
    freed.  An empty section reads nothing and clears the cells.
    Otherwise one block was obtained and one read made, the length cell
    holds [len], and the buffer cell holds the block, of [len] bytes,
    with what was received. *)
Theorem optional_data_all_or_nothing len ub ul s ret ub' ul' s' :
  recv_sessiond_optional_data len ub ul s = Done (ret, ub', ul') s' ->
  heap s !! next_block s = None ->
  (ret < 0 /\ ub' = ub /\ ul' = ul /\ heap s' = heap s) \/
  (ret = 0 /\ len = 0 /\ s' = s /\
   ub' = match ub with Some _ => Some None | None => None end /\
   ul' = match ul with Some _ => Some 0 | None => None end) \/
  (0 <= ret /\ len <> 0 /\ ub <> None /\ ul' = Some len /\
   exists sock received,
     new_events s s' = [EvAlloc len true; EvRecv sock len ret received] /\
     ub' = Some (Some (next_block s)) /\
     heap s'
     = <[next_block s := overlay (replicate (Z.to_nat len) x00) received]>
         (heap s)).
Proof.
  intros Hrun Hfresh. destruct s as [sock conn hp nxt tr clk w].
  run Hrun; simpl in *.
  all: rewrite ?insert_insert_eq, ?delete_insert_id by done.
  all: try (left; repeat split; (done || lia)).
  all: try (right; left; repeat split; (done || lia)).
  all: right; right.
  all: match goal with Hge : (_ <? 0) = false |- _ => apply Z.ltb_ge in Hge end.
  all: repeat split; try done; try lia.
  all: eexists _, _; split; [|split; reflexivity].
  all: unfold new_events; simpl.
  all: by rewrite <- app_assoc, drop_app_length.
Qed.

(** X13: [lttng_list_sessions] returns a positive count only with the block
    of the sessions, whose size is exactly the count times the size of
    a session and its extension.  With the result 0 nothing was
    allocated and [*out_sessions] is as it was.  A negative result
    leaves the heap as it was, unless the reply announced 2^31 bytes or
    more: that block is lost. *)
Theorem list_sessions_count (out_sessions : option (option nat))
    s n out' s' :
  lttng_list_sessions out_sessions s = Done (n, out') s' ->
  fresh_above s ->
  (0 < n ->
   exists bytes,
     out' = Some (Some (next_block s)) /\
     heap s' = <[next_block s := bytes]> (heap s) /\
     Z.of_nat (length bytes)
     = n * (sizeof_lttng_session + sizeof_lttng_session_extended)) /\
  (n = 0 -> heap s' = heap s /\ out' = out_sessions) /\
  (n < 0 ->
   (out' = out_sessions \/ out' = Some None) /\
   (heap s' = heap s \/
    exists bytes,
      heap s' = <[next_block s := bytes]> (heap s) /\
      2 ^ 31 <= Z.of_nat (length bytes))).
Proof.
  intros Hrun Hfresh. unfold lttng_list_sessions in Hrun. cbv zeta in Hrun.
  invert_run Hrun. destruct a as [ret sessions].
  pose proof (ask_reply _ _ _ _ _ _ Hcall Hfresh) as Hreply.
  assert (Hnone : heap s !! next_block s = None) by (by apply Hfresh).
  set (size := (sizeof_lttng_session + sizeof_lttng_session_extended)%positive).
  change (Z.pos sizeof_lttng_session + Z.pos sizeof_lttng_session_extended)
    with (Z.pos size) in *.
  destruct (ret <=? 0) eqn:Hret.
  { invert_run Hrun. simplify_eq. apply Z.leb_le in Hret.
    split; [lia|].
    destruct Hreply as [(Hheap & _ & _)|[(_ & Hheap & _)
                        |(bytes & _ & _ & Hheap & Hlen & ->)]].
    - repeat split; auto.
    - repeat split; auto.
    - apply to_int_negative in Hret; [|done].
      split; [intros Hz|intros _; split; [by left|right; by exists bytes]].
      rewrite Hz in *. unfold to_int in Hz.
      rewrite Z.mod_small in Hz by lia.
      destruct (_ <? _) eqn:Hlt in Hz; lia. }
  apply Z.leb_gt in Hret.
  destruct Hreply as [(Hheap & -> & _)|[(-> & _)
                      |(bytes & _ & -> & Hheap & Hlen & ->)]]; [|lia|].
  { simpl in Hrun. invert_run Hrun. simplify_eq.
    repeat split; try lia; auto. }
  simpl in Hrun. apply to_int_positive in Hret as [Hret Hsmall]; [|done].
  rewrite Hret in *.
  destruct (negb _) eqn:Hmod in Hrun.
  - invert_run Hrun. destruct out_sessions; invert_run Hrun. simplify_eq.
    apply free_spec in Hcall0 as (_ & Hfree & _).
    split; [lia|]. split; [lia|]. intros _. split; [by right|left].
    rewrite Hfree, Hheap. by apply delete_insert_id.
  - destruct out_sessions; invert_run Hrun. simplify_eq.
    apply negb_false_iff, Z.eqb_eq in Hmod.
    rewrite count_fits by lia.
    split; [|split; [intros Hz|intros Hz]].
    + intros _. exists bytes. repeat split; [done|].
      pose proof (Z_div_mod_eq_full (Z.of_nat (length bytes)) size). lia.
    + pose proof (Z_div_mod_eq_full (Z.of_nat (length bytes)) size) as Hd.
      rewrite Hz in Hd. lia.
    + assert (0 <= Z.of_nat (length bytes) / size) by (apply Z.div_pos; lia).
      lia.
Qed.

(** X14: When the daemon accepted the command, [lttng_list_channels]
    returns a positive count only with the block of the channels,
    whose size is exactly the count times the size of a channel and
    its extension. *)
Theorem list_channels_count (handle : option lttng_handle)
    (channels : option (option nat)) s n channels' s' :
  lttng_list_channels handle channels s = Done (n, channels') s' ->
  fresh_above s ->
  accepted s s' ->
  0 < n ->
  exists bytes,
    channels' = Some (Some (next_block s)) /\
    heap s' = <[next_block s := bytes]> (heap s) /\
    Z.of_nat (length bytes)
    = n * (sizeof_lttng_channel + sizeof_lttng_channel_extended).
Proof.
  intros Hrun Hfresh Hacc Hpos.
  unfold lttng_list_channels in Hrun. cbv zeta in Hrun.
  set (size := (sizeof_lttng_channel + sizeof_lttng_channel_extended)%positive).
  change (Z.pos sizeof_lttng_channel + Z.pos sizeof_lttng_channel_extended)
    with (Z.pos size) in *.
  destruct handle as [h|]; [|invert_run Hrun; simplify_eq; lia].
  unfold bind at 1 in Hrun.
  destruct (copy_field_spec LTTNG_NAME_MAX (Some (h_session_name h)) s)
    as (name & Hname & _).
  rewrite Hname in Hrun. invert_run Hrun. destruct a as [ret cell'].
  pose proof (ask_reply _ _ _ _ _ _ Hcall Hfresh) as Hreply.
  destruct (ret <? 0) eqn:Hret; [invert_run Hrun; simplify_eq; lia|].
  destruct cell' as [p|]; [|invert_run Hrun].
  destruct (negb _) eqn:Hmod in Hrun.
  { invert_run Hrun. invert_run Hrun. simplify_eq. lia. }
  invert_run Hrun. simplify_eq.
  apply negb_false_iff, Z.eqb_eq in Hmod. apply Z.ltb_ge in Hret.
  assert (Hret' : 0 < ret).
  { destruct (Z.eq_dec ret 0) as [->|]; [|lia].
    rewrite Z.div_0_l in Hpos by lia. by rewrite to_int_0 in Hpos. }
  destruct (accepted_reply _ _ _ _ _ Hreply Hacc Hret')
    as (bytes & -> & Hheap & Hlen & Hsmall).
  exists bytes. split; [done|]. split; [done|].
  rewrite count_fits by lia.
  pose proof (Z_div_mod_eq_full ret size). lia.
Qed.

(** X15: When the daemon accepted the command, the listings of tracepoints,
    system calls and domains return a positive count only with the
    block of the records, which holds that many whole records: the
    count is the size of the payload divided by the size of a record,
    rounded down. *)
Theorem plain_listing_count (l : plain_listing) (out : option (option nat))
    s n out' s' :
  list_plain l out s = Done (n, out') s' ->
  fresh_above s ->
  accepted s s' ->
  0 < n ->
  exists bytes,
    out' = Some (Some (next_block s)) /\
    heap s' = <[next_block s := bytes]> (heap s) /\
    n * record_size l <= Z.of_nat (length bytes) < (n + 1) * record_size l.
Proof.
  intros Hrun Hfresh Hacc Hpos.
  assert (Hcore : exists lsm (size : positive) ret,
             record_size l = size /\
             lttng_ctl_ask_sessiond lsm out s = Done (ret, out') s' /\
             0 <= ret /\ n = to_int (ret / size)).
  { destruct l as [[h|]| |[name|]]; simpl in Hrun;
      unfold lttng_list_tracepoints, lttng_list_syscalls, lttng_list_domains
        in Hrun; cbv zeta in Hrun.
    - invert_run Hrun. destruct a as [ret cell'].
      destruct (ret <? 0) eqn:Hret; invert_run Hrun; simplify_eq; [lia|].
      eexists _, _, ret. repeat split; [done|lia].
    - invert_run Hrun. simplify_eq. lia.
    - destruct out; [|invert_run Hrun; simplify_eq; lia].
      invert_run Hrun. destruct a as [ret cell'].
      destruct (ret <? 0) eqn:Hret; invert_run Hrun; simplify_eq; [lia|].
      eexists _, _, ret. repeat split; [done|lia].
    - unfold bind at 1 in Hrun.
      destruct (copy_field_spec LTTNG_NAME_MAX (Some name) s)
        as (d & Hd & _).
      rewrite Hd in Hrun. invert_run Hrun. destruct a as [ret cell'].
      destruct (ret <? 0) eqn:Hret; invert_run Hrun; simplify_eq; [lia|].
      eexists _, _, ret. repeat split; [done|lia].
    - invert_run Hrun. simplify_eq. lia. }
  destruct Hcore as (lsm & size & ret & -> & Hcall & Hret & ->).
  pose proof (ask_reply _ _ _ _ _ _ Hcall Hfresh) as Hreply.
  assert (Hret' : 0 < ret).
  { destruct (Z.eq_dec ret 0) as [->|]; [|lia].
    rewrite Z.div_0_l in Hpos by lia. by rewrite to_int_0 in Hpos. }
  destruct (accepted_reply _ _ _ _ _ Hreply Hacc Hret')
    as (bytes & -> & Hheap & Hlen & Hsmall).
  exists bytes. split; [done|]. split; [done|].
  rewrite count_fits by lia. rewrite Hlen.
  pose proof (Z_div_mod_eq_full ret size).
  pose proof (Z.mod_pos_bound ret size). lia.
Qed.

End ReplyFacts.
(* ================================================================== *)
(** * Handles, channel attributes and the socket path *)

Section HandleFacts.
Context `{Externals} `{Headers}.

Lemma copy_domain_idempotent (d : lttng_domain) :
  COPY_DOMAIN_PACKED (COPY_DOMAIN_PACKED d) = COPY_DOMAIN_PACKED d.
Proof.
  unfold COPY_DOMAIN_PACKED, lttng_ctl_copy_lttng_domain.
  by destruct d as [[] ?].
Qed.

Lemma create_handle_spec session_name domain s h s1 :
  lttng_create_handle session_name domain s = Done (Some h) s1 ->
  c_str (h_session_name h) = session_name_kept session_name /\
  terminated LTTNG_NAME_MAX (h_session_name h) /\
  COPY_DOMAIN_PACKED (h_domain h) = h_domain h /\
  h_domain h = match domain with
               | Some d => COPY_DOMAIN_PACKED d
               | None => lttng_domain_zero
               end.
Proof.
  intros Hrun. unfold lttng_create_handle in Hrun.
  invert_run Hrun. destruct (a_ret a =? 0); [by invert_run Hrun|].
  unfold bind in Hrun.
  destruct (copy_field_spec LTTNG_NAME_MAX session_name s0)
    as (d & Hcopy & Hlen & Hnul & Hstr).
  rewrite Hcopy in Hrun. invert_run Hrun. simplify_eq. simpl.
  split; [done|]. split; [done|].
  destruct domain as [dom|]; [|done].
  split; [apply copy_domain_idempotent|done].
Qed.

Lemma take_c_str_kept n (x : list byte) :
  take n (take n x) = take n x.
Proof. rewrite take_take. f_equal. lia. Qed.

Lemma perform_names_session s (c : api_call) (h : lttng_handle) name :
  names_session c = Some h ->
  c_str (h_session_name h) = session_name_kept name ->
  COPY_DOMAIN_PACKED (h_domain h) = h_domain h ->
  hoare (said (sends_session (session_name_kept name) (h_domain h)) s)
    (perform c)
    (fun _ => said (sends_session (session_name_kept name) (h_domain h)) s).
Proof.
  intros Hc Hname Hdom.
  assert (Hkept : take (Pos.to_nat LTTNG_NAME_MAX - 1) (session_name_kept name)
                  = session_name_kept name).
  { destruct name; simpl; [apply take_c_str_kept|apply take_nil]. }
  destruct c; simpl in Hc; repeat case_match; simplify_eq; unfold perform.
  all: unfold_operations.
  all: said_walk ltac:(first
    [ done
    | subst; cbn; split; [|done];
      match goal with
      | Hs : c_str ?d = take _ (c_str (h_session_name _)) |- c_str ?d = _ =>
          rewrite Hs, Hname; exact Hkept
      end ]).
Qed.

(** X16: A handle keeps the name of its session, cut to the size of its
    array, and a domain that [lttng_ctl_copy_lttng_domain] accepts:
    the operations that are given the handle send that name and that
    domain, without cutting or resetting them again. *)
Theorem created_handle_names_its_session
    (session_name : option (list byte)) (domain : option lttng_domain)
    s h s1 (c : api_call) ret s2 :
  lttng_create_handle session_name domain s = Done (Some h) s1 ->
  names_session c = Some h ->
  perform c s1 = Done ret s2 ->
  h_domain h = match domain with
               | Some d => COPY_DOMAIN_PACKED d
               | None => lttng_domain_zero
               end /\
  Forall (sends_session (session_name_kept session_name) (h_domain h))
    (new_events s1 s2).
Proof.
  intros Hcreate Hc Hrun.
  destruct (create_handle_spec _ _ _ _ _ Hcreate) as (Hname & _ & Hdom & Hd).
  split; [done|].
  eapply said_run; [|exact Hrun]. by eapply perform_names_session.
Qed.

End HandleFacts.

Section ChannelFacts.
Context `{Externals}.

Lemma to_int_fixed z : to_int z = z <-> - 2 ^ 31 <= z < 2 ^ 31.
Proof.
  unfold to_int.
  pose proof (Z.mod_pos_bound z (2 ^ 32) ltac:(done)) as Hm.
  pose proof (Z_div_mod_eq_full z (2 ^ 32)) as Hd.
  destruct (_ <? _) eqn:Hlt; lia.
Qed.

(** X17: The blocking timeout of a channel is accepted when it is -1 or
    from 0 to 2147483647999 microseconds, the values whose number of
    milliseconds fits 32 bits, and is then read back as it was set;
    any other value is refused and leaves the channel as it was. *)
Theorem blocking_timeout_range (chan : lttng_channel)
    (e : lttng_channel_extended) (timeout : Z) :
  attr_extended chan = Some e ->
  if (timeout =? -1) || ((0 <=? timeout) && (timeout <? 2147483648000))
  then exists chan',
         lttng_channel_set_blocking_timeout (Some chan) timeout
         = (0, Some chan') /\
         lttng_channel_get_blocking_timeout (Some chan') (Some 0)
         = (0, Some timeout) /\
         lttng_channel_get_monitor_timer_interval (Some chan') (Some 0)
         = (0, Some (monitor_timer_interval e))
  else lttng_channel_set_blocking_timeout (Some chan) timeout
       = (- LTTNG_ERR_INVALID, Some chan).
Proof.
  intros He. unfold lttng_channel_set_blocking_timeout. rewrite He.
  pose proof (to_int_fixed (timeout ÷ 1000)) as Hfix.
  assert (Hquot : 0 <= timeout -> timeout ÷ 1000 = timeout / 1000)
    by (intros; apply Z.quot_div_nonneg; lia).
  pose proof (Z_div_mod_eq_full timeout 1000) as Hdiv.
  pose proof (Z.mod_pos_bound timeout 1000 ltac:(done)) as Hmod.
  destruct ((timeout =? -1) || _) eqn:Hok.
  - assert (Hsign : (timeout <? 0) && negb (timeout =? -1) = false) by lia.
    assert (Hfits : - 2 ^ 31 <= timeout ÷ 1000 < 2 ^ 31).
    { destruct (Z.eq_dec timeout (-1)) as [->|]; [done|].
      rewrite Hquot by lia. lia. }
    rewrite Hsign, (proj2 Hfix Hfits), Z.eqb_refl. simpl.
    eexists. by split.
  - destruct ((timeout <? 0) && negb (timeout =? -1)) eqn:Hsign; [done|].
    rewrite (proj2 (Z.eqb_neq _ _)); [done|].
    intros Heq. symmetry in Heq. apply Hfix in Heq.
    rewrite Hquot in Heq by lia. lia.
Qed.

(** X18: A monitor timer interval that was set is read back, and setting it
    changes neither the blocking timeout nor the two counters. *)
Theorem monitor_timer_round_trip (chan : lttng_channel)
    (e : lttng_channel_extended) (interval : Z) :
  attr_extended chan = Some e ->
  exists chan',
    lttng_channel_set_monitor_timer_interval (Some chan) interval
    = (0, Some chan') /\
    lttng_channel_get_monitor_timer_interval (Some chan') (Some 0)
    = (0, Some interval) /\
    lttng_channel_get_blocking_timeout (Some chan') (Some 0)
    = (0, Some (blocking_timeout e)) /\
    lttng_channel_get_discarded_event_count (Some chan') (Some 0)
    = (0, Some (discarded_events e)) /\
    lttng_channel_get_lost_packet_count (Some chan') (Some 0)
    = (0, Some (lost_packets e)).
Proof.
  intros He. unfold lttng_channel_set_monitor_timer_interval. rewrite He.
  eexists. by repeat split.
Qed.

(** X19: A channel whose [attr.extended.ptr] is [NULL]: the two
    counters read as 0, with success, while the two settings can be
    neither read nor set. *)
Theorem channel_without_extension (chan : lttng_channel) (v cell : Z) :
  attr_extended chan = None ->
  lttng_channel_get_discarded_event_count (Some chan) (Some cell)
  = (0, Some 0) /\
  lttng_channel_get_lost_packet_count (Some chan) (Some cell)
  = (0, Some 0) /\
  lttng_channel_get_monitor_timer_interval (Some chan) (Some cell)
  = (- LTTNG_ERR_INVALID, Some cell) /\
  lttng_channel_get_blocking_timeout (Some chan) (Some cell)
  = (- LTTNG_ERR_INVALID, Some cell) /\
  lttng_channel_set_monitor_timer_interval (Some chan) v
  = (- LTTNG_ERR_INVALID, Some chan) /\
  lttng_channel_set_blocking_timeout (Some chan) v
  = (- LTTNG_ERR_INVALID, Some chan).
Proof.
  intros He.
  unfold lttng_channel_get_discarded_event_count,
    lttng_channel_get_lost_packet_count,
    lttng_channel_get_monitor_timer_interval,
    lttng_channel_get_blocking_timeout,
    lttng_channel_set_monitor_timer_interval,
    lttng_channel_set_blocking_timeout.
  by rewrite He.
Qed.

End ChannelFacts.

Section SocketPathFacts.
Context `{Externals} `{Headers}.

Lemma check_tracing_group_values (p : SocketPath.process) :
  SocketPath.lttng_check_tracing_group p = 1 \/
  SocketPath.lttng_check_tracing_group p = -1.
Proof.
  unfold SocketPath.lttng_check_tracing_group.
  repeat case_match; auto.
Qed.

(** X20: For a user who is not root, the socket of the global daemon is
    chosen whenever it exists and accepts a connection, and the socket
    under the home directory otherwise: [lttng_check_tracing_group]
    returns 1 or -1, both of which [set_session_daemon_path] takes as
    true, so that the choice does not depend on the groups of the
    user. *)
Theorem non_root_path_ignores_tracing_group (p : SocketPath.process)
    (sessiond_sock_path global : list byte) :
  SocketPath.getuid p <> 0 ->
  lttng_ctl_copy_string (Some sessiond_sock_path)
    (Some DEFAULT_GLOBAL_CLIENT_UNIX_SOCK) PATH_MAX = Some (Some global) ->
  SocketPath.set_session_daemon_path p sessiond_sock_path
  = Some (if SocketPath.access_ok p global && SocketPath.connect_ok p global
          then (0, global)
          else
            let '(ret, home) := SocketPath.snprintf_home p in
            (if (ret <? 0) || (PATH_MAX <=? ret) then -1 else 0, home)).
Proof.
  intros Huid Hcopy. unfold SocketPath.set_session_daemon_path.
  rewrite (proj2 (Z.eqb_neq _ _)) by done. cbn [negb orb].
  assert (Htrue : negb (SocketPath.lttng_check_tracing_group p =? 0) = true).
  { destruct (check_tracing_group_values p) as [-> | ->]; done. }
  rewrite Htrue, Hcopy. cbn [andb].
  unfold SocketPath.try_connect_sessiond.
  destruct (SocketPath.access_ok p global); simpl;
    [destruct (SocketPath.connect_ok p global); simpl|];
    try done; destruct (SocketPath.snprintf_home p) as [ret home];
    by destruct ((ret <? 0) || (PATH_MAX <=? ret)).
Qed.

End SocketPathFacts.
(* ================================================================== *)
(** * The references of a flattened listing *)

Section ReferenceFacts.
Context `{Externals}.

Lemma set_size_size b n s b' s' :
  lttng_dynamic_buffer_set_size b n s = Done (0, b') s' ->
  0 <= n -> buffer_size b' = n.
Proof.
  intros Hrun Hn. unfold buffer_size.
  rewrite (set_size_data _ _ _ _ _ Hrun), length_resize. lia.
Qed.

Lemma append_data b bytes s b' s' :
  lttng_dynamic_buffer_append b bytes s = Done (0, b') s' ->
  data b' = data b ++ bytes.
Proof.
  unfold lttng_dynamic_buffer_append. intros Hrun.
  destruct bytes as [|x bytes].
  - invert_run Hrun. simplify_eq. by rewrite app_nil_r.
  - cbv zeta in Hrun. invert_run Hrun. destruct a as [ret b1].
    destruct (ret =? 0) eqn:Hret; simpl in Hrun; invert_run Hrun;
      by simplify_eq.
Qed.

Lemma append_size b bytes s b' s' :
  lttng_dynamic_buffer_append b bytes s = Done (0, b') s' ->
  buffer_size b' = buffer_size b + Z.of_nat (length bytes).
Proof.
  intros Hrun. unfold buffer_size.
  rewrite (append_data _ _ _ _ _ Hrun), length_app. lia.
Qed.

Lemma buffer_size_nonneg b : 0 <= buffer_size b.
Proof. unfold buffer_size. lia. Qed.

Lemma read_ext_comm_count buf c ext :
  read_ext_comm buf c = Some ext -> 0 <= nb_exclusions ext.
Proof.
  unfold read_ext_comm. destruct c; [|done].
  destruct (slice _ _ _); [|done]. intros [= <-]. simpl.
  apply to_uint32_range.
Qed.

(** An optional section of a record: absent, or [len] bytes appended at
    the end of the listing. *)
Lemma section_extent {V} (present : bool) buf c len listing (v : option V)
    s w l c' s' :
  (if present then
     bindE (read_bytes buf c len)
       (fun bytes =>
          bindE (or_nomem (lttng_dynamic_buffer_append listing bytes))
            (fun l => ok (v, l, advance c len)))
   else ok (None, listing, c)) s = Done (inr (w, l, c')) s' ->
  (w = None /\ buffer_size l = buffer_size listing) \/
  (present = true /\ w = v /\
   buffer_size l = buffer_size listing + len /\ 0 <= len).
Proof.
  destruct present; intros Hrun.
  - apply bindE_inv in Hrun as (bytes & s1 & Hread & Hrun).
    apply bindE_or_nomem_inv in Hrun as (l1 & s2 & Happ & Hrun).
    unfold ok, Return in Hrun. simplify_eq.
    destruct (read_bytes_spec buf c len) as [Hfail|(bytes' & Hok & Hlen)];
      [by rewrite Hfail in Hread|].
    rewrite Hok in Hread. unfold ok, Return in Hread. simplify_eq.
    rewrite (append_size _ _ _ _ _ Happ). right. repeat split; lia.
  - unfold ok, Return in Hrun. simplify_eq. by left.
Qed.

Lemma probe_result whole buf c len listing s w l c' s' :
  (if negb (len =? 0) then
     match probe_location_view whole buf c len with
     | None => throw (- LTTNG_ERR_PROBE_LOCATION_INVAL)
     | Some bytes =>
         match userspace_probe_location_flat bytes with
         | None => throw (- LTTNG_ERR_PROBE_LOCATION_INVAL)
         | Some flat =>
             let at_ := buffer_size listing in
             let* '(ret, listing) :=
               lttng_dynamic_buffer_append listing flat in
             if negb (ret =? 0)
             then throw (- LTTNG_ERR_PROBE_LOCATION_INVAL)
             else ok (Some at_, listing, advance c len)
         end
     end
   else ok (None, listing, c)) s = Done (inr (w, l, c')) s' ->
  buffer_size listing <= buffer_size l /\
  (w = None \/ w = Some (buffer_size listing)).
Proof.
  destruct (negb (len =? 0)); intros Hrun.
  - destruct (probe_location_view whole buf c len) as [bytes|]; [|done].
    destruct (userspace_probe_location_flat bytes) as [flat|]; [|done].
    cbv zeta in Hrun. invert_run Hrun. destruct a as [ret l1].
    destruct (ret =? 0) eqn:Hret; simpl in Hrun; [|done].
    apply Z.eqb_eq in Hret as ->.
    unfold ok, Return in Hrun. simplify_eq.
    rewrite (append_size _ _ _ _ _ Hcall). split; [lia|by right].
  - unfold ok, Return in Hrun. simplify_eq. split; [lia|by left].
Qed.

Lemma ref_inside_wider lo lo' hi hi' r :
  lo <= lo' -> hi' <= hi -> ref_inside lo' hi' r -> ref_inside lo hi r.
Proof.
  intros Hlo Hhi (H1 & H2 & H3 & H4 & H5).
  split; [lia|]. split; [lia|]. split; [|split].
  - intros p Hp. destruct (H3 p Hp). split; [done|lia].
  - intros k p Hp. destruct (H4 k p Hp) as (? & ? & ? & Hfit).
    split; [done|]. split; [done|]. split; [lia|].
    intros Hk. specialize (Hfit Hk). lia.
  - intros p Hp. destruct (H5 p Hp) as [? ?]. split; [done|lia].
Qed.

Lemma ALIGN_TO_8_aligned v : ALIGN_TO v 8 mod 8 = 0.
Proof. rewrite ALIGN_TO_8. apply Z.mod_mul. done. Qed.

(** The second pass appends, for every record, its extended block and
    its sections, and notes where. *)
Lemma flatten_pass_refs whole buf n :
  forall c listing refs s listing' refs' s',
  flatten_pass whole buf n c listing refs s
  = Done (inr (listing', refs')) s' ->
  buffer_size listing <= buffer_size listing' /\
  exists new,
    refs' = refs ++ new /\ length new = n /\
    Forall (ref_inside (buffer_size listing) (buffer_size listing')) new.
Proof.
  induction n as [|n IH]; intros c listing refs s listing' refs' s' Hf.
  - cbn in Hf. unfold ok, Return in Hf. simplify_eq.
    split; [lia|]. exists []. by rewrite app_nil_r.
  - cbn [flatten_pass] in Hf.
    destruct (read_ext_comm buf c) as [ext|] eqn:Hext; [|done].
    pose proof (buffer_size_nonneg listing) as Hsz.
    pose proof (read_ext_comm_count _ _ _ Hext) as Hcount0.
    (* struct lttng_event_extended *)
    apply bindE_or_nomem_inv in Hf as (l1 & s1 & Hset1 & Hf).
    apply set_size_size in Hset1; [|lia].
    (* the filter expression *)
    apply bindE_inv in Hf as ([[fe l2] c2] & s2 & Hfe & Hf).
    apply section_extent in Hfe. cbv beta iota in Hf.
    (* the exclusions *)
    apply bindE_inv in Hf as ([[ex l3] c3] & s3 & Hex & Hf).
    apply section_extent in Hex. cbv beta iota in Hf.
    (* the padding *)
    apply bindE_or_nomem_inv in Hf as (l4 & s4 & Hset4 & Hf).
    pose proof (ALIGN_TO_8_ge (buffer_size l3)) as Hal.
    pose proof (buffer_size_nonneg l3) as Hsz3.
    apply set_size_size in Hset4; [|lia].
    (* the probe location *)
    apply bindE_inv in Hf as ([[pl l5] c5] & s5 & Hpl & Hf).
    apply probe_result in Hpl as [Hs5 Hpl]. cbv beta iota in Hf.
    apply IH in Hf as (Hs' & new & -> & Hcount & Hnew).
    assert (Hs2 : buffer_size l1 <= buffer_size l2)
      by (destruct Hfe as [[_ ?]|(_ & _ & ? & ?)]; lia).
    assert (Hs3 : buffer_size l2 <= buffer_size l3)
      by (destruct Hex as [[_ ?]|(_ & _ & ? & ?)]; lia).
    split; [lia|].
    eexists (_ :: new). split; [by rewrite <- app_assoc|].
    split; [simpl; by rewrite Hcount|].
    constructor.
    + unfold ref_inside. simpl.
      split; [lia|]. split; [lia|]. split; [|split].
      * intros p Hp.
        destruct Hfe as [[-> _]|(Hpresent & -> & Hsize & Hlen)]; [done|].
        injection Hp as <-. apply negb_true_iff, Z.eqb_neq in Hpresent.
        split; lia.
      * intros k p Hp.
        destruct Hex as [[-> _]|(Hpresent & -> & Hsize & Hlen)]; [done|].
        injection Hp as <- <-. apply negb_true_iff, Z.eqb_neq in Hpresent.
        unfold exclusions_len in Hsize.
        split; [lia|]. split; [lia|]. split; [lia|].
        intros Hfit. unfold to_uint32 in Hsize.
        rewrite Z.mod_small in Hsize by lia. lia.
      * intros p Hp. destruct Hpl as [->| ->]; [done|].
        injection Hp as <-. rewrite Hset4.
        split; [apply ALIGN_TO_8_aligned|lia].
    + eapply Forall_impl; [exact Hnew|].
      intros r. apply ref_inside_wider; lia.
Qed.
Lemma set_capacity_data b n s b' s' :
  lttng_dynamic_buffer_set_capacity b n s = Done (0, b') s' ->
  data b' = data b.
Proof.
  intros Hrun. destruct s as [sock conn hp nxt tr clk w].
  by run Hrun.
Qed.

Lemma no_room_for_records v len :
  0 <= len ->
  bv_data (lttng_buffer_view_from_view v 0 len) = None ->
  bv_data (lttng_buffer_view_from_view v len (-1)) = None.
Proof.
  intros Hlen. unfold lttng_buffer_view_from_view.
  destruct (bv_data v); [|done].
  destruct ((bv_size v <? 0) || _) eqn:Hshort; [|done]. intros _.
  assert (Hlt : (bv_size v <? len) = true) by lia.
  by rewrite Hlt.
Qed.

Lemma flatten_events_refs (payload payload_copy : lttng_payload)
    s n flat s' :
  flatten_events payload payload_copy s = Done (inr (n, flat)) s' ->
  n = header_nb_events payload /\ 0 <= n /\
  length (fe_refs flat) = Z.to_nat n /\
  Forall (ref_inside (n * sizeof_lttng_event)
            (buffer_size (fe_listing flat)))
    (fe_refs flat).
Proof.
  intros Hrun. unfold flatten_events in Hrun.
  pose proof (header_nb_events_nonneg payload) as HN.
  set (N := header_nb_events payload) in *.
  destruct (negb _); [done|].
  destruct (INT_MAX <? N) eqn:Hmax; [done|].
  apply Z.ltb_ge in Hmax. unfold INT_MAX in Hmax.
  destruct (measure_events payload) as [sr| |]; [|done..].
  cbv zeta in Hrun.
  apply bindE_or_nomem_inv in Hrun as (l0 & s1 & Hres & Hrun).
  apply set_capacity_data in Hres.
  apply bindE_inv in Hrun as (records & s2 & Hrec & Hrun).
  apply bindE_or_nomem_inv in Hrun as (l1 & s3 & Happ & Hrun).
  apply append_size in Happ.
  apply bindE_inv in Hrun as ([listing refs] & s4 & Hpass & Hrun).
  unfold ok, Return in Hrun. simplify_eq.
  assert (Hrecords : 0 <= N * sizeof_lttng_event)
    by (apply Z.mul_nonneg_nonneg; lia).
  rewrite to_int_small by lia.
  split; [done|]. split; [done|]. simpl.
  assert (Hlen : buffer_size l1 = N * sizeof_lttng_event).
  2: { apply flatten_pass_refs in Hpass as (_ & new & -> & Hcount & Hnew).
       split; [done|]. by rewrite <- Hlen. }
  rewrite Happ. unfold buffer_size at 1. rewrite Hres. simpl.
  set (v := lttng_buffer_view_from_dynamic_buffer (buffer payload_copy)
              sizeof_lttcomm_event_command_header (-1)) in *.
  destruct (bv_data (lttng_buffer_view_from_view v 0 (N * sizeof_lttng_event)))
    as [off|] eqn:Hview.
  - assert (Hsize : bv_size
                      (lttng_buffer_view_from_view v 0
                         (N * sizeof_lttng_event))
                    = N * sizeof_lttng_event).
    { unfold lttng_buffer_view_from_view in *.
      destruct (bv_data v); [|done].
      destruct (_ || _); [done|]. simpl.
      by rewrite (proj2 (Z.eqb_neq _ _)) by lia. }
    rewrite Hsize in Hrec.
    destruct (read_bytes_spec (data (buffer payload_copy)) (Some off)
                (N * sizeof_lttng_event)) as [Hfail|(bytes & Hok & Hlen)];
      [by rewrite Hfail in Hrec|].
    rewrite Hok in Hrec. unfold ok, Return in Hrec. by simplify_eq.
  - unfold ok, Return in Hrec. simplify_eq. simpl.
    destruct (Z.to_nat N) as [|n'] eqn:Hcount; [lia|].
    apply no_room_for_records in Hview; [|done].
    rewrite ?Hcount, Hview in Hpass. by cbn in Hpass.
Qed.

(** X21: The count that [lttng_list_events] returns is the one that the
    command header announces, and the references stored in the listing
    point into it, after the fixed records: the extended block of a
    record lies inside the listing; its filter expression starts right
    after the block, inside the listing; the table of its [k]
    exclusions lies inside the listing whenever
    [k * LTTNG_SYMBOL_NAME_LEN] fits 32 bits (the code copies that
    product modulo 2^32, and what it copied always lies inside); its
    probe location starts at a multiple of 8 bytes, not after the end
    of the listing. *)
Theorem flattened_references (payload payload_copy : lttng_payload)
    s n flat s' :
  flatten_events payload payload_copy s = Done (inr (n, flat)) s' ->
  n = header_nb_events payload /\
  Forall (ref_inside (header_nb_events payload * sizeof_lttng_event)
            (buffer_size (fe_listing flat)))
    (fe_refs flat).
Proof.
  intros Hrun.
  destruct (flatten_events_refs _ _ _ _ _ _ Hrun) as (Hn & _ & _ & Hrefs).
  split; [done|]. by rewrite <- Hn.
Qed.

End ReferenceFacts.
(* ================================================================== *)
(** * One socket for a request *)

Section ConversationFacts.
Context `{Externals}.

Lemma hoare_talking {A} fd tr0 (m : M A) :
  keeps_connection m -> adds (on_socket fd) m ->
  hoare (talking fd tr0) m (fun _ => talking fd tr0).
Proof.
  intros Hk Ha s a s' (Hc & Hs & t & Ht & Ft) Hrun.
  destruct (Hk _ _ _ Hrun) as [E1 E2].
  destruct (Ha _ _ _ Hrun) as (t' & E3 & Ft').
  unfold talking. rewrite E1, E2, E3.
  repeat split; [done..|]. exists (t ++ t').
  split; [by rewrite Ht, app_assoc|by apply Forall_app].
Qed.

(** Reading the statics inside a request gives the connected socket. *)
Lemma hoare_get {B} fd tr0 (k : state -> M B) Q :
  (forall a, connected a = true -> sessiond_socket a = fd ->
     hoare (talking fd tr0) (k a) Q) ->
  hoare (talking fd tr0) (bind get k) Q.
Proof.
  intros Hk s b s' HP Hrun. unfold bind, get in Hrun.
  destruct HP as (Hc & Hs & Ht). by eapply (Hk s).
Qed.

Lemma hoare_hang_up {A} fd tr0 ret (out : A) :
  hoare (talking fd tr0) (end_ ret out) (fun _ => hung_up fd tr0).
Proof.
  intros s a s' (Hc & Hs & t & Ht & Ft) Hrun.
  destruct s as [sock conn hp nxt tr clk w].
  simpl in *. subst. run Hrun. repeat split.
  eexists _, _. simpl. by rewrite <- app_assoc.
Qed.

End ConversationFacts.

(** The traversal of the body of a request. *)
Ltac talk_walk :=
  repeat lazymatch goal with
  | |- hoare _ (bind get _) _ => apply hoare_get; intros ? ? ?
  | |- hoare ?P (bind ?m _) _ =>
      eapply (hoare_bind _ (fun _ => P));
      [ first [ solve [apply hoare_talking; [keeps_tac|adds_tac]]
              | solve [talk_walk] ]
      | intros ? ]
  | |- hoare _ (end_ _ _) _ => apply hoare_hang_up
  | |- hoare _ (Return _) _ => apply hoare_ret; intros; assumption
  | |- hoare _ (fail _) _ => apply hoare_fail
  | |- hoare _ (if ?c then _ else _) _ => destruct c eqn:?
  | |- hoare _ (match ?x with _ => _ end) _ => destruct x eqn:?
  | |- hoare _ ?m _ => let h := app_head m in progress unfold h
  end.

Section ConversationTheorem.
Context `{Externals}.

(** Both request paths have the same frame: connect, run the body on
    the connected socket, and leave through [end]. *)
Lemma exchange_conversation {A} (body : Z -> M (Z * A)) (out0 : A) s r s' :
  (forall fd tr0, hoare (talking fd tr0) (body fd)
                    (fun _ => hung_up fd tr0)) ->
  connected s = false ->
  (let* ret := connect_sessiond in
   if ret <? 0 then end_ (- LTTNG_ERR_NO_SESSIOND) out0 else
   let* _ := set_connection ret true in body ret) s = Done r s' ->
  one_conversation (new_events s s').
Proof.
  intros Hbody Hidle Hrun. invert_run Hrun.
  apply connect_sessiond_log in Hcall
    as (Hc & Hs & _ & _ & r0 & t & Ht & Hcase).
  exists r0. destruct (a <? 0) eqn:Hneg.
  - assert (Hend : trace s' = trace s0).
    { destruct s0 as [sock conn hp nxt tr clk w]. simpl in *.
      rewrite Hidle in Hc. subst conn. by run Hrun. }
    exists t. split.
    { apply new_events_app. by rewrite Hend, Ht. }
    destruct Hcase as [(-> & Hop & Ht')|[Hpos _]];
      [|apply Z.ltb_lt in Hneg; lia].
    destruct Ht' as [->|(c & ->)]; [by left|right; left].
    exists c. split; [|done]. simpl in Hop.
    destruct (0 <=? c) eqn:Hc0; [done|]. by apply Z.leb_gt.
  - destruct Hcase as [(-> & _)|[Hpos ->]]; [done|].
    invert_run Hrun. injection Hcall as <- <-.
    set (tr0 := trace s ++ [EvResolvePath r0; EvConnect a]).
    match type of Hrun with
    | _ ?st = _ =>
        assert (HP : talking a tr0 st)
          by (repeat split; [done..|exists []; simpl;
                split; [by rewrite app_nil_r, Ht|done]])
    end.
    destruct (Hbody _ _ _ _ _ HP Hrun) as (_ & _ & t' & rc & Ht' & Ft').
    eexists. split.
    { apply new_events_app. rewrite Ht'. unfold tr0.
      rewrite <- app_assoc. reflexivity. }
    right; right. exists a, t', rc. done.
Qed.

(** X22: A request is one conversation: the path of the socket is resolved
    once; if the connection succeeds, every message of the request is
    sent to, or received from, the descriptor that was returned, which
    is closed last; nothing else reaches outside of the process. *)
Theorem request_is_one_conversation (req : request) s r s' :
  connected s = false ->
  run_request req s = Done r s' ->
  one_conversation (new_events s s').
Proof.
  intros Hidle Hrun.
  destruct req as [lsm fds nb_fd vardata vardata_len out|message reply];
    unfold run_request in Hrun; invert_run Hrun; destruct a as [ret o];
    invert_run Hrun.
  - unfold lttng_ctl_ask_sessiond_fds_varlen in Hcall.
    refine (exchange_conversation (fun _ => _) _ _ _ _ _ Hidle Hcall).
    intros fd tr0. talk_walk.
  - unfold lttng_ctl_ask_sessiond_payload in Hcall.
    destruct (negb (buffer_size (buffer reply) =? 0)); [done|].
    destruct (negb (Z.of_nat (length (_fd_handles reply)) =? 0)); [done|].
    refine (exchange_conversation (fun _ => _) _ _ _ _ _ Hidle Hcall).
    intros fd tr0. talk_walk.
Qed.

End ConversationTheorem.
(* ================================================================== *)
(** * What [lttng_list_events] returns *)

Lemma neg_ok {A} (a : A) : throws_negative (ok a).
Proof. by intros s r s' ?. Qed.

Lemma neg_throw {A} r : r < 0 -> throws_negative (@throw A r).
Proof. intros Hr s r' s' [= <- <-]. done. Qed.

Lemma neg_fail {A} f : throws_negative (@fail (Z + A) f).
Proof. by intros s r s' ?. Qed.

Lemma neg_bindE {A B} (m : E A) (k : A -> E B) :
  throws_negative m -> (forall a, throws_negative (k a)) ->
  throws_negative (bindE m k).
Proof.
  intros Hm Hk s r s' Hrun. unfold bindE, bind in Hrun.
  destruct (m s) as [[r1|a] s1|] eqn:Hms; [| |done].
  - injection Hrun as <- <-. by eapply Hm.
  - by eapply Hk.
Qed.

Lemma neg_bind {A B} (m : M A) (k : A -> M (Z + B)) :
  (forall a, throws_negative (k a)) -> throws_negative (bind m k).
Proof.
  intros Hk s r s' Hrun. invert_run Hrun. by eapply Hk.
Qed.

Ltac neg_step :=
  lazymatch goal with
  | |- throws_negative (bindE _ _) => apply neg_bindE; [|intros ?]
  | |- throws_negative (bind _ _) => apply neg_bind; intros ?
  | |- throws_negative (ok _) => apply neg_ok
  | |- throws_negative (throw _) => apply neg_throw; lia
  | |- throws_negative (fail _) => apply neg_fail
  | |- throws_negative (if ?c then _ else _) => destruct c
  | |- throws_negative (match ?x with _ => _ end) => destruct x eqn:?
  | |- throws_negative ?m => let h := app_head m in progress unfold h
  end.

Section ListEventsFacts.
Context `{Externals}.

Lemma measure_pass_negative whole buf n : forall c storage_req ret,
  measure_pass whole buf n c storage_req = Failed ret -> ret < 0.
Proof.
  induction n as [|n IH]; intros c storage_req ret Hm; [done|].
  cbn [measure_pass] in Hm.
  destruct (read_ext_comm buf c) as [ext|]; [|done].
  destruct (negb _).
  - destruct (probe_location_view _ _ _ _); [|injection Hm as <-; lia].
    destruct (userspace_probe_location_flat _); [|injection Hm as <-; lia].
    by eapply IH.
  - by eapply IH.
Qed.

Lemma flatten_pass_negative whole buf n : forall c listing refs,
  throws_negative (flatten_pass whole buf n c listing refs).
Proof.
  induction n as [|n IH]; intros c listing refs; cbn [flatten_pass].
  - apply neg_ok.
  - repeat first [ apply IH | neg_step ].
Qed.

Lemma flatten_events_negative payload payload_copy :
  throws_negative (flatten_events payload payload_copy).
Proof.
  unfold flatten_events.
  destruct (negb _); [apply neg_throw; lia|].
  destruct (INT_MAX <? _); [apply neg_throw; lia|].
  destruct (measure_events payload) as [sr|ret|] eqn:Hm;
    [|apply neg_throw; by eapply measure_pass_negative|apply neg_fail].
  cbv zeta.
  repeat first [ apply flatten_pass_negative | neg_step ].
Qed.

(** X23: [lttng_list_events] either fails, with a negative result and
    [*events] as it was, or returns the number of events with a
    listing that holds as many records, whose references point into
    the listing, after the fixed records: the extended block inside
    it, the filter expression right after the block, the table of [k]
    exclusions inside it whenever [k * LTTNG_SYMBOL_NAME_LEN] fits 32
    bits, and the probe location at a multiple of 8 bytes, not after
    its end. *)
Theorem list_events_outcome (handle : option lttng_handle)
    (channel_name : option (list byte))
    (events : option (option flat_events)) s ret events' s' :
  lttng_list_events handle channel_name events s = Done (ret, events') s' ->
  (ret < 0 /\ events' = events) \/
  (0 <= ret /\
   exists flat,
     events' = Some (Some flat) /\
     length (fe_refs flat) = Z.to_nat ret /\
     Forall (ref_inside (ret * sizeof_lttng_event)
               (buffer_size (fe_listing flat)))
       (fe_refs flat)).
Proof.
  intros Hrun. unfold lttng_list_events in Hrun. cbv zeta in Hrun.
  destruct handle as [h|]; [|by destruct channel_name].
  destruct channel_name as [name|]; [|done].
  unfold bind at 1 in Hrun.
  destruct (copy_field_spec LTTNG_NAME_MAX (Some (h_session_name h)) s)
    as (d1 & Hd1 & _).
  rewrite Hd1 in Hrun. unfold bind at 1 in Hrun.
  destruct (copy_field_spec LTTNG_SYMBOL_NAME_LEN (Some name) s)
    as (d2 & Hd2 & _).
  rewrite Hd2 in Hrun.
  invert_run Hrun. destruct a as [ret0 payload].
  destruct (ret0 <? 0) eqn:Hret0.
  { unfold lttng_payload_reset in Hrun. repeat invert_run Hrun.
    simplify_eq. left. split; [lia|done]. }
  invert_run Hrun. destruct a as [ret1 payload_copy].
  destruct (negb (ret1 =? 0)).
  { unfold lttng_payload_reset in Hrun. repeat invert_run Hrun.
    simplify_eq. left. split; [lia|done]. }
  invert_run Hrun. destruct a as [ret2|[n flat]].
  { unfold lttng_payload_reset in Hrun. repeat invert_run Hrun.
    simplify_eq. left.
    split; [by eapply flatten_events_negative|done]. }
  destruct events as [cell|]; [|done].
  unfold lttng_payload_reset in Hrun. repeat invert_run Hrun.
    simplify_eq. right.
  match goal with
  | Hf : flatten_events _ _ _ = _ |- _ =>
      destruct (flatten_events_refs _ _ _ _ _ _ Hf) as (_ & Hpos & Hlen & Hrefs)
  end.
  split; [done|]. by exists flat.
Qed.

End ListEventsFacts.
(* ================================================================== *)
(** * The reply of the payload path *)

Section PayloadFacts.
Context `{Externals}.

(** X24: What a request of the payload path leaves in the reply when
    its result is not negative.  The reply header is the first thing
    read.  When it says [LTTNG_OK], the only other reads are those of
    the command header, of the data and of the descriptors that the
    header announces, the reply holds the bytes that these reads
    delivered, the command header followed by the data, each in a
    zeroed area of the size announced, with the descriptors received,
    the reply header having been moved out, and the result is the size
    of the two sections.  Otherwise nothing else is read and the reply
    holds the header alone. *)
Theorem payload_reply_is_the_sections (message : lttng_payload_view)
    (reply : lttng_payload) s r s' :
  lttng_ctl_ask_sessiond_payload message reply s = Done r s' ->
  payload_reply s r s'.
Proof.
  intros Hrun Hpos. destruct r as [ret reply']. cbn [fst snd] in *.
  destruct (payload_cases _ _ _ _ _ _ Hrun)
    as [(Hdata & Hfds & Hwhy)
       |(sock & n & bytes & n1 & cmd & n2 & dat & n3 & fds & Hwhole)].
  - destruct Hwhy as [Hneg|(sock & n & bytes & Hrs & Hrefused)]; [lia|].
    cbv zeta in Hrefused. destruct Hrefused as [Hcode Hret].
    exists sock, n, bytes. cbv zeta.
    rewrite (proj2 (Z.eqb_neq _ _)) by done.
    rewrite Hrs in Hdata, Hfds. cbn [received received_fds] in Hdata, Hfds.
    rewrite app_nil_r in Hdata. done.
  - cbv zeta in Hwhole.
    destruct Hwhole as (Hrs & Hcode & Hdata & Hfds & Hret).
    exists sock, n, bytes. cbv zeta.
    rewrite (proj2 (Z.eqb_eq _ _)) by done.
    exists n1, cmd, n2, dat, n3, fds.
    split; [done|]. split; [done|]. split; [|done].
    rewrite Hfds, Hrs. cbn [received_fds].
    by rewrite !received_fds_app, !received_fds_section,
      received_fds_descriptors.
Qed.

End PayloadFacts.
(* ================================================================== *)
(** * The exchange of the fixed-header path, case by case *)

Ltac fold_llm :=
  repeat match goal with
  | Hx : context [to_uint32 (data_size (decode_lttcomm_lttng_msg ?x))] |- _ =>
      change (to_uint32 (data_size (decode_lttcomm_lttng_msg x)))
        with (data_size (read_llm x)) in Hx
  | |- context [to_uint32 (data_size (decode_lttcomm_lttng_msg ?x))] =>
      change (to_uint32 (data_size (decode_lttcomm_lttng_msg x)))
        with (data_size (read_llm x))
  end.

Section ExchangeFacts.
Context `{Externals}.

(** The four ways in which [lttng_ctl_ask_sessiond] returns to a caller
    that passed a cell for the payload: a failure, with at most the
    header and a failed read of the data logged; a refusal; an empty
    reply; or the data, in a new block of the size that the header
    announces. *)
Lemma ask_cases lsm (p : option nat) s ret buf' s' :
  lttng_ctl_ask_sessiond lsm (Some p) s = Done (ret, buf') s' ->
  heap s !! next_block s = None ->
  (ret < 0 /\ buf' = Some p /\ heap s' = heap s /\
   (reads (new_events s s') = [] \/
    (exists sock len n hdr,
       reads (new_events s s') = [EvRecv sock len n hdr] /\
       (n < 0 \/ cmd_header_size (read_llm hdr) <> 0 \/
        data_size (read_llm hdr) <> 0)) \/
    (exists sock len n hdr sock2 len2 n2 bytes,
       reads (new_events s s')
       = [EvRecv sock len n hdr; EvRecv sock2 len2 n2 bytes] /\ n2 < 0))) \/
  (exists sock len n hdr,
     reads (new_events s s') = [EvRecv sock len n hdr] /\
     ret_code (read_llm hdr) <> LTTNG_OK /\
     ret = to_int (to_uint32 (- ret_code (read_llm hdr))) /\
     buf' = Some p /\ heap s' = heap s) \/
  (exists sock len n hdr,
     reads (new_events s s') = [EvRecv sock len n hdr] /\
     ret_code (read_llm hdr) = LTTNG_OK /\ data_size (read_llm hdr) = 0 /\
     ret = 0 /\ buf' = Some None /\ heap s' = heap s) \/
  (exists sock len n hdr sock2 n2 bytes,
     reads (new_events s s')
     = [EvRecv sock len n hdr;
        EvRecv sock2 (data_size (read_llm hdr)) n2 bytes] /\
     0 <= n2 /\ ret_code (read_llm hdr) = LTTNG_OK /\
     data_size (read_llm hdr) <> 0 /\
     ret = to_int (data_size (read_llm hdr)) /\
     buf' = Some (Some (next_block s)) /\
     next_block s' = S (next_block s) /\
     heap s' = <[next_block s := area (data_size (read_llm hdr)) bytes]> (heap s)).
Proof.
  intros Hrun Hfresh. destruct s as [sock conn hp nxt tr clk w].
  unfold lttng_ctl_ask_sessiond, lttng_ctl_ask_sessiond_varlen_no_cmd_header,
    lttng_ctl_ask_sessiond_fds_varlen in Hrun.
  run Hrun; simpl in Hfresh.
  all: unfold new_events; cbn [trace heap next_block];
    rewrite <- ?app_assoc, drop_app_length; cbn [app reads].
  all: rewrite ?insert_insert_eq, ?delete_insert_id by done.
  all: repeat match goal with
       | Hb : (_ <? _) = true |- _ => apply Z.ltb_lt in Hb
       | Hb : (_ <? _) = false |- _ => apply Z.ltb_ge in Hb
       | Hb : (_ =? _) = true |- _ => apply Z.eqb_eq in Hb
       | Hb : (_ =? _) = false |- _ => apply Z.eqb_neq in Hb
       end.
  all: repeat match goal with
       | |- context [to_uint32 (data_size (decode_lttcomm_lttng_msg ?x))] =>
           change (to_uint32 (data_size (decode_lttcomm_lttng_msg x)))
             with (data_size (read_llm x))
       | |- context [to_uint32 (ret_code (decode_lttcomm_lttng_msg ?x))] =>
           change (to_uint32 (ret_code (decode_lttcomm_lttng_msg x)))
             with (ret_code (read_llm x))
       end.
  all: try match goal with
       | Hd : data_size _ = 0 |- _ => rewrite Hd; change (to_int 0) with 0
       end.
  all: try (left; split; [lia|]; split; [reflexivity|]; split; [reflexivity|];
            first [ left; reflexivity
                  | right; left; eexists _, _, _, _;
                    split; [reflexivity|];
                    first [ left; lia | right; left; assumption
                          | right; right; assumption ]
                  | right; right; eexists _, _, _, _, _, _, _, _;
                    split; [reflexivity|lia] ]).
  all: try (right; left; eexists _, _, _, _; split; [reflexivity|];
            split; [assumption|]; split; [reflexivity|]; split; reflexivity).
  all: try (right; right; left; eexists _, _, _, _; split; [reflexivity|];
            split; [assumption|]; split; [assumption|];
            split; [reflexivity|]; split; reflexivity).
  all: try (right; right; right; eexists _, _, _, _, _, _, _;
            split; [reflexivity|]; split; [lia|]; split; [assumption|];
            split; [assumption|]; split; [reflexivity|];
            split; [reflexivity|]; split; reflexivity).
Qed.

Lemma new_events_same s s1 s' :
  trace s' = trace s1 -> new_events s s' = new_events s s1.
Proof. unfold new_events. by intros ->. Qed.

Lemma quiet_end {A} (m : M A) s a s' :
  adds (fun _ => False) m -> m s = Done a s' -> trace s' = trace s.
Proof.
  intros Ha Hrun. destruct (Ha _ _ _ Hrun) as (t & Ht & Ft).
  destruct t as [|e t]; [|by inversion Ft]. by rewrite Ht, app_nil_r.
Qed.

Lemma free_heap p s u s' :
  free p s = Done u s' ->
  heap s' = match p with Some b => delete b (heap s) | None => heap s end.
Proof.
  intros Hrun. destruct s as [sock conn hp nxt tr clk w].
  destruct p; by run Hrun.
Qed.

Lemma to_int_one z : 0 <= z < 2 ^ 32 -> to_int z = 1 -> z = 1.
Proof.
  intros Hz. unfold to_int. rewrite Z.mod_small by lia.
  destruct (z <? 2 ^ 31) eqn:Hlt; lia.
Qed.

(** C10, as the code has it: when the reply header of a session or
    channel listing says [LTTNG_OK] and announces a data section whose
    size is positive, at most [INT_MAX], and not a multiple of the size
    of a record with its extended part, the listing returns a negative
    value and leaves no block behind: the heap is as it was, and the
    output of the caller is [NULL] or as it was.  When the data section
    was received, a block was obtained for it and freed, the output is
    [NULL] and the result is [-LTTNG_ERR_UNK]. *)
Theorem misaligned_listing_rejected (l : extended_listing) (out : option nat)
    s ret out' s' sock len n hdr :
  list_extended l (Some out) s = Done (ret, out') s' ->
  fresh_above s ->
  head (reads (new_events s s')) = Some (EvRecv sock len n hdr) ->
  ret_code (read_llm hdr) = LTTNG_OK ->
  0 < data_size (read_llm hdr) <= INT_MAX ->
  data_size (read_llm hdr) mod extended_record_size l <> 0 ->
  ret < 0 /\ heap s' = heap s /\
  (out' = Some None \/ out' = Some out) /\
  (forall sock2 len2 n2 bytes,
     reads (new_events s s')
     = [EvRecv sock len n hdr; EvRecv sock2 len2 n2 bytes] ->
     0 <= n2 ->
     len2 = data_size (read_llm hdr) /\
     next_block s' = S (next_block s) /\
     ret = - LTTNG_ERR_UNK /\ out' = Some None).
Proof.
  intros Hrun Hfresh Hhead Hcode Hsize Hmod.
  assert (Hnone : heap s !! next_block s = None) by (by apply Hfresh).
  unfold INT_MAX in Hsize.
  destruct l as [|h]; unfold list_extended, extended_record_size in *.
  - unfold lttng_list_sessions in Hrun. cbv zeta in Hrun.
    invert_run Hrun. destruct a as [ret0 sessions].
    match type of Hrun with
    | ?m _ = _ => assert (Ha : adds (fun _ => False) m) by adds_tac
    end.
    rewrite (new_events_same _ _ _ (quiet_end _ _ _ _ Ha Hrun)) in *.
    clear Ha.
    destruct (ask_cases _ _ _ _ _ _ Hcall Hnone)
      as [(Hneg & -> & Hheap & Hreads)
         |[(sock0 & len0 & n0 & hdr0 & Hreads & Hc & _)
          |[(sock0 & len0 & n0 & hdr0 & Hreads & _ & Hzero & _)
           |(sock0 & len0 & n0 & hdr0 & sock2 & n2 & bytes & Hreads & Hn2
             & _ & _ & -> & -> & Hnext & Hheap)]]].
    + rewrite (proj2 (Z.leb_le _ _)) in Hrun by lia.
      invert_run Hrun. simplify_eq.
      split; [done|]. split; [done|]. split; [by right|].
      intros sock2 len2 n2 bytes Htwo Hn2. rewrite Htwo in Hreads.
      destruct Hreads as [?|[(? & ? & ? & ? & ? & ?)
                             |(? & ? & ? & ? & ? & ? & ? & ? & ? & ?)]];
        simplify_eq; lia.
    + rewrite Hreads in Hhead. cbn [head] in Hhead. simplify_eq.
    + rewrite Hreads in Hhead. cbn [head] in Hhead. simplify_eq. lia.
    + rewrite Hreads in Hhead. cbn [head] in Hhead. simplify_eq.
      rewrite to_int_small in Hrun by lia.
      rewrite (proj2 (Z.leb_gt _ _)) in Hrun by lia. cbn [cell] in Hrun.
      rewrite (proj2 (Z.eqb_neq _ _)) in Hrun by done. cbn [negb] in Hrun.
      invert_run Hrun. invert_run Hrun. simplify_eq.
      apply free_spec in Hcall0 as (_ & Hfree & Hnext').
      assert (Hsame : heap s' = heap s)
        by (rewrite Hfree, Hheap; by apply delete_insert_id).
      split; [lia|]. split; [done|]. split; [by left|].
      intros ? ? ? ? Htwo _. rewrite Hreads in Htwo. simplify_eq.
      repeat split; congruence.
  - unfold lttng_list_channels in Hrun. cbv zeta in Hrun.
    unfold bind at 1 in Hrun.
    destruct (copy_field_spec LTTNG_NAME_MAX (Some (h_session_name h)) s)
      as (name & Hname & _).
    rewrite Hname in Hrun.
    invert_run Hrun. destruct a as [ret0 channels].
    match type of Hrun with
    | ?m _ = _ => assert (Ha : adds (fun _ => False) m) by adds_tac
    end.
    rewrite (new_events_same _ _ _ (quiet_end _ _ _ _ Ha Hrun)) in *.
    clear Ha.
    destruct (ask_cases _ _ _ _ _ _ Hcall Hnone)
      as [(Hneg & -> & Hheap & Hreads)
         |[(sock0 & len0 & n0 & hdr0 & Hreads & Hc & _)
          |[(sock0 & len0 & n0 & hdr0 & Hreads & _ & Hzero & _)
           |(sock0 & len0 & n0 & hdr0 & sock2 & n2 & bytes & Hreads & Hn2
             & _ & _ & -> & -> & Hnext & Hheap)]]].
    + rewrite (proj2 (Z.ltb_lt _ _)) in Hrun by lia.
      invert_run Hrun. simplify_eq.
      split; [done|]. split; [done|]. split; [by right|].
      intros sock2 len2 n2 bytes Htwo Hn2. rewrite Htwo in Hreads.
      destruct Hreads as [?|[(? & ? & ? & ? & ? & ?)
                             |(? & ? & ? & ? & ? & ? & ? & ? & ? & ?)]];
        simplify_eq; lia.
    + rewrite Hreads in Hhead. cbn [head] in Hhead. simplify_eq.
    + rewrite Hreads in Hhead. cbn [head] in Hhead. simplify_eq. lia.
    + rewrite Hreads in Hhead. cbn [head] in Hhead. simplify_eq.
      rewrite to_int_small in Hrun by lia.
      rewrite (proj2 (Z.ltb_ge _ _)) in Hrun by lia.
      rewrite (proj2 (Z.eqb_neq _ _)) in Hrun by done. cbn [negb] in Hrun.
      invert_run Hrun. invert_run Hrun. simplify_eq.
      apply free_spec in Hcall0 as (_ & Hfree & Hnext').
      assert (Hsame : heap s' = heap s)
        by (rewrite Hfree, Hheap; by apply delete_insert_id).
      split; [lia|]. split; [done|]. split; [by left|].
      intros ? ? ? ? Htwo _. rewrite Hreads in Htwo. simplify_eq.
      repeat split; congruence.
Qed.

(** X10: [lttng_data_pending] frees what it received and returns either
    a negative value or the value of the byte that the daemon sent,
    the one byte of a data section of size 1, as the read left it in
    the zeroed block.  A data section of another size, up to
    [INT_MAX], and a reply without data, give [-LTTNG_ERR_INVALID]. *)
Theorem data_pending_result (session_name : list byte) s ret s' :
  lttng_data_pending (Some session_name) s = Done ret s' ->
  fresh_above s ->
  heap s' = heap s /\
  (ret < 0 \/
   exists sock len n hdr sock2 n2 bytes v,
     reads (new_events s s')
     = [EvRecv sock len n hdr; EvRecv sock2 1 n2 bytes] /\
     0 <= n2 /\ ret_code (read_llm hdr) = LTTNG_OK /\
     data_size (read_llm hdr) = 1 /\
     area 1 bytes = [v] /\ ret = Z.of_N (Byte.to_N v)) /\
  (forall sock len n hdr sock2 len2 n2 bytes,
     reads (new_events s s')
     = [EvRecv sock len n hdr; EvRecv sock2 len2 n2 bytes] ->
     0 <= n2 -> len2 <> 1 -> len2 <= INT_MAX ->
     ret = - LTTNG_ERR_INVALID) /\
  (forall sock len n hdr,
     reads (new_events s s') = [EvRecv sock len n hdr] ->
     0 <= n -> ret_code (read_llm hdr) = LTTNG_OK ->
     cmd_header_size (read_llm hdr) = 0 -> data_size (read_llm hdr) = 0 ->
     ret = - LTTNG_ERR_INVALID).
Proof.
  intros Hrun Hfresh.
  assert (Hnone : heap s !! next_block s = None) by (by apply Hfresh).
  unfold lttng_data_pending in Hrun. cbv zeta in Hrun.
  unfold bind at 1 in Hrun.
  destruct (copy_field_spec LTTNG_NAME_MAX (Some session_name) s)
    as (name & Hname & _).
  rewrite Hname in Hrun.
  invert_run Hrun. destruct a as [ret0 pending].
  match type of Hrun with
  | ?m _ = _ => assert (Ha : adds (fun _ => False) m) by adds_tac
  end.
  rewrite (new_events_same _ _ _ (quiet_end _ _ _ _ Ha Hrun)) in *.
  clear Ha. unfold INT_MAX.
  destruct (ask_cases _ _ _ _ _ _ Hcall Hnone)
    as [(Hneg & -> & Hheap & Hreads)
       |[(sock0 & len0 & n0 & hdr0 & Hreads & Hc & -> & -> & Hheap)
        |[(sock0 & len0 & n0 & hdr0 & Hreads & Hc & Hzero & -> & -> & Hheap)
         |(sock0 & len0 & n0 & hdr0 & sock2 & n2 & bytes & Hreads & Hn2
           & Hc & Hnz & -> & -> & Hnext & Hheap)]]]; cbn [cell] in Hrun.
  - rewrite (proj2 (Z.ltb_lt _ _)) in Hrun by lia.
    repeat invert_run Hrun. match goal with Hf : free _ _ = _ |- _ => apply free_heap in Hf end. simplify_eq.
    split; [congruence|]. split; [by left|].
    split; intros * Hlog **; rewrite Hlog in Hreads;
      destruct Hreads as [?|[(? & ? & ? & ? & ? & ?)
                            |(? & ? & ? & ? & ? & ? & ? & ? & ? & ?)]];
      simplify_eq; lia.
  - assert (Hret : ret < 0 /\ heap s' = heap s).
    { destruct (_ <? 0) eqn:Hlt in Hrun;
        [|destruct (negb _) in Hrun];
        repeat invert_run Hrun; try match goal with Hf : free _ _ = _ |- _ => apply free_heap in Hf end;
        simplify_eq; split; try congruence; lia. }
    destruct Hret as [Hret Hsame].
    split; [done|]. split; [by left|].
    split; intros * Hlog **; rewrite Hreads in Hlog; simplify_eq.
  - change (0 <? 0) with false in Hrun.
    change (0 =? 1) with false in Hrun. cbn [negb] in Hrun.
    repeat invert_run Hrun. match goal with Hf : free _ _ = _ |- _ => apply free_heap in Hf end. simplify_eq.
    split; [congruence|]. split; [left; lia|].
    split; intros * Hlog **; rewrite Hreads in Hlog; simplify_eq. done.
  - pose proof (to_uint32_range
                  (data_size (decode_lttcomm_lttng_msg hdr0))) as Hrange.
    change (to_uint32 (data_size (decode_lttcomm_lttng_msg hdr0)))
      with (data_size (read_llm hdr0)) in Hrange.
    assert (Hback : delete (next_block s) (heap s0) = heap s)
      by (rewrite Hheap; by apply delete_insert_id).
    destruct (to_int (data_size (read_llm hdr0)) <? 0) eqn:Hlt.
    { repeat invert_run Hrun.
      match goal with Hf : free _ _ = _ |- _ => apply free_heap in Hf end.
      simplify_eq. apply Z.ltb_lt in Hlt.
      split; [congruence|]. split; [by left|].
      split; intros * Hlog **; rewrite Hreads in Hlog; simplify_eq.
      fold_llm. exfalso. rewrite to_int_small in Hlt by lia. lia. }
    destruct (to_int (data_size (read_llm hdr0)) =? 1) eqn:Hone;
      cbn [negb] in Hrun.
    2: { repeat invert_run Hrun.
         match goal with Hf : free _ _ = _ |- _ => apply free_heap in Hf end.
         simplify_eq.
         split; [congruence|]. split; [left; lia|].
         split; intros * Hlog **; rewrite Hreads in Hlog; simplify_eq. done. }
    apply Z.eqb_eq in Hone. apply to_int_one in Hone; [|done].
    rewrite Hone in *.
    invert_run Hrun. injection Hcall0 as <- <-.
    rewrite Hheap, lookup_insert_eq in Hrun.
    pose proof (length_area 1 bytes) as Hlen.
    change (Z.to_nat 1) with 1%nat in Hlen.
    destruct (area 1 bytes) as [|v [|? ?]] eqn:Harea;
      [discriminate Hlen| |discriminate Hlen].
    repeat invert_run Hrun.
    match goal with Hf : free _ _ = _ |- _ => apply free_heap in Hf end.
    simplify_eq.
    split; [congruence|]. split.
    + right. by exists sock0, len0, n0, hdr0, sock2, n2, bytes, v.
    + split; intros * Hlog **; rewrite Hreads in Hlog; simplify_eq;
        try congruence; try lia.
Qed.
(** ** A reply of 2^31 bytes or more *)

(** When nothing fails, the exchange hands the block of the data over
    and returns the size that the header announces, as an [int]. *)
Lemma ask_delivers lsm (p : option nat) s :
  delivers s ->
  heap s !! next_block s = None ->
  exists s',
    lttng_ctl_ask_sessiond lsm (Some p) s
    = Done (to_int (data_size (read_llm (a_bytes (upcoming s 3)))),
            Some (Some (next_block s))) s' /\
    heap s'
    = <[next_block s := area (data_size (read_llm (a_bytes (upcoming s 3))))
                          (a_bytes (upcoming s 5))]> (heap s).
Proof.
  intros (H0 & H1 & H2 & H3 & Hcode & Hcmd & Hdata & H4 & H5) Hfresh.
  destruct s as [sock conn hp nxt tr clk w].
  unfold upcoming in *. cbn [world clock heap next_block Nat.add] in *.
  destruct (lttng_ctl_ask_sessiond lsm (Some p)
              {| sessiond_socket := sock; connected := conn; heap := hp;
                 next_block := nxt; trace := tr; clock := clk; world := w |})
    as [[ret buf'] s'|f] eqn:Hrun.
  - unfold lttng_ctl_ask_sessiond, lttng_ctl_ask_sessiond_varlen_no_cmd_header,
      lttng_ctl_ask_sessiond_fds_varlen in Hrun.
    run Hrun.
    all: repeat match goal with
         | Hb : (_ <? _) = true |- _ => apply Z.ltb_lt in Hb
         | Hb : (_ <? _) = false |- _ => apply Z.ltb_ge in Hb
         | Hb : (_ =? _) = true |- _ => apply Z.eqb_eq in Hb
         | Hb : (_ =? _) = false |- _ => apply Z.eqb_neq in Hb
         end.
    all: try lia.
    all: try congruence.
    all: try (destruct (a_ret (w clk) <? 0) eqn:?; lia).
    all: eexists; split; [reflexivity|]; cbn [heap];
      by rewrite insert_insert_eq.
  - unfold lttng_ctl_ask_sessiond, lttng_ctl_ask_sessiond_varlen_no_cmd_header,
      lttng_ctl_ask_sessiond_fds_varlen in Hrun.
    run Hrun.
Qed.

Lemma to_int_wraps z : 2 ^ 31 <= z < 2 ^ 32 -> to_int z = z - 2 ^ 32.
Proof.
  intros Hz. unfold to_int. rewrite Z.mod_small by lia.
  by rewrite (proj2 (Z.ltb_ge _ _)) by lia.
Qed.

(** A reply of 2^31 bytes or more: the size comes back negative, and
    both listings take it for an error code after the block was handed
    over. *)
Lemma oversized_listing_kept (h : lttng_handle) (out : option nat) s :
  delivers s ->
  fresh_above s ->
  2 ^ 31 <= data_size (read_llm (a_bytes (upcoming s 3))) ->
  let ret := data_size (read_llm (a_bytes (upcoming s 3))) - 2 ^ 32 in
  (exists s',
     lttng_list_channels (Some h) (Some out) s
     = Done (ret, Some (Some (next_block s))) s' /\
     is_Some (heap s' !! next_block s)) /\
  (exists s',
     lttng_list_sessions (Some out) s = Done (ret, Some out) s' /\
     is_Some (heap s' !! next_block s)).
Proof.
  intros Hd Hfresh Hbig ret.
  pose proof (to_uint32_range
                (data_size (decode_lttcomm_lttng_msg
                              (a_bytes (upcoming s 3))))) as Hrange.
  change (to_uint32 (data_size (decode_lttcomm_lttng_msg ?x)))
    with (data_size (read_llm x)) in Hrange.
  assert (Hret : to_int (data_size (read_llm (a_bytes (upcoming s 3)))) = ret)
    by (apply to_int_wraps; lia).
  assert (Hneg : ret < 0) by (unfold ret; lia).
  assert (Hnone : heap s !! next_block s = None) by (by apply Hfresh).
  split.
  - destruct (copy_field_spec LTTNG_NAME_MAX (Some (h_session_name h)) s)
      as (name & Hname & _).
    destruct (ask_delivers
                (with_domain
                   (with_session_name (lsm_init LTTNG_LIST_CHANNELS) name)
                   (COPY_DOMAIN_PACKED (h_domain h)))
                out s Hd Hnone) as (s' & Hask & Hheap).
    exists s'. split; [|rewrite Hheap, lookup_insert_eq; by eexists].
    unfold lttng_list_channels. cbv zeta. unfold bind at 1. rewrite Hname.
    unfold bind at 1. rewrite Hask, Hret.
    by rewrite (proj2 (Z.ltb_lt _ _)) by done.
  - destruct (ask_delivers (lsm_init LTTNG_LIST_SESSIONS) None s Hd Hnone)
      as (s' & Hask & Hheap).
    exists s'. split; [|rewrite Hheap, lookup_insert_eq; by eexists].
    unfold lttng_list_sessions. cbv zeta. unfold bind at 1.
    rewrite Hask, Hret. cbn [cell].
    by rewrite (proj2 (Z.leb_le _ _)) by lia.
Qed.
End ExchangeFacts.

(* ================================================================== *)
(** * The theorems at work *)

Section Scenarios.
Existing Instance sample_externals.
Existing Instance sample_headers.

(** A concrete run: the result is computed, and replaces its name. *)
Ltac ran Hrun :=
  let Hc := fresh in
  pose proof Hrun as Hc; vm_compute in Hc; injection Hc as <- <- <-.

(** C1 fails as stated: the data section fails after the command header
    was received, the request returns [-LTTNG_ERR_FATAL], and the
    command-header output holds block 0, live, with the 4 bytes
    received. *)
Lemma failed_data_section_keeps_command_header :
  exists out' s',
    lttng_ctl_ask_sessiond_fds_varlen (lsm_init LTTNG_LIST_EVENTS) None 0
      None 0 all_outputs (initial_state data_section_fails)
    = Done (- LTTNG_ERR_FATAL, out') s' /\
    user_cmd_header_buf out' = Some (Some 0%nat) /\
    user_cmd_header_len out' = Some 4 /\
    heap s' !! 0%nat = Some [x01; x02; x03; x04].
Proof. eexists _, _. split; [vm_compute; reflexivity|]. by vm_compute. Qed.

Lemma failed_request_outputs_witness :
  (exists ret out' s',
     run_request
       (FixedHeader (lsm_init LTTNG_LIST_EVENTS) None 0 None 0 all_outputs)
       (initial_state data_section_fails) = Done (ret, inl out') s' /\
     user_payload_buf out' = Some None /\
     ((heap s' = ∅ /\
       (user_cmd_header_buf out' = Some None \/
        user_cmd_header_buf out' = Some None)) \/
      exists bytes,
        user_cmd_header_buf out' = Some (Some 0%nat) /\
        heap s' = <[0%nat := bytes]> ∅)) /\
  (exists ret reply' s',
     run_request
       (PayloadBased {| pv_buffer := [x01]; pv_fd_handles := [] |}
          lttng_payload_init)
       (initial_state payload_data_fails) = Done (ret, inr reply') s' /\
     ret < 0 /\
     received (new_events (initial_state payload_data_fails) s')
     = llm_bytes 10 4 8 0 ++ [x01; x02; x03; x04] ++ replicate 8 x00 /\
     heap s' = ∅ /\
     _fd_handles reply'
     = received_fds (new_events (initial_state payload_data_fails) s') /\
     (data (buffer reply')
      = received (new_events (initial_state payload_data_fails) s') \/
      (data (buffer reply')
       = drop (Z.to_nat sizeof_lttcomm_lttng_msg)
           (received (new_events (initial_state payload_data_fails) s')) /\
       INT_MAX < buffer_size (buffer reply')))).
Proof.
  split.
  - destruct (run_request
        (FixedHeader (lsm_init LTTNG_LIST_EVENTS) None 0 None 0 all_outputs)
        (initial_state data_section_fails)) as [[ret out] s'|f] eqn:Hrun;
      [|vm_compute in Hrun; discriminate].
    ran Hrun. eexists _, _, _. split; [reflexivity|].
    apply (failed_request_outputs _ _ _ _ _ Hrun).
    + apply initial_fresh.
    + reflexivity.
    + intros sock len n hdr Hhead. vm_compute in Hhead.
      injection Hhead as <- <- <- <-. by vm_compute.
  - destruct (run_request
        (PayloadBased {| pv_buffer := [x01]; pv_fd_handles := [] |}
           lttng_payload_init)
        (initial_state payload_data_fails)) as [[ret out] s'|f] eqn:Hrun;
      [|vm_compute in Hrun; discriminate].
    ran Hrun. eexists _, _, _. split; [reflexivity|].
    split; [by vm_compute|]. split; [by vm_compute|].
    apply (failed_request_outputs _ _ _ _ _ Hrun).
    + apply initial_fresh.
    + reflexivity.
    + intros sock len n hdr Hhead. vm_compute in Hhead.
      injection Hhead as <- <- <- <-. by vm_compute.
Defined.

Lemma header_gating_witness :
  (exists ret out s',
     run_request
       (PayloadBased {| pv_buffer := [x01]; pv_fd_handles := [] |}
          lttng_payload_init)
       (initial_state daemon_refuses) = Done (ret, out) s' /\
     ret = -11 /\
     reads (new_events (initial_state daemon_refuses) s')
     = [EvRecv 7 24 24 (llm_bytes 11 0 12 2)]) /\
  (exists ret out s',
     run_request
       (FixedHeader (lsm_init LTTNG_LIST_EVENTS) None 0 None 0 all_outputs)
       (initial_state wrapped_refusal) = Done (ret, out) s' /\
     ret = 2 ^ 32 - 4294967295 /\ 0 < ret /\
     reads (new_events (initial_state wrapped_refusal) s')
     = [EvRecv 7 24 24 (llm_bytes 4294967295 0 12 2)]).
Proof.
  split.
  - destruct (run_request
        (PayloadBased {| pv_buffer := [x01]; pv_fd_handles := [] |}
           lttng_payload_init)
        (initial_state daemon_refuses)) as [[ret out] s'|f] eqn:Hrun;
      [|vm_compute in Hrun; discriminate].
    ran Hrun. eexists _, _, _. split; [reflexivity|].
    destruct (header_gating _ _ _ _ _ 7 24 24 (llm_bytes 11 0 12 2) Hrun)
      as (_ & Hret & _ & Hreads);
      [reflexivity|lia|reflexivity|by vm_compute|].
    split; [|exact Hreads]. apply Hret. by vm_compute.
  - destruct (run_request
        (FixedHeader (lsm_init LTTNG_LIST_EVENTS) None 0 None 0 all_outputs)
        (initial_state wrapped_refusal)) as [[ret out] s'|f] eqn:Hrun;
      [|vm_compute in Hrun; discriminate].
    ran Hrun. eexists _, _, _. split; [reflexivity|].
    destruct (header_gating _ _ _ _ _ 7 24 24
                (llm_bytes 4294967295 0 12 2) Hrun)
      as (_ & _ & Hret & Hreads);
      [reflexivity|lia|reflexivity|by vm_compute|].
    destruct Hret as [Hret Hpos]; [by vm_compute|].
    split; [exact Hret|]. split; [exact Hpos|exact Hreads].
Defined.

(** C3 fails as stated: the daemon answers with the code 2^32 - 1, and
    both paths return 1, which is not the negation of the code, after
    reading the header alone. *)
Lemma wrapped_code_is_not_negated :
  ret_code (read_llm (llm_bytes 4294967295 0 12 2)) = 4294967295 /\
  (exists out s',
     run_request
       (FixedHeader (lsm_init LTTNG_LIST_EVENTS) None 0 None 0 all_outputs)
       (initial_state wrapped_refusal) = Done (1, out) s' /\
     reads (new_events (initial_state wrapped_refusal) s')
     = [EvRecv 7 24 24 (llm_bytes 4294967295 0 12 2)]) /\
  (exists out s',
     run_request
       (PayloadBased {| pv_buffer := [x01]; pv_fd_handles := [] |}
          lttng_payload_init)
       (initial_state wrapped_payload_refusal) = Done (1, out) s' /\
     reads (new_events (initial_state wrapped_payload_refusal) s')
     = [EvRecv 7 24 24 (llm_bytes 4294967295 0 12 2)]).
Proof.
  split; [by vm_compute|].
  split; eexists _, _; (split; [vm_compute; reflexivity|by vm_compute]).
Qed.

Lemma request_leaves_unconnected_witness :
  exists r s',
    run_request
      (FixedHeader (lsm_init LTTNG_LIST_EVENTS) None 0 None 0 all_outputs)
      (initial_state data_section_fails) = Done r s' /\
    connected s' = false /\ sessiond_socket s' = -1 /\
    exists rc,
      last (new_events (initial_state data_section_fails) s')
      = Some (EvClose 7 rc).
Proof.
  destruct (run_request
      (FixedHeader (lsm_init LTTNG_LIST_EVENTS) None 0 None 0 all_outputs)
      (initial_state data_section_fails)) as [r s'|f] eqn:Hrun;
    [|vm_compute in Hrun; discriminate].
  exists r, s'. split; [reflexivity|].
  destruct (request_leaves_unconnected _ _ _ _ Hrun) as (Hc & _ & Hclosed).
  split; [exact Hc|]. apply Hclosed.
  pose proof Hrun as Hc'. vm_compute in Hc'. injection Hc' as <- <-.
  reflexivity.
Defined.


Lemma no_wait_never_polls_witness :
  exists r s',
    lttng_stop_tracing_no_wait 0 (Some (str "s")) (initial_state acknowledged)
    = Done r s' /\
    r = 0 /\
    sleeps (new_events (initial_state acknowledged) s') = 0%nat /\
    commands (new_events (initial_state acknowledged) s')
    = [LTTNG_STOP_TRACE].
Proof.
  destruct (lttng_stop_tracing_no_wait 5 (Some (str "s"))
              (initial_state acknowledged)) as [r s'|f] eqn:Hrun;
    [|vm_compute in Hrun; discriminate].
  destruct (no_wait_never_polls _ _ _ _ _ Hrun) as (Hzero & Hs & _ & _).
  exists r, s'. split; [exact Hzero|].
  pose proof Hrun as Hc. vm_compute in Hc. injection Hc as <- <-.
  split; [reflexivity|]. split; [exact Hs|reflexivity].
Defined.

Lemma misaligned_listing_rejected_witness :
  (exists s',
     list_extended Sessions (Some None) (initial_state misaligned_reply)
     = Done (- LTTNG_ERR_UNK, Some None) s' /\
     heap s' = ∅ /\ next_block s' = 1%nat) /\
  (exists s',
     list_extended (Channels kernel_handle) (Some None)
       (initial_state misaligned_reply)
     = Done (- LTTNG_ERR_UNK, Some None) s' /\
     heap s' = ∅ /\ next_block s' = 1%nat).
Proof.
  split.
  - destruct (list_extended Sessions (Some None)
                (initial_state misaligned_reply))
      as [[ret out'] s'|f] eqn:Hrun; [|vm_compute in Hrun; discriminate].
    destruct (misaligned_listing_rejected Sessions None _ _ _ _ 7 24 24
                (llm_bytes 10 0 50 0) Hrun (initial_fresh _))
      as (_ & Hheap & _ & Hfull).
    + ran Hrun. by vm_compute.
    + clear; by vm_compute.
    + clear; by vm_compute.
    + clear; by vm_compute.
    + destruct (Hfull 7 50 50 (replicate 50 x01)) as (_ & Hnext & -> & ->);
        [ran Hrun; by vm_compute|lia|].
      exists s'. split; [reflexivity|]. split; [exact Hheap|exact Hnext].
  - destruct (list_extended (Channels kernel_handle) (Some None)
                (initial_state misaligned_reply))
      as [[ret out'] s'|f] eqn:Hrun; [|vm_compute in Hrun; discriminate].
    destruct (misaligned_listing_rejected (Channels kernel_handle) None
                _ _ _ _ 7 24 24 (llm_bytes 10 0 50 0) Hrun (initial_fresh _))
      as (_ & Hheap & _ & Hfull).
    + ran Hrun. by vm_compute.
    + clear; by vm_compute.
    + clear; by vm_compute.
    + clear; by vm_compute.
    + destruct (Hfull 7 50 50 (replicate 50 x01)) as (_ & Hnext & -> & ->);
        [ran Hrun; by vm_compute|lia|].
      exists s'. split; [reflexivity|]. split; [exact Hheap|exact Hnext].
Defined.

(** C10 fails as stated: the reply announces 2^31 + 1 bytes of data,
    which is not a multiple of 48, and the data is received in a new
    block.  Both listings take the size, negative as an [int], for an
    error code: [lttng_list_channels] returns it with the block in
    [*channels], and [lttng_list_sessions] returns it with [*sessions]
    as it was and the block still live. *)
Lemma oversized_listing_is_not_rejected :
  data_size (read_llm (llm_bytes 10 0 2147483649 0)) = 2147483649 /\
  2147483649 mod extended_record_size (Channels kernel_handle) = 33 /\
  2147483649 mod extended_record_size Sessions = 33 /\
  (exists s',
     lttng_list_channels (Some kernel_handle) (Some None)
       (initial_state oversized_reply)
     = Done (-2147483647, Some (Some 0%nat)) s' /\
     is_Some (heap s' !! 0%nat)) /\
  (exists s',
     lttng_list_sessions (Some None) (initial_state oversized_reply)
     = Done (-2147483647, Some None) s' /\
     is_Some (heap s' !! 0%nat)).
Proof.
  split; [by vm_compute|]. split; [by vm_compute|]. split; [by vm_compute|].
  assert (Hd : delivers (initial_state oversized_reply)).
  { unfold delivers, upcoming. cbn [clock world initial_state Nat.add].
    repeat split; by vm_compute. }
  assert (Hbig : 2 ^ 31
                 <= data_size
                      (read_llm
                         (a_bytes (upcoming (initial_state oversized_reply)
                                     3)))) by (by vm_compute).
  exact (oversized_listing_kept kernel_handle None
           (initial_state oversized_reply) Hd (initial_fresh _) Hbig).
Qed.

Lemma two_pass_consistency_witness :
  exists flat s',
    flatten_events two_events two_events (initial_state one_allocation)
    = Done (inr (2, flat)) s' /\
    measure_events two_events = Walked 352 /\
    buffer_size (fe_listing flat) = 352 /\
    _capacity (fe_listing flat) = 352 /\
    new_events (initial_state one_allocation) s' = [EvAlloc 352 true].
Proof.
  destruct (flatten_events two_events two_events
              (initial_state one_allocation)) as [[ret|[n flat]] s'|f] eqn:Hrun;
    [vm_compute in Hrun; discriminate| |vm_compute in Hrun; discriminate].
  destruct (two_pass_consistency _ _ _ _ _ _ eq_refl Hrun)
    as (Hm & Hcap & Hlog & _).
  pose proof Hrun as Hc. vm_compute in Hc. injection Hc as <- <- <-.
  eexists _, _. split; [reflexivity|].
  split; [exact Hm|]. split; [reflexivity|]. split; [exact Hcap|exact Hlog].
Defined.

Lemma empty_listing_flattens_witness :
  measure_events no_event = Walked 0 /\
  flatten_events no_event no_event (initial_state one_allocation)
  = Done (inr (0, {| fe_listing := lttng_dynamic_buffer_init;
                     fe_refs := [] |}))
      (initial_state one_allocation).
Proof.
  apply (empty_listing_flattens no_event no_event
           (initial_state one_allocation)); reflexivity.
Defined.



End Scenarios.

(* ================================================================== *)
(** * The other theorems at work *)

Section MoreScenarios.
Existing Instance sample_externals.
Existing Instance sample_headers.

Local Ltac ran Hrun :=
  let Hc := fresh in
  pose proof Hrun as Hc; vm_compute in Hc; injection Hc as <- <- <-.

Lemma programs_end_idle_witness :
  exists rets s',
    perform_all [Stop_tracing 2 (Some (str "s")); Start_tracing (Some (str "s"))]
      (initial_state stop_then_start) = Done rets s' /\
    idle s' /\ length rets = 2%nat.
Proof.
  destruct (perform_all
              [Stop_tracing 2 (Some (str "s")); Start_tracing (Some (str "s"))]
              (initial_state stop_then_start)) as [rets s'|f] eqn:Hrun;
    [|vm_compute in Hrun; discriminate].
  exists rets, s'. split; [reflexivity|].
  apply (programs_end_idle _ (initial_state stop_then_start) _ _
           ltac:(by split) Hrun).
Defined.

Lemma control_programs_leave_no_block_witness :
  exists rets s',
    perform_all
      [Add_context (Some kernel_handle) (Some app_context) None None]
      (initial_state block_then_acknowledged) = Done rets s' /\
    heap s' = ∅ /\ fresh_above s'.
Proof.
  destruct (perform_all
      [Add_context (Some kernel_handle) (Some app_context) None None]
      (initial_state block_then_acknowledged)) as [rets s'|f] eqn:Hrun;
    [|vm_compute in Hrun; discriminate].
  exists rets, s'. split; [reflexivity|].
  apply (control_programs_leave_no_block
           [Add_context (Some kernel_handle) (Some app_context) None None]
           (initial_state block_then_acknowledged) rets s'
           ltac:(by repeat constructor) (initial_fresh _) Hrun).
Defined.

Lemma one_exchange_per_call_witness :
  exists ret s',
    perform (Data_pending (Some (str "s")))
      (initial_state (scripted (one_byte_reply x01))) = Done ret s' /\
    sleeps (new_events (initial_state (scripted (one_byte_reply x01))) s')
    = 0%nat /\
    (exchanges (new_events (initial_state (scripted (one_byte_reply x01))) s')
     <= 1)%nat /\
    Forall (eq LTTNG_DATA_PENDING)
      (commands (new_events (initial_state (scripted (one_byte_reply x01)))
                   s')).
Proof.
  destruct (perform (Data_pending (Some (str "s")))
              (initial_state (scripted (one_byte_reply x01))))
    as [ret s'|f] eqn:Hrun; [|vm_compute in Hrun; discriminate].
  exists ret, s'. split; [reflexivity|].
  apply (one_exchange_per_call (Data_pending (Some (str "s")))
           LTTNG_DATA_PENDING _ _ _ eq_refl Hrun).
Defined.

Lemma missing_argument_is_refused_witness :
  lacks_argument (Disable_channel (Some kernel_handle) None) = true /\
  perform (Disable_channel (Some kernel_handle) None)
    (initial_state acknowledged)
  = Done (- LTTNG_ERR_INVALID) (initial_state acknowledged).
Proof.
  split; [reflexivity|].
  apply (missing_argument_is_refused
           (Disable_channel (Some kernel_handle) None) _ eq_refl).
Defined.

Lemma add_context_needs_names_witness :
  lttng_add_context (Some kernel_handle) (Some unnamed_app_context) None None
    (initial_state block_then_acknowledged)
  = Done (- LTTNG_ERR_INVALID) (initial_state block_then_acknowledged).
Proof.
  apply (add_context_needs_names kernel_handle unnamed_app_context None None
           _ eq_refl).
  right. reflexivity.
Defined.

Lemma app_context_names_travel_as_data_witness :
  exists ret s',
    lttng_add_context (Some kernel_handle) (Some app_context) None None
      (initial_state block_then_acknowledged) = Done ret s' /\
    Forall (app_context_event (str "p") (str "ctx"))
      (new_events (initial_state block_then_acknowledged) s').
Proof.
  destruct (lttng_add_context (Some kernel_handle) (Some app_context) None
              None (initial_state block_then_acknowledged))
    as [ret s'|f] eqn:Hrun; [|vm_compute in Hrun; discriminate].
  exists ret, s'. split; [reflexivity|].
  apply (app_context_names_travel_as_data kernel_handle app_context None None
           (str "p") (str "ctx") _ _ _ eq_refl eq_refl Hrun).
Defined.

Lemma disable_event_sends_terminated_name_witness :
  exists ret s',
    lttng_disable_event (Some kernel_handle) (Some (replicate 300 x41)) None
      (initial_state acknowledged) = Done ret s' /\
    Forall (disable_event_record (Some (replicate 300 x41)))
      (new_events (initial_state acknowledged) s').
Proof.
  destruct (lttng_disable_event (Some kernel_handle)
              (Some (replicate 300 x41)) None (initial_state acknowledged))
    as [ret s'|f] eqn:Hrun; [|vm_compute in Hrun; discriminate].
  exists ret, s'. split; [reflexivity|].
  apply (disable_event_sends_terminated_name _ _ _ _ _ _ Hrun).
Defined.

Lemma data_pending_result_witness :
  exists s',
    lttng_data_pending (Some (str "s"))
      (initial_state (scripted (one_byte_reply xff))) = Done 255 s' /\
    heap s' = ∅ /\
    exists sock len n hdr sock2 n2 bytes v,
      reads (new_events (initial_state (scripted (one_byte_reply xff))) s')
      = [EvRecv sock len n hdr; EvRecv sock2 1 n2 bytes] /\
      0 <= n2 /\ ret_code (read_llm hdr) = LTTNG_OK /\
      data_size (read_llm hdr) = 1 /\
      area 1 bytes = [v] /\ 255 = Z.of_N (Byte.to_N v).
Proof.
  destruct (lttng_data_pending (Some (str "s"))
              (initial_state (scripted (one_byte_reply xff))))
    as [ret s'|f] eqn:Hrun; [|vm_compute in Hrun; discriminate].
  destruct (data_pending_result _ _ _ _ Hrun (initial_fresh _))
    as (Hheap & Hret & _).
  pose proof Hrun as Hc. vm_compute in Hc. injection Hc as <- <-.
  eexists. split; [reflexivity|]. split; [exact Hheap|].
  destruct Hret as [Hneg|Hbyte]; [lia|exact Hbyte].
Defined.

Lemma records_sent_are_terminated_witness :
  exists ret s',
    perform (Disable_channel (Some wild_handle) (Some (replicate 300 x42)))
      (initial_state acknowledged) = Done ret s' /\
    Forall sends_well_formed (new_events (initial_state acknowledged) s').
Proof.
  destruct (perform
              (Disable_channel (Some wild_handle) (Some (replicate 300 x42)))
              (initial_state acknowledged))
    as [ret s'|f] eqn:Hrun; [|vm_compute in Hrun; discriminate].
  exists ret, s'. split; [reflexivity|].
  apply (records_sent_are_terminated
           (Disable_channel (Some wild_handle) (Some (replicate 300 x42)))
           _ _ _ eq_refl Hrun).
Defined.

Lemma records_sent_have_known_domain_witness :
  exists ret s',
    perform (Disable_channel (Some wild_handle) (Some (str "c")))
      (initial_state acknowledged) = Done ret s' /\
    Forall sends_known_domain (new_events (initial_state acknowledged) s').
Proof.
  destruct (perform (Disable_channel (Some wild_handle) (Some (str "c")))
              (initial_state acknowledged))
    as [ret s'|f] eqn:Hrun; [|vm_compute in Hrun; discriminate].
  exists ret, s'. split; [reflexivity|].
  apply (records_sent_have_known_domain
           (Disable_channel (Some wild_handle) (Some (str "c")))
           _ _ _ eq_refl Hrun).
Defined.

Lemma optional_data_all_or_nothing_witness :
  exists ret ub ul s',
    recv_sessiond_optional_data 4 (Some None) (Some 0)
      (connected_state four_bytes) = Done (ret, ub, ul) s' /\
    exists sock received,
      new_events (connected_state four_bytes) s'
      = [EvAlloc 4 true; EvRecv sock 4 ret received] /\
      ub = Some (Some 0%nat) /\
      heap s' = <[0%nat := overlay (replicate 4 x00) received]> ∅.
Proof.
  destruct (recv_sessiond_optional_data 4 (Some None) (Some 0)
              (connected_state four_bytes))
    as [[[ret ub] ul] s'|f] eqn:Hrun; [|vm_compute in Hrun; discriminate].
  pose proof Hrun as Hc. vm_compute in Hc. injection Hc as <- <- <- <-.
  eexists _, _, _, _. split; [reflexivity|].
  destruct (optional_data_all_or_nothing _ _ _ _ _ _ _ _ Hrun
              (initial_fresh four_bytes 0%nat (le_n 0)))
    as [(Hneg & _)|[(Hzero & _)
       |(_ & _ & _ & _ & sock & received & Hlog & Hub & Hheap)]];
    [lia|lia|].
  exists sock, received. split; [exact Hlog|]. split; [exact Hub|exact Hheap].
Defined.

Lemma list_sessions_count_witness :
  exists n out' s',
    lttng_list_sessions (Some None) (initial_state ninety_six_bytes)
    = Done (n, out') s' /\
    n = 2 /\
    exists bytes,
      out' = Some (Some 0%nat) /\ heap s' = <[0%nat := bytes]> ∅ /\
      Z.of_nat (length bytes) = 96.
Proof.
  destruct (lttng_list_sessions (Some None) (initial_state ninety_six_bytes))
    as [[n out'] s'|f] eqn:Hrun; [|vm_compute in Hrun; discriminate].
  ran Hrun. eexists _, _, _. split; [reflexivity|]. split; [reflexivity|].
  apply (proj1 (list_sessions_count _ _ _ _ _ Hrun (initial_fresh _))).
  lia.
Defined.

Lemma list_channels_count_witness :
  exists n out' s',
    lttng_list_channels (Some kernel_handle) (Some None)
      (initial_state ninety_six_bytes) = Done (n, out') s' /\
    n = 2 /\
    exists bytes,
      out' = Some (Some 0%nat) /\ heap s' = <[0%nat := bytes]> ∅ /\
      Z.of_nat (length bytes) = 96.
Proof.
  destruct (lttng_list_channels (Some kernel_handle) (Some None)
              (initial_state ninety_six_bytes))
    as [[n out'] s'|f] eqn:Hrun; [|vm_compute in Hrun; discriminate].
  ran Hrun. eexists _, _, _. split; [reflexivity|]. split; [reflexivity|].
  apply (list_channels_count _ _ _ _ _ _ Hrun (initial_fresh _)); [|lia].
  intros sock len k hdr Hhead. vm_compute in Hhead.
  injection Hhead as <- <- <- <-. by vm_compute.
Defined.

Lemma plain_listing_count_witness :
  exists n out' s',
    list_plain (Domains (Some (str "s"))) (Some None)
      (initial_state ninety_six_bytes) = Done (n, out') s' /\
    n = 12 /\
    exists bytes,
      out' = Some (Some 0%nat) /\ heap s' = <[0%nat := bytes]> ∅ /\
      96 <= Z.of_nat (length bytes) < 104.
Proof.
  destruct (list_plain (Domains (Some (str "s"))) (Some None)
              (initial_state ninety_six_bytes))
    as [[n out'] s'|f] eqn:Hrun; [|vm_compute in Hrun; discriminate].
  ran Hrun. eexists _, _, _. split; [reflexivity|]. split; [reflexivity|].
  apply (plain_listing_count (Domains (Some (str "s"))) _ _ _ _ _ Hrun
           (initial_fresh _)); [|lia].
  intros sock len k hdr Hhead. vm_compute in Hhead.
  injection Hhead as <- <- <- <-. by vm_compute.
Defined.

Lemma created_handle_names_its_session_witness :
  exists h s1 ret s2,
    lttng_create_handle (Some (replicate 300 x41))
      (Some {| dom_type := LTTNG_DOMAIN_invalid 77; dom_attr := Some [x01] |})
      (initial_state handle_then_acknowledged) = Done (Some h) s1 /\
    perform (Disable_channel (Some h) (Some (str "c"))) s1 = Done ret s2 /\
    h_domain h = lttng_domain_zero /\
    Forall (sends_session (replicate 254 x41) (h_domain h))
      (new_events s1 s2).
Proof.
  destruct (lttng_create_handle (Some (replicate 300 x41))
      (Some {| dom_type := LTTNG_DOMAIN_invalid 77; dom_attr := Some [x01] |})
      (initial_state handle_then_acknowledged))
    as [[h|] s1|f] eqn:Hcreate;
    [|vm_compute in Hcreate; discriminate..].
  destruct (perform (Disable_channel (Some h) (Some (str "c"))) s1)
    as [ret s2|f] eqn:Hrun.
  2: { pose proof Hcreate as Hc. vm_compute in Hc. injection Hc as <- <-.
       vm_compute in Hrun. discriminate. }
  exists h, s1, ret, s2. split; [reflexivity|]. split; [exact Hrun|].
  apply (created_handle_names_its_session _ _ _ _ _
           (Disable_channel (Some h) (Some (str "c"))) _ _ Hcreate eq_refl
           Hrun).
Defined.

Lemma blocking_timeout_range_witness :
  (exists chan',
     lttng_channel_set_blocking_timeout (Some sample_channel) 2147483647999
     = (0, Some chan') /\
     lttng_channel_get_blocking_timeout (Some chan') (Some 0)
     = (0, Some 2147483647999) /\
     lttng_channel_get_monitor_timer_interval (Some chan') (Some 0)
     = (0, Some 1000000)) /\
  lttng_channel_set_blocking_timeout (Some sample_channel) 2147483648000
  = (- LTTNG_ERR_INVALID, Some sample_channel) /\
  lttng_channel_set_blocking_timeout (Some sample_channel) (-2)
  = (- LTTNG_ERR_INVALID, Some sample_channel).
Proof.
  split; [|split].
  - apply (blocking_timeout_range sample_channel _ 2147483647999 eq_refl).
  - apply (blocking_timeout_range sample_channel _ 2147483648000 eq_refl).
  - apply (blocking_timeout_range sample_channel _ (-2) eq_refl).
Defined.

Lemma monitor_timer_round_trip_witness :
  exists chan',
    lttng_channel_set_monitor_timer_interval (Some sample_channel) 5
    = (0, Some chan') /\
    lttng_channel_get_monitor_timer_interval (Some chan') (Some 0)
    = (0, Some 5) /\
    lttng_channel_get_blocking_timeout (Some chan') (Some 0) = (0, Some 0) /\
    lttng_channel_get_discarded_event_count (Some chan') (Some 0)
    = (0, Some 3) /\
    lttng_channel_get_lost_packet_count (Some chan') (Some 0) = (0, Some 4).
Proof. apply (monitor_timer_round_trip sample_channel _ 5 eq_refl). Defined.

Lemma channel_without_extension_witness :
  lttng_channel_get_discarded_event_count (Some bare_channel) (Some 9)
  = (0, Some 0) /\
  lttng_channel_get_lost_packet_count (Some bare_channel) (Some 9)
  = (0, Some 0) /\
  lttng_channel_get_monitor_timer_interval (Some bare_channel) (Some 9)
  = (- LTTNG_ERR_INVALID, Some 9) /\
  lttng_channel_get_blocking_timeout (Some bare_channel) (Some 9)
  = (- LTTNG_ERR_INVALID, Some 9) /\
  lttng_channel_set_monitor_timer_interval (Some bare_channel) 5
  = (- LTTNG_ERR_INVALID, Some bare_channel) /\
  lttng_channel_set_blocking_timeout (Some bare_channel) 5
  = (- LTTNG_ERR_INVALID, Some bare_channel).
Proof. apply (channel_without_extension bare_channel 5 9 eq_refl). Defined.

Lemma non_root_path_ignores_tracing_group_witness :
  SocketPath.lttng_check_tracing_group plain_user = -1 /\
  exists global,
    SocketPath.set_session_daemon_path plain_user (replicate 4096 x00)
    = Some (0, global) /\
    c_str global = DEFAULT_GLOBAL_CLIENT_UNIX_SOCK.
Proof.
  split; [reflexivity|].
  destruct (lttng_ctl_copy_string (Some (replicate 4096 x00))
              (Some DEFAULT_GLOBAL_CLIENT_UNIX_SOCK) PATH_MAX)
    as [[global|]|] eqn:Hcopy; [|vm_compute in Hcopy; discriminate..].
  exists global. split.
  - apply (non_root_path_ignores_tracing_group plain_user _ global
             ltac:(discriminate) Hcopy).
  - vm_compute in Hcopy. injection Hcopy as <-. by vm_compute.
Defined.

Lemma flattened_references_witness :
  exists flat s',
    flatten_events two_events two_events (initial_state one_allocation)
    = Done (inr (2, flat)) s' /\
    Forall (ref_inside 32 352) (fe_refs flat).
Proof.
  destruct (flatten_events two_events two_events
              (initial_state one_allocation)) as [[ret|[n flat]] s'|f] eqn:Hrun;
    [vm_compute in Hrun; discriminate| |vm_compute in Hrun; discriminate].
  destruct (flattened_references _ _ _ _ _ _ Hrun) as [_ Hrefs].
  pose proof Hrun as Hc. vm_compute in Hc. injection Hc as <- <- <-.
  eexists _, _. split; [reflexivity|]. exact Hrefs.
Defined.

Lemma request_is_one_conversation_witness :
  exists r s',
    run_request
      (FixedHeader (lsm_init LTTNG_LIST_EVENTS) None 0 None 0 all_outputs)
      (initial_state data_section_fails) = Done r s' /\
    one_conversation (new_events (initial_state data_section_fails) s').
Proof.
  destruct (run_request
      (FixedHeader (lsm_init LTTNG_LIST_EVENTS) None 0 None 0 all_outputs)
      (initial_state data_section_fails)) as [r s'|f] eqn:Hrun;
    [|vm_compute in Hrun; discriminate].
  exists r, s'. split; [reflexivity|].
  apply (request_is_one_conversation _ (initial_state data_section_fails)
           _ _ eq_refl Hrun).
Defined.

Lemma list_events_outcome_witness :
  exists flat s',
    lttng_list_events (Some kernel_handle) (Some (str "c")) (Some None)
      (initial_state one_event_listed) = Done (1, Some (Some flat)) s' /\
    length (fe_refs flat) = 1%nat /\
    Forall (ref_inside 16 (buffer_size (fe_listing flat))) (fe_refs flat).
Proof.
  destruct (lttng_list_events (Some kernel_handle) (Some (str "c"))
              (Some None) (initial_state one_event_listed))
    as [[ret events'] s'|f] eqn:Hrun; [|vm_compute in Hrun; discriminate].
  ran Hrun.
  destruct (list_events_outcome _ _ _ _ _ _ _ Hrun)
    as [[Hneg _]|(_ & flat & Hev & Hlen & Hrefs)]; [lia|].
  injection Hev as <-.
  eexists _, _. split; [reflexivity|]. split; [exact Hlen|exact Hrefs].
Defined.

Lemma regenerate_never_positive_witness :
  exists ret s',
    perform (Metadata_regenerate (Some (str "s")))
      (initial_state (scripted (one_byte_reply x01))) = Done ret s' /\
    ret <= 0.
Proof.
  destruct (perform (Metadata_regenerate (Some (str "s")))
              (initial_state (scripted (one_byte_reply x01))))
    as [ret s'|f] eqn:Hrun; [|vm_compute in Hrun; discriminate].
  exists ret, s'. split; [reflexivity|].
  apply (regenerate_never_positive (Metadata_regenerate (Some (str "s")))
           _ _ _ (or_introl eq_refl) Hrun).
Defined.

Lemma payload_reply_is_the_sections_witness :
  exists reply' s',
    lttng_ctl_ask_sessiond_payload
      {| pv_buffer := [x01]; pv_fd_handles := [] |} lttng_payload_init
      (initial_state one_event_listed) = Done (32, reply') s' /\
    payload_reply (initial_state one_event_listed) (32, reply') s' /\
    reads (new_events (initial_state one_event_listed) s')
    = [EvRecv 7 24 24 (llm_bytes 10 4 28 0); EvRecv 7 4 4 (enc32 1);
       EvRecv 7 28 28 (replicate 16 x07 ++ replicate 12 x00)] /\
    data (buffer reply') = enc32 1 ++ replicate 16 x07 ++ replicate 12 x00.
Proof.
  destruct (lttng_ctl_ask_sessiond_payload
              {| pv_buffer := [x01]; pv_fd_handles := [] |} lttng_payload_init
              (initial_state one_event_listed))
    as [[ret reply'] s'|f] eqn:Hrun; [|vm_compute in Hrun; discriminate].
  pose proof (payload_reply_is_the_sections _ _ _ _ _ Hrun) as Hreply.
  ran Hrun. eexists _, _. split; [reflexivity|]. split; [exact Hreply|].
  split; vm_compute; reflexivity.
Defined.

End MoreScenarios.
